(** * PteroDeploy: the deployment orchestration engine

    A shallow embedding of the backend's deployment code:

    - [createDeploymentPlan] and [simulateDeployment]
      (backend/src/utils/deployment.ts),
    - the deployments router ([GET /], [GET /:id], [POST /], [DELETE /:id])
      and [setupSocketHandlers] with its [start-deployment] handler,
    - the [Deployment] and [DeploymentStep] tables of the Prisma schema,
    - the client of the run: the deployment store, the handlers of the
      socket context and the progress bar of the frontend,
    - [seedDatabase], the [Template] table and the templates router.

    Conventions of the embedding.

    - Prisma's [cuid()] identifiers and the JWT user identifiers are opaque
      strings in the code; here they are natural numbers, and the store
      draws fresh ones from a counter.
    - The two tables are lists of rows in insertion order; the primary key
      is the well-formedness condition [wf_db].
    - [Math.random()] and the wall clock ([Date.now()], [new Date()]) are
      oracles: the n-th call of a run reads the n-th value of a sequence
      carried by the [World].  Clock readings are integer milliseconds.
    - The numbers of JavaScript are doubles: a finite double is the
      rational it denotes, and the products and sums of the run are
      rounded to the nearest double ([double_mul], [double_add]).  A draw
      of [Math.random()] is a double in [0, 1) ([is_random]); a theorem
      that needs it says so.
    - Strings are sequences of bytes, UTF-8 as the database stores them;
      [toLowerCase] and the class [\s] are JavaScript's on ASCII strings.
    - The requests of the router carry fields of the types that the
      frontend sends (strings, natural numbers); the payload of the
      socket's [start-deployment] is modelled in full ([StartData]).
    - An [await] is sequencing; the code between two handlers is not
      interleaved (one handler runs to its end).
    - A rejected Prisma call throws; the exception leaves the effects done
      so far in place, as in the code. *)

From Stdlib Require Import ZArith QArith Qround Qpower Qabs String Ascii List.
From Stdlib Require Import Bool Lia Lqa.
From Stdlib Require Import Sorted Permutation DecimalString.
Import ListNotations.

Local Open Scope string_scope.
Local Open Scope Z_scope.

(** ** Strings *)

(** [String.prototype.includes]: does [searchString] occur in [s]? *)
Fixpoint includes (s searchString : string) : bool :=
  String.prefix searchString s
  || match s with
     | EmptyString => false
     | String _ s' => includes s' searchString
     end.

(** [Array.prototype.splice(start, deleteCount, ...items)], as the array
    it leaves behind. *)
Definition splice {A} (start deleteCount : nat) (items l : list A) : list A :=
  firstn start l ++ items ++ skipn (start + deleteCount) l.

(** ** Plan Builder *)

Module DeploymentPlan.
Record t := mk {
  name : string;
  description : string;
  estimatedDuration : Z  (* in seconds *)
}.
End DeploymentPlan.

Definition isLarge (modpackUrl : string) : bool :=
  includes modpackUrl "rlcraft" || includes modpackUrl "all-the-mods".

Definition isTech (modpackUrl : string) : bool :=
  includes modpackUrl "tekkit" || includes modpackUrl "industrialcraft".

Definition basePlan (large : bool) : list DeploymentPlan.t :=
  [ DeploymentPlan.mk "Validate URL"
      "Checking modpack URL and extracting metadata" 3;
    DeploymentPlan.mk "Download Modpack"
      "Downloading modpack files and dependencies" (if large then 45 else 20);
    DeploymentPlan.mk "Extract Files"
      "Extracting modpack archive and organizing files" 10;
    DeploymentPlan.mk "Install Forge/Fabric"
      "Setting up mod loader and dependencies" 15;
    DeploymentPlan.mk "Configure Server"
      "Applying server configurations and settings" 8;
    DeploymentPlan.mk "Allocate Resources"
      "Setting up server resources and memory allocation" 5;
    DeploymentPlan.mk "Start Server"
      "Starting Minecraft server and running initial checks" 20 ].

Definition techStep : DeploymentPlan.t :=
  DeploymentPlan.mk "Install Tech Mods"
    "Installing and configuring technical mod dependencies" 12.

Definition createDeploymentPlan (modpackUrl : string) : list DeploymentPlan.t :=
  let plan := basePlan (isLarge modpackUrl) in
  if isTech modpackUrl then splice 4 0 [techStep] plan else plan.

(** [steps.map((step, index) => ...)]: the elements with their indices. *)
Fixpoint indexed_from {A} (i : nat) (l : list A) : list (nat * A) :=
  match l with
  | [] => []
  | x :: l' => (i, x) :: indexed_from (S i) l'
  end.

Definition indexed {A} (l : list A) : list (nat * A) := indexed_from 0 l.

(** ** Data model (prisma/schema.prisma) *)

Definition Id := nat.
Bind Scope nat_scope with Id.

(** The [status] columns are text; the values the code and the frontend's
    types use are these six. *)
Inductive Status :=
  PENDING | RUNNING | COMPLETED | FAILED | CANCELLED | SKIPPED.

Definition status_text (s : Status) : string :=
  match s with
  | PENDING => "PENDING" | RUNNING => "RUNNING" | COMPLETED => "COMPLETED"
  | FAILED => "FAILED" | CANCELLED => "CANCELLED" | SKIPPED => "SKIPPED"
  end.

Definition Status_eqb (a b : Status) : bool :=
  match a, b with
  | PENDING, PENDING | RUNNING, RUNNING | COMPLETED, COMPLETED
  | FAILED, FAILED | CANCELLED, CANCELLED | SKIPPED, SKIPPED => true
  | _, _ => false
  end.

Module Deployment.
Record t := mk {
  id : Id;
  userId : Id;
  modpackName : string;
  modpackUrl : string;
  status : Status;
  startedAt : Z;
  completedAt : option Z;
  duration : option Z;     (* in seconds *)
  logs : option string;
  errorMsg : option string
}.

(** The [data] argument of [prisma.deployment.update]: the fields given
    are written, the others are kept. *)
Record data := mkData {
  set_status : option Status;
  set_completedAt : option Z;
  set_duration : option Z;
  set_errorMsg : option string
}.

Definition write {A} (new : option A) (old : A) : A :=
  match new with Some v => v | None => old end.

Definition write_opt {A} (new : option A) (old : option A) : option A :=
  match new with Some v => Some v | None => old end.

Definition apply (u : data) (d : t) : t :=
  mk (id d) (userId d) (modpackName d) (modpackUrl d)
     (write (set_status u) (status d))
     (startedAt d)
     (write_opt (set_completedAt u) (completedAt d))
     (write_opt (set_duration u) (duration d))
     (logs d)
     (write_opt (set_errorMsg u) (errorMsg d)).
End Deployment.

Module DeploymentStep.
Record t := mk {
  id : Id;
  deploymentId : Id;
  name : string;
  description : string;
  status : Status;
  startedAt : option Z;
  completedAt : option Z;
  logs : option (list string);  (* the array that JSON.stringify encodes *)
  order : Z
}.

Record data := mkData {
  set_status : option Status;
  set_startedAt : option Z;
  set_completedAt : option Z;
  set_logs : option (list string)
}.

Definition apply (u : data) (s : t) : t :=
  mk (id s) (deploymentId s) (name s) (description s)
     (Deployment.write (set_status u) (status s))
     (Deployment.write_opt (set_startedAt u) (startedAt s))
     (Deployment.write_opt (set_completedAt u) (completedAt s))
     (Deployment.write_opt (set_logs u) (logs s))
     (order s).
End DeploymentStep.

(** [Deployment & { steps: DeploymentStep[] }]: a row with its steps, as
    [include: { steps: ... }] returns it. *)
Record DeploymentWithSteps := mkWithSteps {
  deployment_row : Deployment.t;
  deployment_steps : list DeploymentStep.t
}.

(** ** Record store *)

Record DB := mkDB {
  deployments : list Deployment.t;
  steps : list DeploymentStep.t;
  next_id : Id
}.

Definition empty_db : DB := mkDB [] [] 0%nat.

(** Stable insertion sort, for [orderBy]. *)
Fixpoint insert_by {A} (leb : A -> A -> bool) (x : A) (l : list A) : list A :=
  match l with
  | [] => [x]
  | y :: l' => if leb x y then x :: l else y :: insert_by leb x l'
  end.

Definition sort_by {A} (leb : A -> A -> bool) (l : list A) : list A :=
  fold_right (insert_by leb) [] l.

Definition order_asc (a b : DeploymentStep.t) : bool :=
  DeploymentStep.order a <=? DeploymentStep.order b.

Definition startedAt_desc (a b : Deployment.t) : bool :=
  Deployment.startedAt b <=? Deployment.startedAt a.

(** [include: { steps: { orderBy: { order: 'asc' } } }] *)
Definition steps_of (d : DB) (deploymentId : Id) : list DeploymentStep.t :=
  sort_by order_asc
    (filter (fun s => Nat.eqb (DeploymentStep.deploymentId s) deploymentId)
            (steps d)).

Definition with_steps (d : DB) (row : Deployment.t) : DeploymentWithSteps :=
  mkWithSteps row (steps_of d (Deployment.id row)).

Definition find_deployment (d : DB) (id : Id) : option Deployment.t :=
  find (fun r => Nat.eqb (Deployment.id r) id) (deployments d).

Definition find_step (d : DB) (id : Id) : option DeploymentStep.t :=
  find (fun r => Nat.eqb (DeploymentStep.id r) id) (steps d).

Definition update_rows {A} (key : A -> Id) (id : Id) (f : A -> A)
    (rows : list A) : list A :=
  map (fun r => if Nat.eqb (key r) id then f r else r) rows.

(** The primary keys are unique, the identifiers in use are below the
    counter, and every step refers to a stored deployment (the foreign
    key of [DeploymentStep]). *)
Definition wf_db (d : DB) : Prop :=
  NoDup (map Deployment.id (deployments d))
  /\ NoDup (map DeploymentStep.id (steps d))
  /\ (forall r, In r (deployments d) -> (Deployment.id r < next_id d)%nat)
  /\ (forall s, In s (steps d) -> (DeploymentStep.id s < next_id d)%nat)
  /\ (forall s, In s (steps d) ->
        In (DeploymentStep.deploymentId s) (map Deployment.id (deployments d))).

(** ** Events and the world *)

Record ServerInfo := mkServerInfo {
  ip : string;
  port : Z;
  players : string
}.

Inductive Event :=
| deployment_status (deploymentId : Id) (status : Status) (message : string)
| step_update (deploymentId stepId : Id) (status : Status) (message : string)
    (error : option string)
| deployment_complete (deploymentId : Id) (status : Status) (message : string)
    (duration : Z) (serverInfo : option ServerInfo)
| deployment_error (error : string).

Module Socket.
Record t := mk { id : Id; userId : Id }.
End Socket.

(** [io.to(`user:${userId}`)] or [socket]. *)
Inductive Recipient :=
| to_user_room (userId : Id)
| to_socket (socketId : Id).

Definition Emission := (Recipient * Event)%type.

Record World := mkWorld {
  db : DB;
  emitted : list Emission;   (* oldest first *)
  random : nat -> Q;         (* the draws of Math.random *)
  random_pos : nat;
  clock : nat -> Z;          (* the readings of the clock, in ms *)
  clock_pos : nat
}.

Definition set_db (w : World) (d : DB) : World :=
  mkWorld d (emitted w) (random w) (random_pos w) (clock w) (clock_pos w).

(** ** Effects: state, with exceptions that keep the state *)

(** What is thrown: the two errors of a Prisma call that the database
    rejects, Prisma's refusal of an ill-typed query, and the [TypeError]
    of JavaScript. *)
Inductive Exn :=
  RecordNotFound | ForeignKeyConstraint | ValidationError | TypeError.

Inductive Res (A : Type) :=
| Ok (a : A)
| Throw (e : Exn).
Arguments Ok {A} a.
Arguments Throw {A} e.

Definition M (A : Type) : Type := World -> Res A * World.

Definition ret {A} (a : A) : M A := fun w => (Ok a, w).

Definition bind {A B} (c : M A) (k : A -> M B) : M B :=
  fun w =>
    match c w with
    | (Ok a, w') => k a w'
    | (Throw e, w') => (Throw e, w')
    end.

Definition throw {A} (e : Exn) : M A := fun w => (Throw e, w).

(** [try { c } catch (error) { h }] *)
Definition try_catch {A} (c : M A) (h : Exn -> M A) : M A :=
  fun w =>
    match c w with
    | (Ok a, w') => (Ok a, w')
    | (Throw e, w') => h e w'
    end.

Declare Scope m_scope.
Delimit Scope m_scope with M.
Notation "x <- c ;; k" := (bind c (fun x => k))
  (at level 61, c at next level, right associativity) : m_scope.
Notation "c ;; k" := (bind c (fun _ => k))
  (at level 61, right associativity) : m_scope.
Local Open Scope m_scope.

Definition get_db : M DB := fun w => (Ok (db w), w).

Definition put_db (d : DB) : M unit := fun w => (Ok tt, set_db w d).

Definition emit (to : Recipient) (e : Event) : M unit :=
  fun w =>
    (Ok tt, mkWorld (db w) (emitted w ++ [(to, e)]) (random w) (random_pos w)
                    (clock w) (clock_pos w)).

(** [Math.random()] *)
Definition Math_random : M Q :=
  fun w =>
    (Ok (random w (random_pos w)),
     mkWorld (db w) (emitted w) (random w) (S (random_pos w))
             (clock w) (clock_pos w)).

(** [Date.now()], [new Date()] *)
Definition Date_now : M Z :=
  fun w =>
    (Ok (clock w (clock_pos w)),
     mkWorld (db w) (emitted w) (random w) (random_pos w)
             (clock w) (S (clock_pos w))).

(** [cuid()] *)
Definition fresh_id : M Id :=
  d <- get_db ;;
  put_db (mkDB (deployments d) (steps d) (S (next_id d))) ;;
  ret (next_id d).

(** ** Prisma client calls *)

Definition has_key {A} (key : A -> Id) (id : Id) (rows : list A) : bool :=
  existsb (fun r => Nat.eqb (key r) id) rows.

(** [prisma.deployment.update({ where: { id }, data })] *)
Definition prisma_deployment_update (id : Id) (u : Deployment.data) : M unit :=
  d <- get_db ;;
  if has_key Deployment.id id (deployments d)
  then put_db (mkDB (update_rows Deployment.id id (Deployment.apply u)
                                 (deployments d))
                    (steps d) (next_id d))
  else throw RecordNotFound.

(** [prisma.deploymentStep.update({ where: { id }, data })] *)
Definition prisma_deploymentStep_update (id : Id) (u : DeploymentStep.data)
    : M unit :=
  d <- get_db ;;
  if has_key DeploymentStep.id id (steps d)
  then put_db (mkDB (deployments d)
                    (update_rows DeploymentStep.id id (DeploymentStep.apply u)
                                 (steps d))
                    (next_id d))
  else throw RecordNotFound.

(** [prisma.deployment.create]: [id] is [cuid()], [startedAt] is [now()].
    The foreign key to the table of users is taken to hold; that table
    is not part of the store here. *)
Definition prisma_deployment_create (userId : Id) (modpackName modpackUrl : string)
    (status : Status) : M Deployment.t :=
  id <- fresh_id ;;
  now <- Date_now ;;
  d <- get_db ;;
  let row := Deployment.mk id userId modpackName modpackUrl status now
                           None None None None in
  put_db (mkDB (deployments d ++ [row]) (steps d) (next_id d)) ;;
  ret row.

(** [prisma.deploymentStep.create]; the foreign key wants the deployment. *)
Definition prisma_deploymentStep_create (deploymentId : Id)
    (name description : string) (status : Status) (order : Z)
    : M DeploymentStep.t :=
  id <- fresh_id ;;
  d <- get_db ;;
  if has_key Deployment.id deploymentId (deployments d)
  then
    let row := DeploymentStep.mk id deploymentId name description status
                                 None None None order in
    put_db (mkDB (deployments d) (steps d ++ [row]) (next_id d)) ;;
    ret row
  else throw ForeignKeyConstraint.

(** [prisma.deployment.findFirst({ where: { id, userId }, include: steps })] *)
Definition prisma_deployment_findFirst (id userId : Id)
    : M (option DeploymentWithSteps) :=
  d <- get_db ;;
  ret (option_map (with_steps d)
         (find (fun r => Nat.eqb (Deployment.id r) id
                         && Nat.eqb (Deployment.userId r) userId)
               (deployments d))).

(** [prisma.deployment.findUnique({ where: { id }, include: steps })] *)
Definition prisma_deployment_findUnique (id : Id)
    : M (option DeploymentWithSteps) :=
  d <- get_db ;;
  ret (option_map (with_steps d) (find_deployment d id)).

(** [prisma.deployment.delete({ where: { id } })]; the steps' foreign key
    is [ON DELETE RESTRICT]. *)
Definition prisma_deployment_delete (id : Id) : M unit :=
  d <- get_db ;;
  if negb (has_key Deployment.id id (deployments d)) then throw RecordNotFound
  else if has_key DeploymentStep.deploymentId id (steps d)
  then throw ForeignKeyConstraint
  else put_db (mkDB (filter (fun r => negb (Nat.eqb (Deployment.id r) id))
                            (deployments d))
                    (steps d) (next_id d)).

(** ** Text helpers of the run *)

Definition is_upper (c : ascii) : bool :=
  (65 <=? nat_of_ascii c)%nat && (nat_of_ascii c <=? 90)%nat.

(** [String.prototype.toLowerCase], on the ASCII letters; other characters
    are kept as they are. *)
Fixpoint toLowerCase (s : string) : string :=
  match s with
  | EmptyString => EmptyString
  | String c s' =>
      String (if is_upper c then ascii_of_nat (nat_of_ascii c + 32) else c)
             (toLowerCase s')
  end.

(** A string is the sequence of its bytes in UTF-8, as SQLite stores a
    text.  [toLowerCase] and [is_space] are those of JavaScript on the
    strings of ASCII characters; the theorems on the host name ask for
    such a name. *)
Fixpoint is_ascii (s : string) : bool :=
  match s with
  | EmptyString => true
  | String c s' => (nat_of_ascii c <? 128)%nat && is_ascii s'
  end.

(** The ASCII characters of the class [\s]. *)
Definition is_space (c : ascii) : bool :=
  let n := nat_of_ascii c in
  Nat.eqb n 32 || ((9 <=? n)%nat && (n <=? 13)%nat).

(** [s.replace(/\s+/g, '-')]: [in_run] says that the previous character
    was white space, already replaced. *)
Fixpoint replace_spaces (in_run : bool) (s : string) : string :=
  match s with
  | EmptyString => EmptyString
  | String c s' =>
      if is_space c
      then if in_run then replace_spaces true s'
           else String "-" (replace_spaces true s')
      else String c (replace_spaces false s')
  end.

Definition string_of_Z (n : Z) : string :=
  NilZero.string_of_uint (N.to_uint (Z.to_N n)).

Definition Qltb (x y : Q) : bool := negb (Qle_bool y x).

(** [Number.prototype.toFixed(1)]: the nearest tenth, the larger one at a
    tie, of the magnitude; the sign in front. *)
Definition toFixed1 (x : Q) : string :=
  let mag := if Qltb x 0 then Qopp x else x in
  let n := Qfloor (mag * inject_Z 10 + (1 # 2)) in
  ((if Qltb x 0 then "-" else "")
   ++ string_of_Z (n / 10) ++ "." ++ string_of_Z (n mod 10))%string.

(** ** Doubles *)

(** The numbers of the program are IEEE 754 binary64 values.  A finite
    double is a rational here, and an operation gives the double nearest
    to its exact result, the one with the even significand at a tie.  The
    program does not reach the largest double, and the overflow to
    infinity is not modelled. *)

Definition pow2 (e : Z) : Q := (2 ^ e)%Q.

(** The largest [e] with [2^e <= x], for a positive [x]. *)
Definition ilog2 (x : Q) : Z :=
  let k := Z.log2 (Qnum x) - Z.log2 (Zpos (Qden x)) in
  if Qle_bool (pow2 k) x then k else k - 1.

(** The exponent of the last place of the doubles around [x]: 53 bits of
    significand, and the subnormal numbers below [2^-1022]. *)
Definition last_place (x : Q) : Z := Z.max (ilog2 (Qabs x) - 52) (-1074).

(** The integer nearest to [q], the even one at a tie. *)
Definition nearest_even (q : Q) : Z :=
  let f := Qfloor q in
  match (q - inject_Z f ?= 1 # 2)%Q with
  | Lt => f
  | Gt => f + 1
  | Eq => if Z.even f then f else f + 1
  end.

(** The double nearest to [x]. *)
Definition double_of (x : Q) : Q :=
  if Qeq_bool x 0 then 0
  else Qred (inject_Z (nearest_even (x / pow2 (last_place x)))
             * pow2 (last_place x))%Q.

Definition is_double (x : Q) : Prop := (double_of x == x)%Q.

(** [x * y] and [x + y] on doubles. *)
Definition double_mul (x y : Q) : Q := double_of (x * y)%Q.

Definition double_add (x y : Q) : Q := double_of (x + y)%Q.

(** A value of [Math.random()]: a double, at least 0 and below 1. *)
Definition is_random (x : Q) : Prop := is_double x /\ (0 <= x)%Q /\ (x < 1)%Q.

(** ** The run: [simulateDeployment] *)

(** The literal [0.2], as the double it denotes. *)
Definition failure_chance : Q := 3602879701896397 # 18014398509481984.

(** [await new Promise(resolve => setTimeout(resolve, ms))]: the time that
    passes shows in the later readings of the clock. *)
Definition setTimeout (ms : Q) : M unit := ret tt.

(** [plan[i]?.estimatedDuration || 10] *)
Definition estimatedDuration_at (plan : list DeploymentPlan.t) (i : nat) : Z :=
  match nth_error plan i with
  | Some p => if DeploymentPlan.estimatedDuration p =? 0 then 10
              else DeploymentPlan.estimatedDuration p
  | None => 10
  end.

Definition failure_logs : list string :=
  [ "Error: Failed to download modpack";
    "Connection timeout after 30 seconds";
    "Please check your internet connection and try again" ].

Definition success_logs (stepName : string) (actualDuration : Q) : list string :=
  [ ("Successfully completed " ++ stepName)%string;
    ("Duration: " ++ toFixed1 actualDuration ++ "s")%string;
    "All checks passed ✓" ].

Definition serverInfo_of (modpackName : string) : ServerInfo :=
  mkServerInfo
    (replace_spaces false (toLowerCase modpackName) ++ ".pterodeploy.com")%string
    25565 "0/20".

(** How the [for] loop is left: by the [return] of the failure branch, or
    at its end. *)
Inductive LoopExit := Returned | Finished.

(** The body of the [for] loop for [i], [i+1], ...: [rest] is
    [deployment.steps] from index [i] on. *)
Fixpoint run_steps (deployment : Deployment.t) (userId : Id)
    (startTime failAtStep : Z) (i : nat) (rest : list DeploymentStep.t)
    : M LoopExit :=
  match rest with
  | [] => ret Finished
  | step :: rest' =>
      (* Update step to running *)
      startedAt <- Date_now ;;
      prisma_deploymentStep_update (DeploymentStep.id step)
        (DeploymentStep.mkData (Some RUNNING) (Some startedAt) None None) ;;
      emit (to_user_room userId)
        (step_update (Deployment.id deployment) (DeploymentStep.id step) RUNNING
           ("Started: " ++ DeploymentStep.name step)%string None) ;;
      (* Simulate step duration with some randomness *)
      let plan := createDeploymentPlan (Deployment.modpackUrl deployment) in
      let estimatedDuration := estimatedDuration_at plan i in
      r <- Math_random ;;
      let actualDuration :=
        double_add (inject_Z estimatedDuration) (double_mul r (inject_Z 5)) in
      setTimeout (double_mul actualDuration (inject_Z 1000)) ;;
      (* Check if this step should fail *)
      if Z.of_nat i =? failAtStep then
        completedAt <- Date_now ;;
        prisma_deploymentStep_update (DeploymentStep.id step)
          (DeploymentStep.mkData (Some FAILED) None (Some completedAt)
             (Some failure_logs)) ;;
        completedAt' <- Date_now ;;
        now <- Date_now ;;
        prisma_deployment_update (Deployment.id deployment)
          (Deployment.mkData (Some FAILED) (Some completedAt')
             (Some ((now - startTime) / 1000))
             (Some ("Deployment failed at step: "
                    ++ DeploymentStep.name step)%string)) ;;
        emit (to_user_room userId)
          (step_update (Deployment.id deployment) (DeploymentStep.id step) FAILED
             ("Failed: " ++ DeploymentStep.name step)%string
             (Some "Connection timeout - please try again")) ;;
        now' <- Date_now ;;
        emit (to_user_room userId)
          (deployment_complete (Deployment.id deployment) FAILED
             "Deployment failed" ((now' - startTime) / 1000) None) ;;
        ret Returned
      else
        (* Mark step as completed *)
        completedAt <- Date_now ;;
        prisma_deploymentStep_update (DeploymentStep.id step)
          (DeploymentStep.mkData (Some COMPLETED) None (Some completedAt)
             (Some (success_logs (DeploymentStep.name step) actualDuration))) ;;
        emit (to_user_room userId)
          (step_update (Deployment.id deployment) (DeploymentStep.id step)
             COMPLETED ("Completed: " ++ DeploymentStep.name step)%string None) ;;
        run_steps deployment userId startTime failAtStep (S i) rest'
  end.

(** [shouldFail] and [failAtStep], drawn before the loop. *)
Definition draw_failAtStep (length : nat) : M Z :=
  r <- Math_random ;;
  let shouldFail := Qltb r failure_chance in
  if shouldFail
  then r' <- Math_random ;;
       ret (Qfloor (double_mul r' (inject_Z (Z.of_nat length))))
  else ret (-1).

Definition simulateDeployment (deployment : DeploymentWithSteps) (userId : Id)
    : M unit :=
  let d := deployment_row deployment in
  let steps := deployment_steps deployment in
  startTime <- Date_now ;;
  (* Update deployment status to running *)
  prisma_deployment_update (Deployment.id d)
    (Deployment.mkData (Some RUNNING) None None None) ;;
  emit (to_user_room userId)
    (deployment_status (Deployment.id d) RUNNING "Deployment started") ;;
  (* Simulate random failure chance (20%) *)
  failAtStep <- draw_failAtStep (List.length steps) ;;
  exit <- run_steps d userId startTime failAtStep 0 steps ;;
  match exit with
  | Returned => ret tt
  | Finished =>
      (* Mark deployment as completed *)
      now <- Date_now ;;
      let totalDuration := (now - startTime) / 1000 in
      completedAt <- Date_now ;;
      prisma_deployment_update (Deployment.id d)
        (Deployment.mkData (Some COMPLETED) (Some completedAt)
           (Some totalDuration) None) ;;
      emit (to_user_room userId)
        (deployment_complete (Deployment.id d) COMPLETED
           "Deployment completed successfully!" totalDuration
           (Some (serverInfo_of (Deployment.modpackName d))))
  end.

(** ** Socket handlers: [setupSocketHandlers] *)

(** [socket.on('start-deployment', async (data) => ...)], for the payload
    [{ deploymentId }] of the frontend, [deploymentId] being the
    identifier of a deployment; [on_start_deployment_data] below is the
    handler for any payload. *)
Definition on_start_deployment (socket : Socket.t) (deploymentId : Id) : M unit :=
  try_catch
    ((* Verify deployment belongs to user *)
     deployment <- prisma_deployment_findFirst deploymentId (Socket.userId socket) ;;
     match deployment with
     | None =>
         emit (to_socket (Socket.id socket))
              (deployment_error "Deployment not found")
     | Some deployment =>
         (* Start deployment simulation *)
         simulateDeployment deployment (Socket.userId socket)
     end)
    (fun _ =>
       emit (to_socket (Socket.id socket))
            (deployment_error "Failed to start deployment")).

(** The payload of [start-deployment] is what the client sent: the
    handler reads its [deploymentId] without a check.  The payloads, by
    what JavaScript and Prisma make of them: *)
Inductive DeploymentIdField :=
| id_undefined                (* no [deploymentId], or [undefined]: Prisma
                                 leaves the condition out *)
| id_string (id : Id)         (* a string *)
| id_filter (p : Id -> bool)  (* a string filter of Prisma, as [{ not: s }],
                                 [{ in: [...] }], [{ contains: s }] or [{}] *)
| id_invalid.                 (* [null], a number, a boolean, an array, an
                                 object that is no filter: Prisma rejects the
                                 query *)

Inductive StartData :=
| data_nullish                (* no payload, [undefined] or [null] *)
| data_with (deploymentId : DeploymentIdField).
                              (* an object; a number, a string or a boolean
                                 has no [deploymentId] *)

(** [const { deploymentId } = data] *)
Definition destructure_deploymentId (data : StartData) : M DeploymentIdField :=
  match data with
  | data_nullish => throw TypeError
  | data_with deploymentId => ret deploymentId
  end.

(** The condition [id: deploymentId] of a [where]. *)
Definition id_condition (deploymentId : DeploymentIdField)
    : option (Id -> bool) :=
  match deploymentId with
  | id_undefined => Some (fun _ => true)
  | id_string id => Some (fun x => Nat.eqb x id)
  | id_filter p => Some p
  | id_invalid => None
  end.

(** [prisma.deployment.findFirst({ where: { id: deploymentId, userId },
    include: steps })] for the [deploymentId] of a payload.  The query has
    no [orderBy]: when several rows match, the one returned here is the
    first in the order of insertion. *)
Definition prisma_deployment_findFirst_where (deploymentId : DeploymentIdField)
    (userId : Id) : M (option DeploymentWithSteps) :=
  match id_condition deploymentId with
  | None => throw ValidationError
  | Some p =>
      d <- get_db ;;
      ret (option_map (with_steps d)
             (find (fun r => p (Deployment.id r)
                             && Nat.eqb (Deployment.userId r) userId)
                   (deployments d)))
  end.

(** [socket.on('start-deployment', async (data) => ...)], for any
    payload.  [on_start_deployment] is this handler at the payload
    [{ deploymentId }] that the frontend sends. *)
Definition on_start_deployment_data (socket : Socket.t) (data : StartData)
    : M unit :=
  try_catch
    (deploymentId <- destructure_deploymentId data ;;
     (* Verify deployment belongs to user *)
     deployment <- prisma_deployment_findFirst_where deploymentId
                     (Socket.userId socket) ;;
     match deployment with
     | None =>
         emit (to_socket (Socket.id socket))
              (deployment_error "Deployment not found")
     | Some deployment =>
         (* Start deployment simulation *)
         simulateDeployment deployment (Socket.userId socket)
     end)
    (fun _ =>
       emit (to_socket (Socket.id socket))
            (deployment_error "Failed to start deployment")).

(** [socket.on('disconnect', ...)] only logs. *)
Definition on_disconnect (socket : Socket.t) : M unit := ret tt.

(** ** The deployments router *)

Definition is_slash (c : ascii) : bool := Ascii.eqb c "/".

(** The longest prefix without a slash: what [([^\/]+)] takes. *)
Fixpoint segment (s : string) : string :=
  match s with
  | EmptyString => EmptyString
  | String c s' => if is_slash c then EmptyString else String c (segment s')
  end.

Fixpoint after_segment (s : string) : string :=
  match s with
  | EmptyString => EmptyString
  | String c s' => if is_slash c then s else after_segment s'
  end.

Fixpoint drop (n : nat) (s : string) : string :=
  match n, s with
  | O, _ => s
  | S n', String _ s' => drop n' s'
  | S _, EmptyString => EmptyString
  end.

(** [url.match(/<marker>([^\/]+)/)]: group 1 of the leftmost match. *)
Fixpoint match_after (marker : string) (url : string) : option string :=
  let here :=
    if String.prefix marker url
    then let seg := segment (drop (String.length marker) url) in
         if String.eqb seg "" then None else Some seg
    else None in
  match here with
  | Some seg => Some seg
  | None => match url with
            | EmptyString => None
            | String _ url' => match_after marker url'
            end
  end.

(** [url.match(/\/([^\/]+)\/?$/)]: group 1 of the leftmost match. *)
Fixpoint match_last_segment (url : string) : option string :=
  match url with
  | EmptyString => None
  | String c url' =>
      let seg := segment url' in
      let tail := after_segment url' in
      if is_slash c && negb (String.eqb seg "")
         && (String.eqb tail "" || String.eqb tail "/")
      then Some seg
      else match_last_segment url'
  end.

(** [s.replace(<class>/g, ' ')] for a class of single characters. *)
Fixpoint replace_chars (in_class : ascii -> bool) (s : string) : string :=
  match s with
  | EmptyString => EmptyString
  | String c s' =>
      String (if in_class c then " "%char else c) (replace_chars in_class s')
  end.

Definition is_dash (c : ascii) : bool := Ascii.eqb c "-".
Definition is_dash_or_underscore (c : ascii) : bool :=
  Ascii.eqb c "-" || Ascii.eqb c "_".

Definition name_or_unknown (m : option string) (in_class : ascii -> bool)
    : string :=
  match m with
  | Some g => replace_chars in_class g
  | None => "Unknown Modpack"
  end.

Definition extractModpackName (url : string) : string :=
  if includes url "curseforge.com"
  then name_or_unknown (match_after "/projects/" url) is_dash
  else if includes url "modrinth.com"
  then name_or_unknown (match_after "/project/" url) is_dash
  else name_or_unknown (match_last_segment url) is_dash_or_underscore.

(** A JavaScript string used as a condition: absent or empty is false. *)
Definition truthy (s : option string) : option string :=
  match s with
  | Some v => if String.eqb v "" then None else Some v
  | None => None
  end.

Inductive Body :=
| body_error (error : string)
| body_message (message : string)
| body_deployment (deployment : option DeploymentWithSteps)
| body_deployments (deployments : list DeploymentWithSteps) (total : nat).

(** [res.status(code).json(body)] *)
Record Response := mkResponse { code : nat; body : Body }.

Definition internal_error : Response :=
  mkResponse 500 (body_error "Internal server error").

(** One [prisma.deploymentStep.create] per element of the plan, with
    [order: index].  [Promise.all] starts them in index order. *)
Fixpoint create_steps (deploymentId : Id) (plan : list (nat * DeploymentPlan.t))
    : M unit :=
  match plan with
  | [] => ret tt
  | (index, step) :: plan' =>
      prisma_deploymentStep_create deploymentId
        (DeploymentPlan.name step) (DeploymentPlan.description step)
        PENDING (Z.of_nat index) ;;
      create_steps deploymentId plan'
  end.

(** [router.post('/', authenticateToken, ...)]; [userId] is
    [req.user.userId].  The two fields of the body are absent or strings
    here.  (A truthy value that is no string makes [extractModpackName]
    or Prisma throw: the handler answers 500 and nothing is stored.) *)
Definition post_deployment (userId : Id) (modpackUrl modpackName : option string)
    : M Response :=
  try_catch
    (match truthy modpackUrl with
     | None => ret (mkResponse 400 (body_error "Modpack URL is required"))
     | Some modpackUrl =>
         (* Extract modpack name from URL or use provided name *)
         let extractedName :=
           match truthy modpackName with
           | Some n => n
           | None => extractModpackName modpackUrl
           end in
         (* Create deployment with initial steps *)
         deployment <- prisma_deployment_create userId extractedName modpackUrl
                                                PENDING ;;
         (* Create deployment plan steps *)
         let steps := createDeploymentPlan modpackUrl in
         create_steps (Deployment.id deployment) (indexed steps) ;;
         (* Return deployment with steps *)
         fullDeployment <- prisma_deployment_findUnique (Deployment.id deployment) ;;
         ret (mkResponse 201 (body_deployment fullDeployment))
     end)
    (fun _ => ret internal_error).

(** [router.get('/:id', authenticateToken, ...)] *)
Definition get_deployment (userId id : Id) : M Response :=
  try_catch
    (deployment <- prisma_deployment_findFirst id userId ;;
     match deployment with
     | None => ret (mkResponse 404 (body_error "Deployment not found"))
     | Some d => ret (mkResponse 200 (body_deployment (Some d)))
     end)
    (fun _ => ret internal_error).

(** *** Text of the database *)

(** The first byte of a character of several bytes, and the bytes that
    continue one. *)
Definition is_lead (c : ascii) : bool := (192 <=? nat_of_ascii c)%nat.

Definition is_continuation (c : ascii) : bool :=
  (128 <=? nat_of_ascii c)%nat && (nat_of_ascii c <? 192)%nat.

(** The continuation bytes at the head of a list of characters, and the
    characters after them. *)
Fixpoint continuation (chars : list string) : string * list string :=
  match chars with
  | String c EmptyString :: chars' =>
      if is_continuation c
      then let (bytes, rest) := continuation chars' in (String c bytes, rest)
      else (EmptyString, chars)
  | _ => (EmptyString, chars)
  end.

(** The characters of a text, as SQLite reads them: a first byte takes
    the continuation bytes that follow it. *)
Fixpoint utf8_chars (s : string) : list string :=
  match s with
  | EmptyString => []
  | String c s' =>
      if is_lead c
      then let (bytes, rest) := continuation (utf8_chars s') in
           String c bytes :: rest
      else String c EmptyString :: utf8_chars s'
  end.

(** [LIKE] of SQLite on characters: [%] stands for any characters, [_]
    for one character, and the ASCII letters match in either case.  There
    is no escape character. *)
Fixpoint like_chars (pattern : list string) : list string -> bool :=
  match pattern with
  | [] => fun text => match text with [] => true | _ :: _ => false end
  | p :: pattern' =>
      if String.eqb p "%" then
        fix any (text : list string) : bool :=
          like_chars pattern' text
          || match text with
             | [] => false
             | _ :: text' => any text'
             end
      else if String.eqb p "_" then
        fun text => match text with
                    | [] => false
                    | _ :: text' => like_chars pattern' text'
                    end
      else
        fun text => match text with
                    | [] => false
                    | c :: text' =>
                        String.eqb (toLowerCase p) (toLowerCase c)
                        && like_chars pattern' text'
                    end
  end.

Definition like (text pattern : string) : bool :=
  like_chars (utf8_chars pattern) (utf8_chars text).

(** The [contains] filter of Prisma on SQLite: [field LIKE '%search%'],
    with the wild cards of [search] at work. *)
Definition contains (field search : string) : bool :=
  like field ("%" ++ search ++ "%").



(** The query string of [GET /]: [status] and [search] absent or single
    strings, [limit] and [offset] absent or natural numbers.  (Another
    value, as [limit=abc] or a parameter given twice, makes Prisma throw:
    the handler answers 500.) *)
Record ListQuery := mkListQuery {
  q_status : option string;
  q_search : option string;
  q_limit : option nat;
  q_offset : option nat
}.

Definition whereClause (userId : Id) (q : ListQuery) (r : Deployment.t) : bool :=
  Nat.eqb (Deployment.userId r) userId
  && match truthy (q_status q) with
     | Some s => if String.eqb s "all" then true
                 else String.eqb (status_text (Deployment.status r)) s
     | None => true
     end
  && match truthy (q_search q) with
     | Some s => contains (Deployment.modpackName r) s
     | None => true
     end.

(** [router.get('/', authenticateToken, ...)] *)
Definition get_deployments (userId : Id) (q : ListQuery) : M Response :=
  try_catch
    (d <- get_db ;;
     let limit := match q_limit q with Some n => n | None => 20%nat end in
     let offset := match q_offset q with Some n => n | None => 0%nat end in
     let matching := filter (whereClause userId q) (deployments d) in
     let page := firstn limit (skipn offset (sort_by startedAt_desc matching)) in
     ret (mkResponse 200
            (body_deployments (map (with_steps d) page) (List.length matching))))
    (fun _ => ret internal_error).

(** [router.delete('/:id', authenticateToken, ...)] *)
Definition delete_deployment (userId id : Id) : M Response :=
  try_catch
    (deployment <- prisma_deployment_findFirst id userId ;;
     match deployment with
     | None => ret (mkResponse 404 (body_error "Deployment not found"))
     | Some _ =>
         prisma_deployment_delete id ;;
         ret (mkResponse 200 (body_message "Deployment deleted successfully"))
     end)
    (fun _ => ret internal_error).

(** ** The interface as one transition system *)

(** The signals that the deployments router and the socket handlers
    accept. *)
Inductive Signal :=
| GET_deployments (userId : Id) (q : ListQuery)
| GET_deployment (userId id : Id)
| POST_deployment (userId : Id) (modpackUrl modpackName : option string)
| DELETE_deployment (userId id : Id)
| start_deployment (socket : Socket.t) (deploymentId : Id)
| disconnect (socket : Socket.t)
| start_deployment_data (socket : Socket.t) (data : StartData).

Definition handle (s : Signal) (w : World) : World :=
  match s with
  | GET_deployments u q => snd (get_deployments u q w)
  | GET_deployment u id => snd (get_deployment u id w)
  | POST_deployment u url name => snd (post_deployment u url name w)
  | DELETE_deployment u id => snd (delete_deployment u id w)
  | start_deployment sock id => snd (on_start_deployment sock id w)
  | disconnect sock => snd (on_disconnect sock w)
  | start_deployment_data sock data => snd (on_start_deployment_data sock data w)
  end.

(** ** Observations on stores and traces *)

Definition deployment_status_of (d : DB) (id : Id) : option Status :=
  option_map Deployment.status (find_deployment d id).

Definition step_status_of (d : DB) (id : Id) : option Status :=
  option_map DeploymentStep.status (find_step d id).

(** The step-update events of a trace: step and status announced. *)
Fixpoint step_marks (t : list Emission) : list (Id * Status) :=
  match t with
  | [] => []
  | (_, step_update _ stepId status _ _) :: t' => (stepId, status) :: step_marks t'
  | _ :: t' => step_marks t'
  end.

Definition is_deployment_complete (e : Emission) : bool :=
  match e with
  | (_, deployment_complete _ _ _ _ _) => true
  | _ => false
  end.

(** Progress events are the notifications of a transition. *)
Definition is_progress (e : Emission) : bool :=
  match e with
  | (_, deployment_error _) => false
  | _ => true
  end.

(** The trace of a run that handles steps [i], [i+1], ... of [rest] and
    fails at [failAtStep], as step marks. *)
Fixpoint expected_marks (failAtStep : Z) (i : nat) (rest : list DeploymentStep.t)
    : list (Id * Status) :=
  match rest with
  | [] => []
  | step :: rest' =>
      (DeploymentStep.id step, RUNNING)
      :: (if Z.of_nat i =? failAtStep
          then [(DeploymentStep.id step, FAILED)]
          else (DeploymentStep.id step, COMPLETED)
               :: expected_marks failAtStep (S i) rest')
  end.

(** The order index that the store gives to the step of a mark. *)
Definition order_of (d : DB) (mark : Id * Status) : Z :=
  match find_step d (fst mark) with
  | Some s => DeploymentStep.order s
  | None => -1
  end.

(** What [w'] has emitted since [w]. *)
Definition new_emissions (w w' : World) : list Emission :=
  skipn (List.length (emitted w)) (emitted w').

(** The signals of a list, handled one after the other. *)
Definition handle_all (l : list Signal) (w : World) : World :=
  fold_left (fun w s => handle s w) l w.

(** [failAtStep], as the two draws at the cursor of [w] decide it for a
    plan of [n] steps. *)
Definition decided_failAtStep (w : World) (n : nat) : Z :=
  if Qltb (random w (random_pos w)) failure_chance
  then Qfloor (double_mul (random w (S (random_pos w)))
                          (inject_Z (Z.of_nat n)))
  else -1.

Definition is_failed_mark (m : Id * Status) : bool := Status_eqb (snd m) FAILED.

(** The step marks of one run over the steps [ss]: every step announced
    [RUNNING] and then, before anything else, [COMPLETED] or [FAILED];
    nothing after a [FAILED]. *)
Inductive run_trace : list DeploymentStep.t -> list (Id * Status) -> Prop :=
| run_trace_end : run_trace [] []
| run_trace_failed s ss :
    run_trace (s :: ss)
              [(DeploymentStep.id s, RUNNING); (DeploymentStep.id s, FAILED)]
| run_trace_completed s ss t :
    run_trace ss t ->
    run_trace (s :: ss)
              ((DeploymentStep.id s, RUNNING)
               :: (DeploymentStep.id s, COMPLETED) :: t).

(** A postcondition on every run of [c]: initial world, result, final
    world. *)
Definition post {A} (c : M A) (P : World -> Res A -> World -> Prop) : Prop :=
  forall w, P w (fst (c w)) (snd (c w)).

(** The store of [w'] has no deployment that became [CANCELLED] since
    [w]. *)
Definition no_new_cancelled (d d' : DB) : Prop :=
  forall id, deployment_status_of d' id = Some CANCELLED ->
             deployment_status_of d id = Some CANCELLED.

(** The world after the iteration of the loop for step [s] at index [i],
    when the step completes. *)
Definition after_completed (d : Deployment.t) (u : Id) (i : nat)
    (s : DeploymentStep.t) (w : World) : World :=
  let startedAt := clock w (clock_pos w) in
  let completedAt := clock w (S (clock_pos w)) in
  let actualDuration :=
    double_add
      (inject_Z (estimatedDuration_at
                   (createDeploymentPlan (Deployment.modpackUrl d)) i))
      (double_mul (random w (random_pos w)) (inject_Z 5)) in
  mkWorld
    (mkDB (deployments (db w))
       (update_rows DeploymentStep.id (DeploymentStep.id s)
          (DeploymentStep.apply
             (DeploymentStep.mkData (Some COMPLETED) None (Some completedAt)
                (Some (success_logs (DeploymentStep.name s) actualDuration))))
          (update_rows DeploymentStep.id (DeploymentStep.id s)
             (DeploymentStep.apply
                (DeploymentStep.mkData (Some RUNNING) (Some startedAt) None None))
             (steps (db w))))
       (next_id (db w)))
    ((emitted w
      ++ [(to_user_room u,
           step_update (Deployment.id d) (DeploymentStep.id s) RUNNING
             ("Started: " ++ DeploymentStep.name s)%string None)])
     ++ [(to_user_room u,
          step_update (Deployment.id d) (DeploymentStep.id s) COMPLETED
            ("Completed: " ++ DeploymentStep.name s)%string None)])%list
    (random w) (S (random_pos w))
    (clock w) (S (S (clock_pos w))).

(** The [data] of the update that marks the deployment failed at step
    [s], built from the readings [c] and [c+1] of the clock. *)
Definition failed_data (st : Z) (s : DeploymentStep.t) (w : World) (c : nat)
    : Deployment.data :=
  Deployment.mkData (Some FAILED) (Some (clock w c))
    (Some ((clock w (S c) - st) / 1000))
    (Some ("Deployment failed at step: " ++ DeploymentStep.name s)%string).

(** The world after the iteration for step [s] when the step fails. *)
Definition after_failed (d : Deployment.t) (u : Id) (st : Z)
    (s : DeploymentStep.t) (w : World) : World :=
  let c := clock_pos w in
  mkWorld
    (mkDB
       (update_rows Deployment.id (Deployment.id d)
          (Deployment.apply (failed_data st s w (S (S c))))
          (deployments (db w)))
       (update_rows DeploymentStep.id (DeploymentStep.id s)
          (DeploymentStep.apply
             (DeploymentStep.mkData (Some FAILED) None (Some (clock w (S c)))
                (Some failure_logs)))
          (update_rows DeploymentStep.id (DeploymentStep.id s)
             (DeploymentStep.apply
                (DeploymentStep.mkData (Some RUNNING) (Some (clock w c)) None None))
             (steps (db w))))
       (next_id (db w)))
    (((emitted w
       ++ [(to_user_room u,
            step_update (Deployment.id d) (DeploymentStep.id s) RUNNING
              ("Started: " ++ DeploymentStep.name s)%string None)])
      ++ [(to_user_room u,
           step_update (Deployment.id d) (DeploymentStep.id s) FAILED
             ("Failed: " ++ DeploymentStep.name s)%string
             (Some "Connection timeout - please try again"))])
     ++ [(to_user_room u,
          deployment_complete (Deployment.id d) FAILED "Deployment failed"
            ((clock w (S (S (S (S c)))) - st) / 1000) None)])%list
    (random w) (S (random_pos w))
    (clock w) (S (S (S (S (S c))))).

(** Is [failAtStep] one of the indices [i], ..., [i + n - 1]? *)
Definition fails_within (failAtStep : Z) (i n : nat) : bool :=
  (Z.of_nat i <=? failAtStep) && (failAtStep <? Z.of_nat (i + n)).

Definition count_complete (t : list Emission) : nat :=
  List.length (filter is_deployment_complete t).

(** What one execution of the loop from index [i] over [rest] does,
    between the worlds [w] and [w']. *)
Definition loop_post (d : Deployment.t) (u : Id) (st fa : Z) (i : nat)
    (rest : list DeploymentStep.t) (w : World) (exit : LoopExit) (w' : World)
    : Prop :=
  exit = (if fails_within fa i (List.length rest) then Returned else Finished)
  /\ (random w' = random w /\ clock w' = clock w
      /\ next_id (db w') = next_id (db w)
      /\ (clock_pos w <= clock_pos w')%nat)
  /\ (map Deployment.id (deployments (db w'))
        = map Deployment.id (deployments (db w))
      /\ map DeploymentStep.id (steps (db w'))
         = map DeploymentStep.id (steps (db w)))
  /\ (exists new,
        emitted w' = (emitted w ++ new)%list
        /\ step_marks new = expected_marks fa i rest
        /\ count_complete new
           = (if fails_within fa i (List.length rest) then 1%nat else 0%nat)
        /\ Forall (fun e => fst e = to_user_room u /\ is_progress e = true) new)
  /\ (forall sid, ~ In sid (map DeploymentStep.id rest) ->
        find_step (db w') sid = find_step (db w) sid)
  /\ (forall j s, nth_error rest j = Some s ->
        fa < Z.of_nat i \/ Z.of_nat (i + j) < fa ->
        step_status_of (db w') (DeploymentStep.id s) = Some COMPLETED)
  /\ (forall j s, nth_error rest j = Some s ->
        Z.of_nat (i + j) = fa ->
        exists s', find_step (db w') (DeploymentStep.id s) = Some s'
                   /\ DeploymentStep.status s' = FAILED
                   /\ DeploymentStep.logs s' = Some failure_logs)
  /\ (forall j s, nth_error rest j = Some s ->
        Z.of_nat i <= fa < Z.of_nat (i + j) ->
        find_step (db w') (DeploymentStep.id s)
        = find_step (db w) (DeploymentStep.id s))
  /\ (fails_within fa i (List.length rest) = false ->
        deployments (db w') = deployments (db w))
  /\ (forall j s, nth_error rest j = Some s ->
        Z.of_nat (i + j) = fa ->
        deployments (db w')
        = update_rows Deployment.id (Deployment.id d)
            (Deployment.apply (failed_data st s w (clock_pos w' - 3)))
            (deployments (db w))
        /\ (clock_pos w + 5 <= clock_pos w')%nat)
  /\ (forall s, nth_error rest 0 = Some s ->
        exists s', find_step (db w') (DeploymentStep.id s) = Some s'
                   /\ DeploymentStep.startedAt s'
                      = Some (clock w (clock_pos w))).

(** The rows that a run over [rest] updates are in the store. *)
Definition known (d : Deployment.t) (rest : list DeploymentStep.t) (w : World)
    : Prop :=
  has_key Deployment.id (Deployment.id d) (deployments (db w)) = true
  /\ (forall s, In s rest ->
        has_key DeploymentStep.id (DeploymentStep.id s) (steps (db w)) = true).

(** The world when the loop starts: the deployment is [RUNNING], this is
    announced, and the failure is drawn. *)
Definition after_start (d : Deployment.t) (u : Id) (w : World) : World :=
  mkWorld
    (mkDB (update_rows Deployment.id (Deployment.id d)
             (Deployment.apply (Deployment.mkData (Some RUNNING) None None None))
             (deployments (db w)))
          (steps (db w)) (next_id (db w)))
    (emitted w
     ++ [(to_user_room u,
          deployment_status (Deployment.id d) RUNNING "Deployment started")])%list
    (random w)
    (if Qltb (random w (random_pos w)) failure_chance
     then S (S (random_pos w)) else S (random_pos w))
    (clock w) (S (clock_pos w)).

(** The rest of [simulateDeployment] when the loop starts: [startTime] is
    read, the deployment is stored and announced as [RUNNING], and
    [failAtStep] is drawn. *)
Definition run_from_loop (deployment : DeploymentWithSteps) (userId : Id)
    (startTime failAtStep : Z) : M unit :=
  let d := deployment_row deployment in
  exit <- run_steps d userId startTime failAtStep 0
            (deployment_steps deployment) ;;
  match exit with
  | Returned => ret tt
  | Finished =>
      now <- Date_now ;;
      completedAt <- Date_now ;;
      prisma_deployment_update (Deployment.id d)
        (Deployment.mkData (Some COMPLETED) (Some completedAt)
           (Some ((now - startTime) / 1000)) None) ;;
      emit (to_user_room userId)
        (deployment_complete (Deployment.id d) COMPLETED
           "Deployment completed successfully!" ((now - startTime) / 1000)
           (Some (serverInfo_of (Deployment.modpackName d))))
  end.

(** What [simulateDeployment] does between the worlds [w] and [w']. *)
Definition run_post (dw : DeploymentWithSteps) (u : Id) (w w' : World) : Prop :=
  let d := deployment_row dw in
  let ss := deployment_steps dw in
  let n := List.length ss in
  let fa := decided_failAtStep w n in
  let st := clock w (clock_pos w) in
  (random w' = random w /\ clock w' = clock w
   /\ next_id (db w') = next_id (db w)
   /\ (clock_pos w + 3 <= clock_pos w')%nat)
  /\ (map Deployment.id (deployments (db w'))
        = map Deployment.id (deployments (db w))
      /\ map DeploymentStep.id (steps (db w'))
         = map DeploymentStep.id (steps (db w)))
  /\ (exists new,
        emitted w'
        = (emitted w
           ++ (to_user_room u,
               deployment_status (Deployment.id d) RUNNING "Deployment started")
              :: new)%list
        /\ step_marks new = expected_marks fa 0 ss
        /\ count_complete new = 1%nat
        /\ Forall (fun e => fst e = to_user_room u /\ is_progress e = true) new)
  /\ (forall sid, ~ In sid (map DeploymentStep.id ss) ->
        find_step (db w') sid = find_step (db w) sid)
  /\ (forall j s, nth_error ss j = Some s ->
        fa < 0 \/ Z.of_nat j < fa ->
        step_status_of (db w') (DeploymentStep.id s) = Some COMPLETED)
  /\ (forall j s, nth_error ss j = Some s ->
        Z.of_nat j = fa ->
        exists s', find_step (db w') (DeploymentStep.id s) = Some s'
                   /\ DeploymentStep.status s' = FAILED
                   /\ DeploymentStep.logs s' = Some failure_logs)
  /\ (forall j s, nth_error ss j = Some s ->
        0 <= fa < Z.of_nat j ->
        find_step (db w') (DeploymentStep.id s)
        = find_step (db w) (DeploymentStep.id s))
  /\ (forall id, id <> Deployment.id d ->
        find_deployment (db w') id = find_deployment (db w) id)
  /\ (exists d',
        find_deployment (db w') (Deployment.id d) = Some d'
        /\ Deployment.duration d'
           = Some ((clock w (clock_pos w' - 2) - st) / 1000)
        /\ (fails_within fa 0 n = false ->
              Deployment.status d' = COMPLETED
              /\ Deployment.completedAt d' = Some (clock w (clock_pos w' - 1)))
        /\ (forall j s, nth_error ss j = Some s ->
              Z.of_nat j = fa ->
              Deployment.status d' = FAILED
              /\ Deployment.errorMsg d'
                 = Some ("Deployment failed at step: "
                         ++ DeploymentStep.name s)%string
              /\ Deployment.completedAt d'
                 = Some (clock w (clock_pos w' - 3))))
  /\ (forall s, nth_error ss 0 = Some s ->
        exists s', find_step (db w') (DeploymentStep.id s) = Some s'
                   /\ DeploymentStep.startedAt s'
                      = Some (clock w (S (clock_pos w)))).

Fixpoint nodupb (l : list Id) : bool :=
  match l with
  | [] => true
  | x :: l' => negb (existsb (Nat.eqb x) l') && nodupb l'
  end.

(** [wf_db], as a test. *)
Definition wf_dbb (d : DB) : bool :=
  nodupb (map Deployment.id (deployments d))
  && nodupb (map DeploymentStep.id (steps d))
  && forallb (fun r => Nat.ltb (Deployment.id r) (next_id d)) (deployments d)
  && forallb (fun s => Nat.ltb (DeploymentStep.id s) (next_id d)) (steps d)
  && forallb (fun s => has_key Deployment.id (DeploymentStep.deploymentId s)
                               (deployments d))
             (steps d).

(** A computation that keeps the relation [R] between the store before
    and the store after, however it ends. *)
Definition keeps (R : DB -> DB -> Prop) {A} (c : M A) : Prop :=
  post c (fun w _ w' => R (db w) (db w')).

(** Well-formedness carries over from [d] to [d']. *)
Definition wf_step (d d' : DB) : Prop := wf_db d -> wf_db d'.

(** The rows that [create_steps] stores for [plan]: identifiers from [n]
    on, order indices from [i] on. *)
Fixpoint new_steps (deploymentId n : Id) (i : nat) (plan : list DeploymentPlan.t)
    : list DeploymentStep.t :=
  match plan with
  | [] => []
  | p :: plan' =>
      DeploymentStep.mk n deploymentId (DeploymentPlan.name p)
        (DeploymentPlan.description p) PENDING None None None (Z.of_nat i)
      :: new_steps deploymentId (S n) (S i) plan'
  end.

(** The row that [POST /] stores for the deployment. *)
Definition new_deployment (w : World) (userId : Id) (modpackUrl : string)
    (modpackName : option string) : Deployment.t :=
  Deployment.mk (next_id (db w)) userId
    (match truthy modpackName with
     | Some n => n
     | None => extractModpackName modpackUrl
     end)
    modpackUrl PENDING (clock w (clock_pos w)) None None None None.

(** The world after a [POST /] that creates a deployment. *)
Definition after_post (w : World) (userId : Id) (modpackUrl : string)
    (modpackName : option string) : World :=
  let plan := createDeploymentPlan modpackUrl in
  mkWorld
    (mkDB (deployments (db w) ++ [new_deployment w userId modpackUrl modpackName])
          (steps (db w)
           ++ new_steps (next_id (db w)) (S (next_id (db w))) 0 plan)
          (S (next_id (db w)) + List.length plan)%nat)
    (emitted w) (random w) (random_pos w) (clock w) (S (clock_pos w)).


(** ** Concrete worlds *)

(** An oracle that reads a list, and [default] after its end. *)
Definition oracle {A} (l : list A) (default : A) (n : nat) : A := nth n l default.

(** A process that starts on an empty store. *)
Definition fresh_world (random : nat -> Q) (clock : nat -> Z) : World :=
  mkWorld empty_db [] random 0 clock 0.

Definition small_zip : string := "https://example.com/packs/small.zip".

(** User 7 has created a deployment for [small_zip]; it is deployment 0,
    with the steps 1 to 7. *)
Definition created_world (random : nat -> Q) (clock : nat -> Z) : World :=
  handle (POST_deployment 7 (Some small_zip) None) (fresh_world random clock).

Definition session_of_7 : Socket.t := Socket.mk 100 7.
Definition session_of_8 : Socket.t := Socket.mk 101 8.

(** The first run draws 0.125, below the chance of failure, and then
    0.4375, which selects index 3 of 7. *)
Definition failing_draws : nat -> Q :=
  oracle [1 # 8; 7 # 16]%Q (1 # 2)%Q.

(** The first run draws 0.5 and does not fail; the second draws 0.125 and
    0.3125 and fails at index 2. *)
Definition succeeding_then_failing_draws : nat -> Q :=
  oracle [1 # 2; 1 # 2; 1 # 2; 1 # 2; 1 # 2; 1 # 2; 1 # 2; 1 # 2;
          1 # 8; 5 # 16]%Q (1 # 2)%Q.

Definition seconds_clock (n : nat) : Z := Z.of_nat n * 1000.

(** Readings of a clock, in ms: the creation at 0, the start signal at
    2000, the first step started at 2004, every step taking a little more
    than its simulated duration (estimate plus 2.5 s), the end at
    101001. *)
Definition run_clock : nat -> Z :=
  oracle [0; 2000; 2004; 7570; 7573; 30140; 30143; 42710; 42713; 60280;
          60283; 70850; 70853; 78420; 78423; 100990; 101001; 101001] 101001.

Definition world_to_fail : World := created_world failing_draws seconds_clock.

Definition world_to_succeed : World :=
  created_world succeeding_then_failing_draws run_clock.

(** Deployment 0 after its first run, which completed. *)
Definition completed_world : World :=
  handle (start_deployment session_of_7 0) world_to_succeed.

(** Deployment 0 in the middle of a run: marked [RUNNING] and announced,
    no step started yet. *)
Definition running_world : World :=
  match find_deployment (db world_to_succeed) 0 with
  | Some r => after_start r 7 world_to_succeed
  | None => world_to_succeed
  end.

(** The whole seconds between the start of the first step of a
    deployment and its completion, as the store has them. *)
Definition span_from_first_step (d : DB) (id : Id) : option Z :=
  match find_deployment d id, steps_of d id with
  | Some r, s :: _ =>
      match Deployment.completedAt r, DeploymentStep.startedAt s with
      | Some finish, Some start => Some ((finish - start) / 1000)
      | _, _ => None
      end
  | _, _ => None
  end.

Definition duration_of (d : DB) (id : Id) : option Z :=
  match find_deployment d id with
  | Some r => Deployment.duration r
  | None => None
  end.

Definition is_deployment_error (e : Emission) : bool := negb (is_progress e).

(** Is the emission addressed to the room of a user? *)
Definition is_broadcast (e : Emission) : bool :=
  match fst e with
  | to_user_room _ => true
  | to_socket _ => false
  end.

(** ** Readings of responses *)

(** The deployments that the answer of [GET /] lists. *)
Definition listed (r : Res Response) : list DeploymentWithSteps :=
  match r with
  | Ok (mkResponse _ (body_deployments l _)) => l
  | _ => []
  end.

(** The [total] of the answer of [GET /]. *)
Definition listed_total (r : Res Response) : option nat :=
  match r with
  | Ok (mkResponse _ (body_deployments _ total)) => Some total
  | _ => None
  end.

(** The status code of an answer; an exception that escapes has none. *)
Definition code_of (r : Res Response) : option nat :=
  match r with
  | Ok res => Some (code res)
  | Throw _ => None
  end.

(** Does the string contain the character? *)
Fixpoint has_char (c : ascii) (s : string) : bool :=
  match s with
  | EmptyString => false
  | String c' s' => Ascii.eqb c' c || has_char c s'
  end.

(** ** Rooms *)

(** [socket.join(`user:${socket.userId}`)]: a socket receives what is
    emitted to itself and to the room of its user. *)
Definition receives (socket : Socket.t) (e : Emission) : bool :=
  match fst e with
  | to_user_room userId => Nat.eqb (Socket.userId socket) userId
  | to_socket socketId => Nat.eqb (Socket.id socket) socketId
  end.

(** ** The emissions of a run *)

(** The step-update events of the loop from index [i] over [rest]. *)
Fixpoint loop_emissions (d : Deployment.t) (u : Id) (failAtStep : Z) (i : nat)
    (rest : list DeploymentStep.t) : list Emission :=
  match rest with
  | [] => []
  | s :: rest' =>
      (to_user_room u,
       step_update (Deployment.id d) (DeploymentStep.id s) RUNNING
         ("Started: " ++ DeploymentStep.name s)%string None)
      :: (if Z.of_nat i =? failAtStep
          then [(to_user_room u,
                 step_update (Deployment.id d) (DeploymentStep.id s) FAILED
                   ("Failed: " ++ DeploymentStep.name s)%string
                   (Some "Connection timeout - please try again"))]
          else (to_user_room u,
                step_update (Deployment.id d) (DeploymentStep.id s) COMPLETED
                  ("Completed: " ++ DeploymentStep.name s)%string None)
               :: loop_emissions d u failAtStep (S i) rest')
  end.

(** The deployment-complete event of a failed run, with its duration. *)
Definition failed_event (d : Deployment.t) (u : Id) (duration : Z) : Emission :=
  (to_user_room u,
   deployment_complete (Deployment.id d) FAILED "Deployment failed" duration None).

(** The deployment-complete event of a completed run. *)
Definition completed_event (d : Deployment.t) (u : Id) (duration : Z)
    : Emission :=
  (to_user_room u,
   deployment_complete (Deployment.id d) COMPLETED
     "Deployment completed successfully!" duration
     (Some (serverInfo_of (Deployment.modpackName d)))).

(** What a run of [dw] for the user [u] emits from the world [w].  The
    clock is read once at the start and twice for every step that
    completes; a failed run computes its duration a second time for the
    event. *)
Definition run_emissions (dw : DeploymentWithSteps) (u : Id) (w : World)
    : list Emission :=
  let d := deployment_row dw in
  let ss := deployment_steps dw in
  let n := List.length ss in
  let fa := decided_failAtStep w n in
  let p := clock_pos w in
  let st := clock w p in
  ((to_user_room u, deployment_status (Deployment.id d) RUNNING "Deployment started")
   :: loop_emissions d u fa 0 ss
   ++ [if fails_within fa 0 n
       then failed_event d u ((clock w (p + 2 * Z.to_nat fa + 5) - st) / 1000)
       else completed_event d u ((clock w (p + 2 * n + 1) - st) / 1000)])%list.

(** The number of readings of the clock in the loop from index [i] over
    [n] steps. *)
Definition loop_readings (fa : Z) (i n : nat) : nat :=
  if fails_within fa i n then 2 * (Z.to_nat fa - i) + 5 else 2 * n.

(** ** Columns that no update writes *)

(** A step as [POST /] stored it: the columns that a run writes are set
    back to their first values. *)
Definition as_created (s : DeploymentStep.t) : DeploymentStep.t :=
  DeploymentStep.mk (DeploymentStep.id s) (DeploymentStep.deploymentId s)
    (DeploymentStep.name s) (DeploymentStep.description s) PENDING None None
    None (DeploymentStep.order s).

(** A deployment as [POST /] stored it. *)
Definition as_posted (r : Deployment.t) : Deployment.t :=
  Deployment.mk (Deployment.id r) (Deployment.userId r)
    (Deployment.modpackName r) (Deployment.modpackUrl r) PENDING
    (Deployment.startedAt r) None None (Deployment.logs r) None.

(** The rows of [d'] are those of [d], in the same places, up to the
    columns that a run writes. *)
Definition same_shape (d d' : DB) : Prop :=
  map as_posted (deployments d') = map as_posted (deployments d)
  /\ map as_created (steps d') = map as_created (steps d)
  /\ next_id d' = next_id d.

(** The steps of [d'] are those of [d], up to the columns that a run
    writes, followed by steps of deployments that [d] does not have. *)
Definition extends (d d' : DB) : Prop :=
  (next_id d <= next_id d')%nat
  /\ exists new,
       map as_created (steps d') = (map as_created (steps d) ++ new)%list
       /\ Forall (fun s => (next_id d <= DeploymentStep.deploymentId s)%nat) new.

(** Every deployment of the store has a step. *)
Definition all_have_steps (d : DB) : Prop :=
  forall r, In r (deployments d) ->
            has_key DeploymentStep.deploymentId (Deployment.id r) (steps d) = true.

(** The deployments of [d] are in [d'], up to the columns that a run
    writes. *)
Definition persist (d d' : DB) : Prop :=
  forall id r, find_deployment d id = Some r ->
               exists r', find_deployment d' id = Some r'
                          /\ as_posted r' = as_posted r.

(** * The client *)

(** ** The deployment store (frontend/src/stores/deployment-store.ts) *)

Module DeploymentStore.

(** A deployment as the client holds it: the object that the server sent,
    with [steps] when the answer included them. *)
Record Deployment := mkDeployment {
  row : Deployment.t;
  steps : option (list DeploymentStep.t)
}.

Record t := mk {
  deployments : list Deployment;
  currentDeployment : option Deployment;
  isDeploying : bool
}.

Definition initial : t := mk [] None false.

(** The object of an answer that includes the steps. *)
Definition of_answer (d : DeploymentWithSteps) : Deployment :=
  mkDeployment (deployment_row d) (Some (deployment_steps d)).

Definition setDeployments (deployments : list Deployment) (state : t) : t :=
  mk deployments (currentDeployment state) (isDeploying state).

Definition addDeployment (deployment : Deployment) (state : t) : t :=
  mk (deployment :: deployments state) (currentDeployment state)
     (isDeploying state).

(** [{ ...d, ...updates }] *)
Definition spread (updates : Deployment.data) (d : Deployment) : Deployment :=
  mkDeployment (Deployment.apply updates (row d)) (steps d).

Definition updateDeployment (id : Id) (updates : Deployment.data) (state : t)
    : t :=
  mk (map (fun d => if Nat.eqb (Deployment.id (row d)) id
                    then spread updates d else d)
          (deployments state))
     (match currentDeployment state with
      | Some c => if Nat.eqb (Deployment.id (row c)) id
                  then Some (spread updates c) else Some c
      | None => None
      end)
     (isDeploying state).

(** [{ ...d, steps: d.steps?.map((s) => s.id === stepId ? { ...s,
    ...updates } : s) }] *)
Definition spread_step (stepId : Id) (updates : DeploymentStep.data)
    (d : Deployment) : Deployment :=
  mkDeployment (row d)
    (option_map
       (map (fun s => if Nat.eqb (DeploymentStep.id s) stepId
                      then DeploymentStep.apply updates s else s))
       (steps d)).

Definition updateStep (deploymentId stepId : Id) (updates : DeploymentStep.data)
    (state : t) : t :=
  mk (map (fun d => if Nat.eqb (Deployment.id (row d)) deploymentId
                    then spread_step stepId updates d else d)
          (deployments state))
     (match currentDeployment state with
      | Some c => if Nat.eqb (Deployment.id (row c)) deploymentId
                  then Some (spread_step stepId updates c) else Some c
      | None => None
      end)
     (isDeploying state).

Definition setCurrentDeployment (deployment : option Deployment) (state : t)
    : t :=
  mk (deployments state) deployment (isDeploying state).

Definition setIsDeploying (isDeploying : bool) (state : t) : t :=
  mk (deployments state) (currentDeployment state) isDeploying.

End DeploymentStore.

(** ** The socket context (frontend/src/contexts/socket-context.tsx) *)

Inductive Toast :=
| toast_success (title description : string)
| toast_error (title description : string).

Module SocketContext.

(** The deployment store, the toasts shown (oldest first) and the clock of
    the browser. *)
Record t := mk {
  store : DeploymentStore.t;
  toasts : list Toast;
  now : nat -> Z;
  now_pos : nat
}.

Definition with_store (c : t) (s : DeploymentStore.t) : t :=
  mk s (toasts c) (now c) (now_pos c).

(** [newSocket.on('deployment-status', ...)] *)
Definition on_deployment_status (deploymentId : Id) (status : Status) (c : t)
    : t :=
  let s := DeploymentStore.updateDeployment deploymentId
             (Deployment.mkData (Some status) None None None) (store c) in
  with_store c (if Status_eqb status RUNNING
                then DeploymentStore.setIsDeploying true s else s).

(** [newSocket.on('step-update', ...)] *)
Definition on_step_update (deploymentId stepId : Id) (status : Status) (c : t)
    : t :=
  with_store c
    (DeploymentStore.updateStep deploymentId stepId
       (DeploymentStep.mkData (Some status) None None None) (store c)).

(** [newSocket.on('deployment-complete', ...)] *)
Definition on_deployment_complete (deploymentId : Id) (status : Status)
    (message : string) (duration : Z) (serverInfo : option ServerInfo) (c : t)
    : t :=
  let s := DeploymentStore.updateDeployment deploymentId
             (Deployment.mkData (Some status) (Some (now c (now_pos c)))
                (Some duration) None)
             (store c) in
  mk (DeploymentStore.setIsDeploying false s)
     (toasts c
      ++ [if Status_eqb status COMPLETED
          then toast_success "Deployment completed successfully!"
                 (match serverInfo with
                  | Some info =>
                      "Server available at " ++ ip info ++ ":"
                      ++ string_of_Z (port info)
                  | None => "Your Minecraft server is ready!"
                  end)
          else toast_error "Deployment failed"
                 (match truthy (Some message) with
                  | Some m => m
                  | None => "Please check the logs for more details"
                  end)])%list
     (now c) (S (now_pos c)).

(** [newSocket.on('deployment-error', ...)] *)
Definition on_deployment_error (error : string) (c : t) : t :=
  mk (DeploymentStore.setIsDeploying false (store c))
     (toasts c ++ [toast_error "Deployment Error" error])%list
     (now c) (now_pos c).

(** The handler of an event that arrives. *)
Definition receive (c : t) (e : Event) : t :=
  match e with
  | deployment_status deploymentId status _ =>
      on_deployment_status deploymentId status c
  | step_update deploymentId stepId status _ _ =>
      on_step_update deploymentId stepId status c
  | deployment_complete deploymentId status message duration serverInfo =>
      on_deployment_complete deploymentId status message duration serverInfo c
  | deployment_error error => on_deployment_error error c
  end.

(** The events that reach the socket, handled in the order of their
    emission. *)
Definition receive_all (socket : Socket.t) (l : list Emission) (c : t) : t :=
  fold_left receive (map snd (filter (receives socket) l)) c.

End SocketContext.

(** ** The progress bar ([DeploymentProgress]) *)

(** [deployment.steps?.filter(step => step.status === 'COMPLETED').length
    || 0] *)
Definition completedSteps (d : DeploymentStore.Deployment) : nat :=
  match DeploymentStore.steps d with
  | Some l =>
      List.length
        (filter (fun s => Status_eqb (DeploymentStep.status s) COMPLETED) l)
  | None => 0%nat
  end.

(** [deployment.steps?.length || 0] *)
Definition totalSteps (d : DeploymentStore.Deployment) : nat :=
  match DeploymentStore.steps d with
  | Some l => List.length l
  | None => 0%nat
  end.

(** [totalSteps > 0 ? (completedSteps / totalSteps) * 100 : 0], in exact
    arithmetic. *)
Definition progressPercentage (d : DeploymentStore.Deployment) : Q :=
  if (0 <? totalSteps d)%nat
  then (inject_Z (Z.of_nat (completedSteps d))
        / inject_Z (Z.of_nat (totalSteps d))) * inject_Z 100
  else 0.

(** ** What the client sees of a step *)

(** A step without the times and the logs, which the events do not
    carry. *)
Definition untimed (s : DeploymentStep.t) : DeploymentStep.t :=
  DeploymentStep.mk (DeploymentStep.id s) (DeploymentStep.deploymentId s)
    (DeploymentStep.name s) (DeploymentStep.description s)
    (DeploymentStep.status s) None None None (DeploymentStep.order s).

(** [{ status }], as the [updates] of a step. *)
Definition set_to (status : Status) : DeploymentStep.data :=
  DeploymentStep.mkData (Some status) None None None.

(** The steps [l] after the status updates [marks], one after the
    other. *)
Definition mark_steps (marks : list (Id * Status)) (l : list DeploymentStep.t)
    : list DeploymentStep.t :=
  fold_left
    (fun l m =>
       update_rows DeploymentStep.id (fst m)
         (DeploymentStep.apply (set_to (snd m))) l)
    marks l.

(** * Templates *)

(** ** The [Template] table *)

Module Template.
Record t := mk {
  id : Id;
  name : string;
  description : string;
  modpackUrl : string;
  category : string;
  featured : bool;
  createdAt : Z
}.

(** An element of the [data] of [createMany]; [id] and [createdAt] take
    their defaults. *)
Record data := mkData {
  new_name : string;
  new_description : string;
  new_modpackUrl : string;
  new_category : string;
  new_featured : bool
}.
End Template.

(** The table, in insertion order, and the counter of its identifiers. *)
Record Catalog := mkCatalog {
  templates : list Template.t;
  next_template : Id
}.

Definition empty_catalog : Catalog := mkCatalog [] 0%nat.

(** [prisma.template.createMany({ data })]; the rows take the time [now]
    of the call as [createdAt]. *)
Fixpoint template_rows (n : Id) (now : Z) (data : list Template.data)
    : list Template.t :=
  match data with
  | [] => []
  | d :: data' =>
      Template.mk n (Template.new_name d) (Template.new_description d)
        (Template.new_modpackUrl d) (Template.new_category d)
        (Template.new_featured d) now
      :: template_rows (S n) now data'
  end.

Definition prisma_template_createMany (now : Z) (data : list Template.data)
    (c : Catalog) : Catalog :=
  mkCatalog (templates c ++ template_rows (next_template c) now data)
            (next_template c + List.length data).

(** ** [seedDatabase] *)

Definition sample_templates : list Template.data :=
  [ Template.mkData "All The Mods 9"
      "Kitchen sink modpack with 400+ mods featuring tech, magic, and adventure"
      "https://www.curseforge.com/minecraft/modpacks/all-the-mods-9"
      "Kitchen Sink" true;
    Template.mkData "RLCraft"
      "Hardcore survival modpack that transforms Minecraft into a brutal RPG"
      "https://www.curseforge.com/minecraft/modpacks/rlcraft"
      "Adventure" true;
    Template.mkData "SkyFactory 4"
      "The classic skyblock experience with automation and tech mods"
      "https://www.curseforge.com/minecraft/modpacks/skyfactory-4"
      "Skyblock" true;
    Template.mkData "Enigmatica 6"
      "Expert mode modpack focused on questing and progression"
      "https://www.curseforge.com/minecraft/modpacks/enigmatica6"
      "Expert" false;
    Template.mkData "Better Minecraft"
      "Enhanced vanilla experience with quality of life improvements"
      "https://www.curseforge.com/minecraft/modpacks/better-minecraft-modpack"
      "Vanilla+" false;
    Template.mkData "Create: Above and Beyond"
      "Automation-focused pack centered around the Create mod"
      "https://www.curseforge.com/minecraft/modpacks/create-above-and-beyond"
      "Tech" false ].

(** [seedDatabase(prisma)], run at the time [now]. *)
Definition seedDatabase (now : Z) (c : Catalog) : Catalog :=
  let existingTemplates := List.length (templates c) in
  if Nat.eqb existingTemplates 0
  then prisma_template_createMany now sample_templates c
  else c.

(** ** The templates router *)

(** [where]: the category unless it is missing, empty or "all"; featured
    templates only when the parameter is the string "true". *)
Definition template_where (category featured : option string)
    (t : Template.t) : bool :=
  match truthy category with
  | Some v => if String.eqb v "all" then true
              else String.eqb (Template.category t) v
  | None => true
  end
  && match featured with
     | Some v => if String.eqb v "true" then Template.featured t else true
     | None => true
     end.

(** [orderBy: [{ featured: 'desc' }, { createdAt: 'desc' }]] *)
Definition template_order (a b : Template.t) : bool :=
  if Bool.eqb (Template.featured a) (Template.featured b)
  then Template.createdAt b <=? Template.createdAt a
  else Template.featured a.

(** [router.get('/', ...)] of the templates router: the [templates] of
    the answer. *)
Definition get_templates (category featured : option string) (c : Catalog)
    : list Template.t :=
  sort_by template_order (filter (template_where category featured) (templates c)).

Inductive TemplateAnswer :=
| template_found (template : Template.t)
| template_not_found (code : nat) (error : string).

(** [router.get('/:id', ...)] of the templates router. *)
Definition get_template (id : Id) (c : Catalog) : TemplateAnswer :=
  match find (fun t => Nat.eqb (Template.id t) id) (templates c) with
  | Some t => template_found t
  | None => template_not_found 404 "Template not found"
  end.

(** The primary key of [Template]. *)
Definition wf_catalog (c : Catalog) : Prop :=
  NoDup (map Template.id (templates c))
  /\ forall t, In t (templates c) -> (Template.id t < next_template c)%nat.

(** ** The times and the logs of a step *)

(** [estimatedDuration + Math.random() * 5], for the step at index [i]
    and the draw [x]. *)
Definition actualDuration_of (modpackUrl : string) (i : nat) (x : Q) : Q :=
  double_add
    (inject_Z (estimatedDuration_at (createDeploymentPlan modpackUrl) i))
    (double_mul x (inject_Z 5)).

(** The cursor of the draws when the loop starts. *)
Definition first_draw (w : World) : nat :=
  if Qltb (random w (random_pos w)) failure_chance
  then S (S (random_pos w)) else S (random_pos w).

(** ** The host name of the server *)



(** ** More concrete worlds *)

(** User 8 creates a second deployment, with identifier 8, beside
    deployment 0 of user 7. *)
Definition two_deployments_world : World :=
  handle (POST_deployment 8 (Some small_zip) None) world_to_fail.

(** A client that has set the deployment [id] of [w], as [GET /:id]
    answers it, as its current deployment. *)
Definition client_of (w : World) (id : Id) : SocketContext.t :=
  SocketContext.mk
    (DeploymentStore.setCurrentDeployment
       (option_map (fun r => DeploymentStore.of_answer (with_steps (db w) r))
                   (find_deployment (db w) id))
       DeploymentStore.initial)
    [] seconds_clock 0.

(** * Properties *)

(** ** Doubles *)

(** ** Doubles *)

Lemma pow2_pos e : (0 < pow2 e)%Q.
Proof. unfold pow2. apply Qpower_0_lt. reflexivity. Qed.

Lemma pow2_plus a b : (pow2 (a + b) == pow2 a * pow2 b)%Q.
Proof. unfold pow2. apply Qpower_plus. discriminate. Qed.

Lemma pow2_le a b : a <= b -> (pow2 a <= pow2 b)%Q.
Proof. intros H. unfold pow2. apply Qpower_le_compat_l; [exact H | discriminate]. Qed.

Lemma pow2_inject (n : Z) : 0 <= n -> (pow2 n == inject_Z (2 ^ n))%Q.
Proof. intros H. unfold pow2. now rewrite Zpower_Qpower. Qed.

(** [ilog2 x] is the integer part of the binary logarithm. *)
Lemma ilog2_spec (x : Q) :
  (0 < x)%Q -> (pow2 (ilog2 x) <= x)%Q /\ (x < pow2 (ilog2 x + 1))%Q.
Proof.
  intros Hx. destruct x as [a b]. unfold ilog2. cbn [Qnum Qden].
  assert (Ha : 0 < a) by (unfold Qlt in Hx; cbn in Hx; lia).
  set (la := Z.log2 a). set (lb := Z.log2 (Z.pos b)).
  destruct (Z.log2_spec a Ha) as [A1 A2]. fold la in A1, A2.
  destruct (Z.log2_spec (Z.pos b) (Pos2Z.is_pos b)) as [B1 B2]. fold lb in B1, B2.
  assert (La : 0 <= la) by apply Z.log2_nonneg.
  assert (Lb : 0 <= lb) by apply Z.log2_nonneg.
  assert (Hq : (a # b == inject_Z a / inject_Z (Z.pos b))%Q) by apply Qmake_Qdiv.
  assert (Hb : (0 < inject_Z (Z.pos b))%Q) by reflexivity.
  (* the two outer bounds *)
  assert (Lo : (pow2 (la - lb - 1) <= a # b)%Q).
  { rewrite Hq. apply Qle_shift_div_l; [exact Hb|].
    apply Qle_trans with (pow2 (la - lb - 1) * pow2 (lb + 1))%Q.
    - apply Qmult_le_l; [apply pow2_pos|].
      rewrite pow2_inject by lia. rewrite <- Zle_Qle. lia.
    - rewrite <- pow2_plus. replace (la - lb - 1 + (lb + 1)) with la by lia.
      rewrite pow2_inject by lia. now rewrite <- Zle_Qle. }
  assert (Hi : (a # b < pow2 (la - lb + 1))%Q).
  { rewrite Hq. apply Qlt_shift_div_r; [exact Hb|].
    apply Qlt_le_trans with (pow2 (la + 1)).
    - rewrite pow2_inject by lia. rewrite <- Zlt_Qlt. lia.
    - replace (la + 1) with (la - lb + 1 + lb) by lia. rewrite pow2_plus.
      apply Qmult_le_l; [apply pow2_pos|].
      rewrite pow2_inject by lia. now rewrite <- Zle_Qle. }
  destruct (Qle_bool (pow2 (la - lb)) (a # b)) eqn:E.
  - apply Qle_bool_iff in E. split; assumption.
  - split.
    + exact Lo.
    + replace (la - lb - 1 + 1) with (la - lb) by lia.
      apply Qnot_le_lt. intros H. apply Qle_bool_iff in H. congruence.
Qed.

Lemma nearest_even_spec (q : Q) :
  (q - (1 # 2) <= inject_Z (nearest_even q))%Q
  /\ (inject_Z (nearest_even q) <= q + (1 # 2))%Q.
Proof.
  unfold nearest_even.
  pose proof (Qfloor_le q) as F1. pose proof (Qlt_floor q) as F2.
  rewrite inject_Z_plus in F2. change (inject_Z 1) with 1%Q in F2.
  destruct (q - inject_Z (Qfloor q) ?= 1 # 2)%Q eqn:C.
  - apply Qeq_alt in C.
    destruct (Z.even (Qfloor q)); [|rewrite inject_Z_plus; change (inject_Z 1) with 1%Q];
      split; lra.
  - apply Qlt_alt in C. split; lra.
  - apply Qgt_alt in C. rewrite inject_Z_plus. change (inject_Z 1) with 1%Q.
    split; lra.
Qed.

Lemma nearest_even_nonneg (q : Q) : (0 <= q)%Q -> 0 <= nearest_even q.
Proof.
  intros H. assert (F : 0 <= Qfloor q).
  { change 0 with (Qfloor 0). now apply Qfloor_resp_le. }
  unfold nearest_even.
  destruct (q - inject_Z (Qfloor q) ?= 1 # 2)%Q; [destruct (Z.even _)| |]; lia.
Qed.

(** A double is at most half a unit of the last place away. *)
Lemma double_of_near (x : Q) :
  (x - pow2 (last_place x) * (1 # 2) <= double_of x)%Q
  /\ (double_of x <= x + pow2 (last_place x) * (1 # 2))%Q.
Proof.
  unfold double_of. pose proof (pow2_pos (last_place x)) as U.
  destruct (Qeq_bool x 0) eqn:E.
  - apply Qeq_bool_eq in E. split; lra.
  - rewrite Qred_correct. set (u := pow2 (last_place x)) in *.
    destruct (nearest_even_spec (x / u)) as [N1 N2].
    set (m := inject_Z (nearest_even (x / u))) in *.
    split.
    + apply Qle_trans with ((x / u - (1 # 2)) * u)%Q; [|now apply Qmult_le_compat_r; lra].
      apply Qle_lteq. right. field. lra.
    + apply Qle_trans with ((x / u + (1 # 2)) * u)%Q; [now apply Qmult_le_compat_r; lra|].
      apply Qle_lteq. right. field. lra.
Qed.

Lemma double_of_nonneg (x : Q) : (0 <= x)%Q -> (0 <= double_of x)%Q.
Proof.
  intros H. unfold double_of. destruct (Qeq_bool x 0); [lra|].
  rewrite Qred_correct. pose proof (pow2_pos (last_place x)) as U.
  apply Qmult_le_0_compat; [|lra].
  change 0%Q with (inject_Z 0). rewrite <- Zle_Qle.
  apply nearest_even_nonneg. apply Qle_shift_div_l; [exact U | lra].
Qed.

(** The unit of the last place of a positive number. *)
Lemma last_place_cases (x : Q) :
  (0 < x)%Q ->
  (pow2 (last_place x) <= x * pow2 (-52))%Q
  \/ (last_place x = -1074 /\ (x < pow2 (-1021))%Q).
Proof.
  intros Hx. unfold last_place.
  assert (A : Qabs x = x).
  { destruct x as [a b]. unfold Qabs. f_equal. apply Z.abs_eq.
    unfold Qlt in Hx. cbn in Hx. lia. }
  rewrite A.
  destruct (ilog2_spec x Hx) as [L U].
  destruct (Z.max_spec (ilog2 x - 52) (-1074)) as [[H ->]|[H ->]].
  - right. split; [reflexivity|].
    eapply Qlt_le_trans; [exact U|]. apply pow2_le. lia.
  - left. replace (ilog2 x - 52) with (ilog2 x + -52) by lia.
    rewrite pow2_plus. apply Qmult_le_compat_r; [exact L|].
    apply Qlt_le_weak, pow2_pos.
Qed.

Lemma ilog2_below_one (x : Q) : (0 < x)%Q -> (x < 1)%Q -> ilog2 x < 0.
Proof.
  intros H0 H1. destruct (ilog2_spec x H0) as [L _].
  unfold pow2 in L.
  apply (Qpower_lt_compat_l_inv 2); [|reflexivity].
  change (2 ^ 0)%Q with 1%Q. lra.
Qed.

(** The doubles below 1 end at [1 - 2^-53]. *)
Lemma random_below_one (x : Q) :
  is_random x -> (x <= 1 - pow2 (-53))%Q.
Proof.
  intros (Hd & H0 & H1).
  assert (P53 : (pow2 (-53) == 1 # 9007199254740992)%Q) by reflexivity.
  unfold is_double, double_of in Hd.
  destruct (Qeq_bool x 0) eqn:E.
  { apply Qeq_bool_eq in E. lra. }
  apply Qeq_bool_neq in E. assert (Hx : (0 < x)%Q) by lra.
  rewrite Qred_correct in Hd.
  pose proof (ilog2_below_one x Hx H1) as Hl.
  destruct (ilog2_spec x Hx) as [_ U].
  assert (A : Qabs x = x).
  { destruct x as [a b]. unfold Qabs. f_equal. apply Z.abs_eq.
    unfold Qlt in Hx. cbn in Hx. lia. }
  assert (Hlp : last_place x <= -53 /\ ilog2 x + 1 <= last_place x + 53).
  { unfold last_place. rewrite A. lia. }
  destruct Hlp as [Hlp1 Hlp2].
  set (u := pow2 (last_place x)) in *.
  assert (Hu : (0 < u)%Q) by apply pow2_pos.
  assert (Hu53 : (u <= pow2 (-53))%Q) by (apply pow2_le; lia).
  set (m := nearest_even (x / u)) in *.
  assert (Hm : (inject_Z m * u < inject_Z (2 ^ 53) * u)%Q).
  { rewrite Hd. eapply Qlt_le_trans; [exact U|].
    apply Qle_trans with (pow2 (last_place x + 53)); [now apply pow2_le|].
    rewrite pow2_plus, Qmult_comm. fold u.
    apply Qmult_le_compat_r; [|lra]. now rewrite pow2_inject by lia. }
  assert (Hm' : m <= 2 ^ 53 - 1).
  { assert (m < 2 ^ 53); [|lia]. rewrite Zlt_Qlt.
    apply Qmult_lt_r with u; assumption. }
  rewrite Zle_Qle in Hm'. rewrite <- Hd.
  apply Qle_trans with (inject_Z (2 ^ 53 - 1) * u)%Q.
  - apply Qmult_le_compat_r; [exact Hm' | lra].
  - change (inject_Z (2 ^ 53 - 1)) with (9007199254740991 # 1)%Q. lra.
Qed.


(** ** Strings and the plan *)

Lemma prefix_split (p s : string) :
  String.prefix p s = true <-> exists rest, s = (p ++ rest)%string.
Proof.
  revert s; induction p as [|c p IH]; intros s.
  - split; [intros _; now exists s | intros _; now destruct s].
  - destruct s as [|c' s]; simpl.
    + split; [discriminate | intros [rest H]; discriminate].
    + destruct (ascii_dec c c') as [->|Hne].
      * rewrite IH. split; intros [rest H]; exists rest; congruence.
      * split; [discriminate | intros [rest H]; congruence].
Qed.

(** [includes] is substring containment. *)
Lemma includes_spec (s t : string) :
  includes s t = true <-> exists a b, s = (a ++ t ++ b)%string.
Proof.
  induction s as [|c s IH]; cbn [includes].
  - rewrite orb_false_r, prefix_split. split.
    + intros [rest H]. exists ""%string, rest. exact H.
    + intros [a [b H]]. destruct a; simpl in H.
      * now exists b.
      * discriminate.
  - rewrite orb_true_iff, prefix_split, IH. split.
    + intros [[rest H] | [a [b H]]].
      * exists ""%string, rest. exact H.
      * exists (String c a), b. simpl. now rewrite H.
    + intros [a [b H]]. destruct a as [|c' a]; simpl in H.
      * left. now exists b.
      * right. exists a, b. congruence.
Qed.


Lemma createDeploymentPlan_cases (modpackUrl : string) :
  createDeploymentPlan modpackUrl
  = if isTech modpackUrl
    then (firstn 4 (basePlan (isLarge modpackUrl)) ++ [techStep]
          ++ skipn 4 (basePlan (isLarge modpackUrl)))%list
    else basePlan (isLarge modpackUrl).
Proof. unfold createDeploymentPlan, splice. now destruct (isTech modpackUrl). Qed.

Lemma createDeploymentPlan_length (modpackUrl : string) :
  List.length (createDeploymentPlan modpackUrl)
  = if isTech modpackUrl then 8%nat else 7%nat.
Proof.
  rewrite createDeploymentPlan_cases.
  now destruct (isTech modpackUrl), (isLarge modpackUrl).
Qed.

(** C10: seven steps, or eight with [Install Tech Mods] at index 4 when
    the URL contains "tekkit" or "industrialcraft"; "rlcraft" and
    "all-the-mods" decide the effort of [Download Modpack] (45 or 20) and
    nothing else. *)
Theorem plan_keywords (modpackUrl : string) :
  let plan := createDeploymentPlan modpackUrl in
  let tech := includes modpackUrl "tekkit" || includes modpackUrl "industrialcraft" in
  let large := includes modpackUrl "rlcraft" || includes modpackUrl "all-the-mods" in
  List.length plan = (if tech then 8%nat else 7%nat)
  /\ map DeploymentPlan.name plan
     = (if tech
        then ["Validate URL"; "Download Modpack"; "Extract Files";
              "Install Forge/Fabric"; "Install Tech Mods"; "Configure Server";
              "Allocate Resources"; "Start Server"]
        else ["Validate URL"; "Download Modpack"; "Extract Files";
              "Install Forge/Fabric"; "Configure Server";
              "Allocate Resources"; "Start Server"])
  /\ nth_error (map DeploymentPlan.name plan) 4
     = Some (if tech then "Install Tech Mods" else "Configure Server")
  /\ map DeploymentPlan.estimatedDuration plan
     = (if tech
        then [3; if large then 45 else 20; 10; 15; 12; 8; 5; 20]
        else [3; if large then 45 else 20; 10; 15; 8; 5; 20])
  /\ map DeploymentPlan.description plan
     = map DeploymentPlan.description
         (if tech then splice 4 0 [techStep] (basePlan false) else basePlan false).
Proof.
  intros plan tech large. subst plan.
  rewrite createDeploymentPlan_cases.
  change (isTech modpackUrl) with tech. change (isLarge modpackUrl) with large.
  destruct tech, large; repeat split; reflexivity.
Qed.

(** ** Tables *)

Section Rows.
Context {A : Type} (key : A -> Id) (f : A -> A).
Hypothesis f_key : forall r, key (f r) = key r.

Lemma update_rows_keys id rows :
  map key (update_rows key id f rows) = map key rows.
Proof.
  unfold update_rows. rewrite map_map. apply map_ext.
  intros r. now destruct (Nat.eqb (key r) id).
Qed.

Lemma has_key_In id (rows : list A) :
  has_key key id rows = true <-> In id (map key rows).
Proof.
  unfold has_key. rewrite existsb_exists, in_map_iff.
  split; intros [r [H1 H2]]; exists r.
  - apply Nat.eqb_eq in H2. now split.
  - split; [assumption|]. now apply Nat.eqb_eq.
Qed.

Lemma has_key_update id id' rows :
  has_key key id' (update_rows key id f rows) = has_key key id' rows.
Proof.
  unfold has_key, update_rows. induction rows as [|r rows IH]; simpl.
  - reflexivity.
  - rewrite IH. destruct (Nat.eqb (key r) id); [now rewrite f_key | reflexivity].
Qed.

Lemma find_update_same id rows :
  find (fun r => Nat.eqb (key r) id) (update_rows key id f rows)
  = option_map f (find (fun r => Nat.eqb (key r) id) rows).
Proof.
  unfold update_rows. induction rows as [|r rows IH]; simpl.
  - reflexivity.
  - destruct (Nat.eqb (key r) id) eqn:E.
    + now rewrite f_key, E.
    + now rewrite E.
Qed.

Lemma find_update_other id id' rows :
  id' <> id ->
  find (fun r => Nat.eqb (key r) id') (update_rows key id f rows)
  = find (fun r => Nat.eqb (key r) id') rows.
Proof.
  intros Hne. unfold update_rows. induction rows as [|r rows IH]; simpl.
  - reflexivity.
  - destruct (Nat.eqb (key r) id) eqn:E.
    + rewrite f_key. apply Nat.eqb_eq in E.
      replace (Nat.eqb (key r) id') with false; [exact IH|].
      symmetry. apply Nat.eqb_neq. congruence.
    + now rewrite IH.
Qed.
End Rows.

Lemma find_key_In {A} (key : A -> Id) (rows : list A) (r : A) :
  NoDup (map key rows) -> In r rows ->
  find (fun x => Nat.eqb (key x) (key r)) rows = Some r.
Proof.
  induction rows as [|x rows IH]; simpl; intros Hnd Hin; [contradiction|].
  inversion Hnd as [|? ? Hx Hnd']; subst.
  destruct Hin as [->|Hin].
  - now rewrite Nat.eqb_refl.
  - destruct (Nat.eqb_spec (key x) (key r)) as [E|_].
    + exfalso. apply Hx. rewrite E. now apply in_map.
    + now apply IH.
Qed.

Lemma same_key_same_row {A} (key : A -> Id) (rows : list A) (a b : A) :
  NoDup (map key rows) -> In a rows -> In b rows -> key a = key b -> a = b.
Proof.
  intros Hnd Ha Hb E.
  pose proof (find_key_In key rows a Hnd Ha) as Fa.
  pose proof (find_key_In key rows b Hnd Hb) as Fb.
  rewrite E in Fa. congruence.
Qed.

(** ** Sorting *)

Section Sorting.
Context {A : Type} (leb : A -> A -> bool).

Lemma insert_by_perm x l : Permutation (insert_by leb x l) (x :: l).
Proof.
  induction l as [|y l IH]; simpl; [reflexivity|].
  destruct (leb x y); [reflexivity|].
  rewrite IH. apply perm_swap.
Qed.

Lemma sort_by_perm l : Permutation (sort_by leb l) l.
Proof.
  induction l as [|x l IH]; simpl; [reflexivity|].
  rewrite insert_by_perm. now constructor.
Qed.

Lemma sort_by_In x l : In x (sort_by leb l) <-> In x l.
Proof.
  split; apply Permutation_in; [|symmetry]; apply sort_by_perm.
Qed.

Hypothesis leb_total : forall a b, leb a b = true \/ leb b a = true.
Hypothesis leb_trans :
  forall a b c, leb a b = true -> leb b c = true -> leb a c = true.

Lemma insert_by_sorted x l :
  StronglySorted (fun a b => leb a b = true) l ->
  StronglySorted (fun a b => leb a b = true) (insert_by leb x l).
Proof.
  induction 1 as [|y l Hs IH Hy]; simpl.
  - repeat constructor.
  - destruct (leb x y) eqn:E.
    + constructor; [now constructor|].
      constructor; [assumption|].
      rewrite Forall_forall in *. intros z Hz. eauto.
    + constructor; [assumption|].
      rewrite Forall_forall in *. intros z Hz.
      apply (Permutation_in _ (insert_by_perm x l)) in Hz.
      destruct Hz as [<-|Hz]; [|auto].
      destruct (leb_total x y) as [H|H]; congruence.
Qed.

Lemma sort_by_sorted l :
  StronglySorted (fun a b => leb a b = true) (sort_by leb l).
Proof.
  induction l as [|x l IH]; simpl; [constructor|].
  now apply insert_by_sorted.
Qed.

Lemma sort_by_already l :
  StronglySorted (fun a b => leb a b = true) l -> sort_by leb l = l.
Proof.
  induction 1 as [|x l Hs IH Hx]; simpl; [reflexivity|].
  rewrite IH. destruct l as [|y l]; [reflexivity|]. simpl.
  inversion Hx as [|? ? Hxy _]; subst. now rewrite Hxy.
Qed.
End Sorting.

Lemma order_asc_total a b : order_asc a b = true \/ order_asc b a = true.
Proof. unfold order_asc. rewrite !Z.leb_le. lia. Qed.

Lemma order_asc_trans a b c :
  order_asc a b = true -> order_asc b c = true -> order_asc a c = true.
Proof. unfold order_asc. rewrite !Z.leb_le. lia. Qed.

Lemma steps_of_sorted d id :
  StronglySorted (fun a b => order_asc a b = true) (steps_of d id).
Proof. apply sort_by_sorted; [apply order_asc_total | apply order_asc_trans]. Qed.

Lemma steps_of_In d id s :
  In s (steps_of d id) <->
  In s (steps d) /\ DeploymentStep.deploymentId s = id.
Proof.
  unfold steps_of. rewrite sort_by_In, filter_In, Nat.eqb_eq. reflexivity.
Qed.

Lemma steps_of_NoDup d id :
  NoDup (map DeploymentStep.id (steps d)) ->
  NoDup (map DeploymentStep.id (steps_of d id)).
Proof.
  intros H. unfold steps_of.
  eapply Permutation_NoDup.
  - apply Permutation_map. symmetry. apply sort_by_perm.
  - induction (steps d) as [|s l IH]; simpl; [constructor|].
    inversion H as [|? ? Hs Hl]; subst.
    destruct (Nat.eqb (DeploymentStep.deploymentId s) id); simpl; [|auto].
    constructor; [|auto].
    rewrite in_map_iff. intros [x [Hx Hin]]. apply Hs.
    rewrite in_map_iff. exists x. split; [assumption|].
    now apply filter_In in Hin.
Qed.

(** ** The loop of a run *)

Ltac wsimpl :=
  cbn [db emitted random random_pos clock clock_pos set_db deployments steps
       next_id fst snd].

Ltac splits := repeat match goal with |- _ /\ _ => split end.

Ltac nth_nil :=
  match goal with
  | H : nth_error [] ?j = Some _ |- _ => destruct j; discriminate H
  end.

Ltac mstep :=
  unfold bind at 1;
  cbn [Date_now emit Math_random setTimeout ret get_db put_db throw];
  wsimpl.

Lemma deploymentStep_update_ok id u w :
  has_key DeploymentStep.id id (steps (db w)) = true ->
  prisma_deploymentStep_update id u w
  = (Ok tt,
     set_db w (mkDB (deployments (db w))
                    (update_rows DeploymentStep.id id (DeploymentStep.apply u)
                                 (steps (db w)))
                    (next_id (db w)))).
Proof.
  intros H. unfold prisma_deploymentStep_update, bind, get_db, put_db.
  now rewrite H.
Qed.

Lemma deployment_update_ok id u w :
  has_key Deployment.id id (deployments (db w)) = true ->
  prisma_deployment_update id u w
  = (Ok tt,
     set_db w (mkDB (update_rows Deployment.id id (Deployment.apply u)
                                 (deployments (db w)))
                    (steps (db w)) (next_id (db w)))).
Proof.
  intros H. unfold prisma_deployment_update, bind, get_db, put_db.
  now rewrite H.
Qed.

Lemma step_apply_id u s :
  DeploymentStep.id (DeploymentStep.apply u s) = DeploymentStep.id s.
Proof. reflexivity. Qed.

Lemma deployment_apply_id u d :
  Deployment.id (Deployment.apply u d) = Deployment.id d.
Proof. reflexivity. Qed.

Lemma run_steps_completed d u st fa i s rest w :
  has_key DeploymentStep.id (DeploymentStep.id s) (steps (db w)) = true ->
  Z.of_nat i <> fa ->
  run_steps d u st fa i (s :: rest) w
  = run_steps d u st fa (S i) rest (after_completed d u i s w).
Proof.
  intros Hk Hne. apply Z.eqb_neq in Hne.
  cbn [run_steps]. mstep.
  unfold bind at 1. rewrite deploymentStep_update_ok by exact Hk. wsimpl.
  do 3 mstep. rewrite Hne. mstep.
  unfold bind at 1. rewrite deploymentStep_update_ok
    by (wsimpl; rewrite has_key_update; auto using step_apply_id).
  wsimpl. mstep. reflexivity.
Qed.

Lemma run_steps_failed d u st fa i s rest w :
  has_key DeploymentStep.id (DeploymentStep.id s) (steps (db w)) = true ->
  has_key Deployment.id (Deployment.id d) (deployments (db w)) = true ->
  Z.of_nat i = fa ->
  run_steps d u st fa i (s :: rest) w = (Ok Returned, after_failed d u st s w).
Proof.
  intros Hk Hd He. apply Z.eqb_eq in He.
  cbn [run_steps]. mstep.
  unfold bind at 1. rewrite deploymentStep_update_ok by exact Hk. wsimpl.
  do 3 mstep. rewrite He. mstep.
  unfold bind at 1. rewrite deploymentStep_update_ok
    by (wsimpl; rewrite has_key_update; auto using step_apply_id).
  wsimpl. do 2 mstep.
  unfold bind at 1. rewrite deployment_update_ok by (wsimpl; exact Hd).
  wsimpl. do 3 mstep. reflexivity.
Qed.

Lemma has_key_find {A} (key : A -> Id) id (rows : list A) :
  has_key key id rows = true ->
  exists r, find (fun x => Nat.eqb (key x) id) rows = Some r.
Proof.
  unfold has_key. induction rows as [|x rows IH]; simpl; [discriminate|].
  destruct (Nat.eqb (key x) id); [eauto | exact IH].
Qed.

Lemma find_step_after_completed d u i s w sid :
  sid <> DeploymentStep.id s ->
  find_step (db (after_completed d u i s w)) sid = find_step (db w) sid.
Proof.
  intros H. unfold find_step, after_completed. wsimpl.
  rewrite !find_update_other; auto using step_apply_id.
Qed.

Lemma find_step_after_failed d u st s w sid :
  sid <> DeploymentStep.id s ->
  find_step (db (after_failed d u st s w)) sid = find_step (db w) sid.
Proof.
  intros H. unfold find_step, after_failed. wsimpl.
  rewrite !find_update_other; auto using step_apply_id.
Qed.

Lemma known_after_completed d u i s rest w :
  known d (s :: rest) w -> known d rest (after_completed d u i s w).
Proof.
  intros [Hd Hs]. split.
  - exact Hd.
  - intros x Hx. unfold after_completed. wsimpl.
    rewrite !has_key_update; auto using step_apply_id. apply Hs. now right.
Qed.

Lemma fails_within_skip fa i n :
  Z.of_nat i <> fa -> fails_within fa i (S n) = fails_within fa (S i) n.
Proof.
  intros H. unfold fails_within.
  replace (i + S n)%nat with (S i + n)%nat by lia.
  destruct (Z.leb_spec (Z.of_nat i) fa), (Z.leb_spec (Z.of_nat (S i)) fa);
    try reflexivity; lia.
Qed.

Lemma fails_within_here fa i n :
  Z.of_nat i = fa -> fails_within fa i (S n) = true.
Proof.
  intros H. unfold fails_within. apply andb_true_iff. split.
  - apply Z.leb_le. lia.
  - apply Z.ltb_lt. lia.
Qed.

Lemma find_step_after_completed_self d u i s w r :
  find_step (db w) (DeploymentStep.id s) = Some r ->
  exists r', find_step (db (after_completed d u i s w)) (DeploymentStep.id s)
             = Some r'
             /\ DeploymentStep.status r' = COMPLETED
             /\ DeploymentStep.startedAt r' = Some (clock w (clock_pos w)).
Proof.
  intros H. unfold find_step in *. unfold after_completed. wsimpl.
  rewrite !find_update_same by auto using step_apply_id. rewrite H.
  eexists. repeat split; reflexivity.
Qed.

Lemma find_step_after_failed_self d u st s w r :
  find_step (db w) (DeploymentStep.id s) = Some r ->
  exists r', find_step (db (after_failed d u st s w)) (DeploymentStep.id s)
             = Some r'
             /\ DeploymentStep.status r' = FAILED
             /\ DeploymentStep.logs r' = Some failure_logs
             /\ DeploymentStep.startedAt r' = Some (clock w (clock_pos w)).
Proof.
  intros H. unfold find_step in *. unfold after_failed. wsimpl.
  rewrite !find_update_same by auto using step_apply_id. rewrite H.
  eexists. repeat split; reflexivity.
Qed.

Lemma nth_error_id_In (rest : list DeploymentStep.t) j s :
  nth_error rest j = Some s ->
  In (DeploymentStep.id s) (map DeploymentStep.id rest).
Proof. intros H. apply in_map. eapply nth_error_In; eauto. Qed.

(** The loop does not throw on rows that are stored, and this is what it
    does to the store and the trace. *)
Lemma run_steps_spec d u st fa rest :
  NoDup (map DeploymentStep.id rest) ->
  forall i w, known d rest w ->
  exists exit w',
    run_steps d u st fa i rest w = (Ok exit, w')
    /\ loop_post d u st fa i rest w exit w'.
Proof.
  induction rest as [|s rest IH]; intros Hnd i w Hk.
  - exists Finished, w. split; [reflexivity|].
    unfold loop_post, fails_within. simpl.
    replace (i + 0)%nat with i by lia.
    assert (E : (Z.of_nat i <=? fa) && (fa <? Z.of_nat i) = false).
    { destruct (Z.leb_spec (Z.of_nat i) fa); [apply Z.ltb_ge; lia | reflexivity]. }
    rewrite E.
    splits; auto; try (intros; nth_nil); try (intros; discriminate).
    exists []. rewrite app_nil_r. splits; auto.
  - inversion Hnd as [|? ? Hs Hnd']; subst.
    destruct Hk as [Hd Hsteps].
    assert (Hks : has_key DeploymentStep.id (DeploymentStep.id s) (steps (db w)) = true)
      by (apply Hsteps; now left).
    destruct (has_key_find _ _ _ Hks) as [r Hr].
    destruct (Z.eq_dec (Z.of_nat i) fa) as [He|Hne].
    + exists Returned, (after_failed d u st s w).
      split; [now apply run_steps_failed|].
      unfold loop_post. cbn [List.length]. rewrite (fails_within_here _ _ _ He).
      splits; try reflexivity.
      * unfold after_failed. wsimpl. lia.
      * unfold after_failed. wsimpl.
        apply update_rows_keys, deployment_apply_id.
      * unfold after_failed. wsimpl.
        rewrite !update_rows_keys; auto using step_apply_id.
      * eexists. split.
        { unfold after_failed. wsimpl. rewrite <- !app_assoc. reflexivity. }
        cbn [expected_marks]. apply Z.eqb_eq in He. rewrite He.
        splits; try reflexivity. repeat constructor.
      * intros sid Hsid. apply find_step_after_failed.
        intros ->. apply Hsid. now left.
      * intros j s0 _ [H|H]; lia.
      * intros j s0 Hj Hij. assert (j = 0%nat) by lia. subst j.
        injection Hj as <-.
        destruct (find_step_after_failed_self d u st s w r Hr)
          as (r' & G1 & G2 & G3 & _).
        eauto.
      * intros j s0 Hj Hij. destruct j as [|j]; [lia|]. cbn in Hj.
        apply find_step_after_failed. intros E. apply Hs. rewrite <- E.
        eapply nth_error_id_In; eauto.
      * discriminate.
      * intros j s0 Hj Hij. assert (j = 0%nat) by lia. subst j.
        injection Hj as <-. split; [reflexivity|].
        unfold after_failed. wsimpl. lia.
      * intros s0 Hj. injection Hj as <-.
        destruct (find_step_after_failed_self d u st s w r Hr)
          as (r' & G1 & _ & _ & G4).
        eauto.
    + destruct (IH Hnd' (S i) (after_completed d u i s w))
        as (exit & w' & Hrun & Hpost).
      { apply known_after_completed. now split. }
      exists exit, w'. split.
      { rewrite run_steps_completed by assumption. exact Hrun. }
      destruct Hpost as (P1 & (P2a & P2b & P2c & P2d) & (P3a & P3b)
                         & (new & P4a & P4b & P4c & P4d)
                         & P5 & P6 & P7 & P8 & P9 & P10 & _).
      unfold loop_post. cbn [List.length].
      rewrite (fails_within_skip _ _ _ Hne).
      splits.
      * exact P1.
      * now rewrite P2a.
      * now rewrite P2b.
      * now rewrite P2c.
      * unfold after_completed in P2d. wsimpl. cbn [clock_pos] in P2d. lia.
      * now rewrite P3a.
      * rewrite P3b. unfold after_completed. wsimpl.
        rewrite !update_rows_keys; auto using step_apply_id.
      * eexists. split.
        { rewrite P4a. unfold after_completed. wsimpl.
          rewrite <- !app_assoc. reflexivity. }
        cbn [expected_marks]. apply Z.eqb_neq in Hne. rewrite Hne.
        splits.
        { cbn. now rewrite P4b. }
        { exact P4c. }
        { repeat constructor. exact P4d. }
      * intros sid Hsid. rewrite P5.
        { apply find_step_after_completed. intros ->. apply Hsid. now left. }
        intros H. apply Hsid. now right.
      * intros [|j] s0 Hj Hij; cbn in Hj.
        { injection Hj as <-. unfold step_status_of. rewrite P5 by exact Hs.
          destruct (find_step_after_completed_self d u i s w r Hr)
            as (r' & Hr' & Hst & _).
          rewrite Hr'. cbn. now rewrite Hst. }
        apply (P6 j s0 Hj). lia.
      * intros [|j] s0 Hj Hij; cbn in Hj.
        { exfalso. apply Hne. rewrite <- Hij. f_equal. lia. }
        apply (P7 j s0 Hj). rewrite <- Hij. f_equal. lia.
      * intros [|j] s0 Hj Hij; cbn in Hj; [lia|].
        rewrite (P8 j s0 Hj) by lia.
        apply find_step_after_completed. intros E. apply Hs. rewrite <- E.
        eapply nth_error_id_In; eauto.
      * intros H. now rewrite P9.
      * intros [|j] s0 Hj Hij; cbn in Hj.
        { exfalso. apply Hne. rewrite <- Hij. f_equal. lia. }
        destruct (P10 j s0 Hj) as [Q1 Q2].
        { rewrite <- Hij. f_equal. lia. }
        split; [exact Q1|].
        unfold after_completed in Q2. cbn [clock_pos] in Q2. lia.
      * intros s0 Hj. injection Hj as <-. rewrite P5 by exact Hs.
        destruct (find_step_after_completed_self d u i s w r Hr)
          as (r' & Hr' & _ & Hst).
        eauto.
Qed.

(** ** The run *)

Lemma simulateDeployment_start dw u w :
  has_key Deployment.id (Deployment.id (deployment_row dw))
          (deployments (db w)) = true ->
  simulateDeployment dw u w
  = bind (run_steps (deployment_row dw) u (clock w (clock_pos w))
                    (decided_failAtStep w (List.length (deployment_steps dw)))
                    0 (deployment_steps dw))
         (fun exit =>
            match exit with
            | Returned => ret tt
            | Finished =>
                now <- Date_now ;;
                completedAt <- Date_now ;;
                prisma_deployment_update (Deployment.id (deployment_row dw))
                  (Deployment.mkData (Some COMPLETED) (Some completedAt)
                     (Some ((now - clock w (clock_pos w)) / 1000)) None) ;;
                emit (to_user_room u)
                  (deployment_complete (Deployment.id (deployment_row dw))
                     COMPLETED "Deployment completed successfully!"
                     ((now - clock w (clock_pos w)) / 1000)
                     (Some (serverInfo_of
                              (Deployment.modpackName (deployment_row dw)))))
            end)
         (after_start (deployment_row dw) u w).
Proof.
  intros Hd. unfold simulateDeployment. mstep.
  unfold bind at 1. rewrite deployment_update_ok by exact Hd. wsimpl.
  mstep. unfold bind at 1. unfold draw_failAtStep. mstep.
  unfold decided_failAtStep, after_start.
  destruct (Qltb (random w (random_pos w)) failure_chance).
  - mstep. reflexivity.
  - cbn [ret]. reflexivity.
Qed.

Lemma known_after_start d u rest w :
  known d rest w -> known d rest (after_start d u w).
Proof.
  intros [Hd Hs]. split; [|exact Hs].
  unfold after_start. wsimpl.
  rewrite has_key_update; auto using deployment_apply_id.
Qed.

Lemma fails_within_index fa n :
  fails_within fa 0 n = true ->
  exists j, (j < n)%nat /\ Z.of_nat j = fa.
Proof.
  unfold fails_within. rewrite andb_true_iff, Z.leb_le, Z.ltb_lt.
  intros [H1 H2]. exists (Z.to_nat fa). lia.
Qed.

Lemma fails_within_not fa n j :
  fails_within fa 0 n = false -> (j < n)%nat -> Z.of_nat j <> fa.
Proof.
  unfold fails_within. intros H Hj E.
  assert (X : (0 <=? fa) && (fa <? Z.of_nat (0 + n)) = true).
  { apply andb_true_iff. rewrite Z.leb_le, Z.ltb_lt. lia. }
  change (Z.of_nat 0) with 0 in H. congruence.
Qed.

Lemma has_key_keys {A} (key : A -> Id) id (rows rows' : list A) :
  map key rows = map key rows' ->
  has_key key id rows = has_key key id rows'.
Proof.
  intros H.
  assert (E : forall l, has_key key id l
                        = existsb (fun k => Nat.eqb k id) (map key l)).
  { induction l as [|x l IH]; simpl; [reflexivity|]. now rewrite <- IH. }
  now rewrite !E, H.
Qed.

Lemma step_marks_app t t' :
  step_marks (t ++ t') = (step_marks t ++ step_marks t')%list.
Proof.
  induction t as [|[to e] t IH]; simpl; [reflexivity|].
  destruct e; simpl; now rewrite IH.
Qed.

Lemma count_complete_app t t' :
  count_complete (t ++ t') = (count_complete t + count_complete t')%nat.
Proof. unfold count_complete. now rewrite filter_app, length_app. Qed.

(** [simulateDeployment] does not throw on rows that are stored, and this
    is what it does. *)
Lemma simulateDeployment_spec dw u w :
  NoDup (map DeploymentStep.id (deployment_steps dw)) ->
  known (deployment_row dw) (deployment_steps dw) w ->
  exists w', simulateDeployment dw u w = (Ok tt, w') /\ run_post dw u w w'.
Proof.
  intros Hnd Hk. destruct dw as [d ss]. cbn [deployment_row deployment_steps] in *.
  rewrite simulateDeployment_start by apply Hk.
  cbn [deployment_row deployment_steps].
  set (fa := decided_failAtStep w (List.length ss)).
  set (st := clock w (clock_pos w)).
  destruct (run_steps_spec d u st fa ss Hnd 0%nat (after_start d u w))
    as (exit & w2 & Hrun & Hpost).
  { now apply known_after_start. }
  unfold bind at 1. rewrite Hrun.
  destruct Hpost as (P1 & (P2a & P2b & P2c & P2d) & (P3a & P3b)
                     & (new & P4a & P4b & P4c & P4d)
                     & P5 & P6 & P7 & P8 & P9 & P10 & P11).
  destruct Hk as [Hd Hsteps].
  destruct (has_key_find _ _ _ Hd) as [d0 Hd0].
  destruct (fails_within fa 0 (List.length ss)) eqn:Hf.
  - subst exit. exists w2. split; [reflexivity|].
    destruct (fails_within_index _ _ Hf) as (j & Hj & Hjfa).
    destruct (nth_error ss j) as [s|] eqn:Hnth;
      [|apply nth_error_None in Hnth; lia].
    destruct (P10 j s Hnth Hjfa) as [Q1 Q2].
    unfold after_start in Q2. cbn [clock_pos] in Q2.
    unfold run_post. cbn [deployment_row deployment_steps].
    fold fa. fold st. splits.
    + now rewrite P2a.
    + now rewrite P2b.
    + now rewrite P2c.
    + lia.
    + rewrite P3a. unfold after_start. wsimpl.
      apply update_rows_keys, deployment_apply_id.
    + now rewrite P3b.
    + exists new. splits; auto.
      rewrite P4a. unfold after_start. wsimpl. now rewrite <- app_assoc.
    + intros sid Hsid. now rewrite P5.
    + intros k s0 Hk Hlt. apply (P6 k s0 Hk). cbn. lia.
    + intros k s0 Hk He. apply (P7 k s0 Hk). cbn. lia.
    + intros k s0 Hk Hlt. rewrite (P8 k s0 Hk); [reflexivity | cbn; lia].
    + intros id Hid. unfold find_deployment. rewrite Q1.
      rewrite find_update_other by auto using deployment_apply_id.
      unfold after_start. wsimpl.
      now rewrite find_update_other by auto using deployment_apply_id.
    + unfold find_deployment. rewrite Q1.
      rewrite find_update_same by auto using deployment_apply_id.
      unfold after_start at 2. wsimpl.
      rewrite find_update_same by auto using deployment_apply_id.
      rewrite Hd0. cbn [option_map]. eexists. split; [reflexivity|]. splits.
      * cbn. unfold after_start. cbn [clock].
        replace (S (clock_pos w2 - 3)) with (clock_pos w2 - 2)%nat by lia.
        reflexivity.
      * congruence.
      * intros k s0 Hk He. assert (k = j) by lia. subst k.
        rewrite Hnth in Hk. injection Hk as <-.
        cbn. unfold after_start. cbn [clock]. auto.
    + intros s0 Hs0. destruct (P11 s0 Hs0) as (s' & G1 & G2).
      exists s'. split; [exact G1|]. rewrite G2. reflexivity.
  - subst exit.
    assert (Hd2 : has_key Deployment.id (Deployment.id d) (deployments (db w2))
                  = true).
    { rewrite (has_key_keys _ _ _ _ P3a). unfold after_start. wsimpl.
      rewrite has_key_update; auto using deployment_apply_id. }
    do 2 mstep. unfold bind at 1.
    rewrite deployment_update_ok by (wsimpl; exact Hd2). wsimpl.
    cbn [emit]. eexists. split; [reflexivity|].
    specialize (P9 eq_refl).
    unfold after_start in P2a, P2b, P2c, P2d, P3b, P9, P11.
    cbn [random clock next_id db clock_pos steps deployments]
      in P2a, P2b, P2c, P2d, P3b, P9, P11.
    unfold run_post. cbn [deployment_row deployment_steps].
    fold fa. fold st. wsimpl. splits.
    + exact P2a.
    + exact P2b.
    + exact P2c.
    + lia.
    + rewrite update_rows_keys by auto using deployment_apply_id.
      rewrite P9. apply update_rows_keys, deployment_apply_id.
    + exact P3b.
    + exists (new ++ [(to_user_room u,
                       deployment_complete (Deployment.id d) COMPLETED
                         "Deployment completed successfully!"
                         ((clock w2 (clock_pos w2) - st) / 1000)
                         (Some (serverInfo_of (Deployment.modpackName d))))])%list.
      splits.
      * rewrite P4a. unfold after_start. wsimpl.
        rewrite <- !app_assoc. reflexivity.
      * rewrite step_marks_app, P4b. cbn. apply app_nil_r.
      * rewrite count_complete_app, P4c. reflexivity.
      * apply Forall_app. split; [exact P4d|]. repeat constructor.
    + intros sid Hsid. unfold find_step. wsimpl. now apply P5.
    + intros k s0 Hk Hlt. unfold step_status_of, find_step. wsimpl.
      apply (P6 k s0 Hk). cbn. lia.
    + intros k s0 Hk He. exfalso.
      apply (fails_within_not _ _ k Hf); [|exact He].
      apply nth_error_Some. congruence.
    + intros k s0 Hk Hlt. unfold find_step in *. wsimpl.
      rewrite (P8 k s0 Hk); [reflexivity | cbn; lia].
    + intros id Hid. unfold find_deployment. wsimpl.
      rewrite find_update_other by auto using deployment_apply_id.
      rewrite P9.
      now rewrite find_update_other by auto using deployment_apply_id.
    + unfold find_deployment. wsimpl.
      rewrite find_update_same by auto using deployment_apply_id.
      rewrite P9.
      rewrite find_update_same by auto using deployment_apply_id.
      rewrite Hd0. cbn [option_map]. eexists. split; [reflexivity|]. splits.
      * cbn. rewrite P2b.
        replace (clock_pos w2 - 0)%nat with (clock_pos w2) by lia.
        reflexivity.
      * intros _. cbn. rewrite P2b.
        replace (clock_pos w2 - 0)%nat with (clock_pos w2) by lia. auto.
      * intros k s0 Hk He. exfalso.
        apply (fails_within_not _ _ k Hf); [|exact He].
        apply nth_error_Some. congruence.
    + intros s0 Hs0. unfold find_step in *. wsimpl. exact (P11 s0 Hs0).
Qed.

(** ** The start-deployment handler *)

Lemma nodupb_NoDup l : nodupb l = true -> NoDup l.
Proof.
  induction l as [|x l IH]; simpl; [constructor|].
  rewrite andb_true_iff, negb_true_iff. intros [Hx Hl].
  constructor; [|auto].
  intros Hin. assert (E : existsb (Nat.eqb x) l = true).
  { apply existsb_exists. exists x. split; [assumption | apply Nat.eqb_refl]. }
  congruence.
Qed.

Lemma wf_dbb_sound d : wf_dbb d = true -> wf_db d.
Proof.
  unfold wf_dbb, wf_db. rewrite !andb_true_iff, !forallb_forall.
  intros [[[[H1 H2] H3] H4] H5]. splits.
  - now apply nodupb_NoDup.
  - now apply nodupb_NoDup.
  - intros r Hr. apply Nat.ltb_lt. auto.
  - intros s Hs. apply Nat.ltb_lt. auto.
  - intros s Hs. apply (has_key_In Deployment.id). auto.
Qed.

Lemma find_deployment_In d id r :
  find_deployment d id = Some r -> In r (deployments d) /\ Deployment.id r = id.
Proof.
  unfold find_deployment. intros H. apply find_some in H.
  now rewrite Nat.eqb_eq in H.
Qed.

Lemma findFirst_owned d id u r :
  find_deployment d id = Some r -> Deployment.userId r = u ->
  find (fun x => Nat.eqb (Deployment.id x) id && Nat.eqb (Deployment.userId x) u)
       (deployments d) = Some r.
Proof.
  unfold find_deployment. intros H Hu.
  induction (deployments d) as [|x l IH]; simpl in *; [discriminate|].
  destruct (Nat.eqb (Deployment.id x) id); simpl.
  - injection H as ->. apply Nat.eqb_eq in Hu. now rewrite Hu.
  - auto.
Qed.

Lemma find_all_false {A} (f : A -> bool) (l : list A) :
  (forall y, In y l -> f y = false) -> find f l = None.
Proof.
  induction l as [|x l IH]; simpl; intros H; [reflexivity|].
  rewrite (H x) by now left. apply IH. intros y Hy. apply H. now right.
Qed.

Lemma findFirst_foreign d id u r :
  NoDup (map Deployment.id (deployments d)) ->
  find_deployment d id = Some r -> Deployment.userId r <> u ->
  find (fun x => Nat.eqb (Deployment.id x) id && Nat.eqb (Deployment.userId x) u)
       (deployments d) = None.
Proof.
  unfold find_deployment. intros Hnd H Hu.
  induction (deployments d) as [|x l IH]; simpl in *; [reflexivity|].
  inversion Hnd as [|? ? Hx Hl]; subst.
  destruct (Nat.eqb_spec (Deployment.id x) id) as [E|E]; simpl.
  - injection H as ->. apply Nat.eqb_neq in Hu. rewrite Hu.
    apply find_all_false. intros y Hy. apply andb_false_iff. left.
    apply Nat.eqb_neq. intros E'. apply Hx. rewrite E, <- E'. now apply in_map.
  - auto.
Qed.

Lemma known_with_steps w id r :
  find_deployment (db w) id = Some r ->
  known r (steps_of (db w) (Deployment.id r)) w.
Proof.
  intros H. apply find_deployment_In in H. destruct H as [Hin _]. split.
  - apply (has_key_In Deployment.id). now apply in_map.
  - intros s Hs. apply steps_of_In in Hs.
    apply (has_key_In DeploymentStep.id). apply in_map. tauto.
Qed.

Lemma skipn_new {A} (l new : list A) : skipn (List.length l) (l ++ new) = new.
Proof. induction l as [|x l IH]; simpl; [reflexivity | exact IH]. Qed.

(** A start signal for a deployment of the session's user runs it, and the
    run does not throw. *)
Lemma on_start_deployment_owned w sock id r :
  NoDup (map DeploymentStep.id (steps (db w))) ->
  find_deployment (db w) id = Some r ->
  Deployment.userId r = Socket.userId sock ->
  exists w',
    on_start_deployment sock id w = (Ok tt, w')
    /\ run_post (with_steps (db w) r) (Socket.userId sock) w w'.
Proof.
  intros Hnd Hfind Hu.
  destruct (simulateDeployment_spec (with_steps (db w) r) (Socket.userId sock) w)
    as (w' & Hrun & Hpost).
  - cbn. now apply steps_of_NoDup.
  - cbn. now apply known_with_steps with (id := id).
  - exists w'. split; [|exact Hpost].
    unfold on_start_deployment, try_catch, prisma_deployment_findFirst.
    unfold bind at 1. unfold bind at 1. cbn [get_db ret].
    rewrite (findFirst_owned _ _ _ _ Hfind Hu). cbn [option_map].
    now rewrite Hrun.
Qed.

(** A start signal for a deployment of another user, or for none, is
    answered with an error on the socket and changes nothing else. *)
Lemma on_start_deployment_not_found w sock id :
  find (fun x => Nat.eqb (Deployment.id x) id
                 && Nat.eqb (Deployment.userId x) (Socket.userId sock))
       (deployments (db w)) = None ->
  on_start_deployment sock id w
  = (Ok tt,
     mkWorld (db w)
       (emitted w ++ [(to_socket (Socket.id sock),
                       deployment_error "Deployment not found")])
       (random w) (random_pos w) (clock w) (clock_pos w)).
Proof.
  intros H.
  unfold on_start_deployment, try_catch, prisma_deployment_findFirst.
  unfold bind at 1. unfold bind at 1. cbn [get_db ret].
  rewrite H. reflexivity.
Qed.

(** ** Claims on the start signal *)

(** The handler at the payload of the frontend. *)
Lemma on_start_deployment_as_data sock id :
  on_start_deployment sock id
  = on_start_deployment_data sock (data_with (id_string id)).
Proof. reflexivity. Qed.

(** [existsb] says whether [find] finds. *)
Lemma find_existsb {A} (f : A -> bool) (l : list A) :
  existsb f l = match find f l with Some _ => true | None => false end.
Proof.
  induction l as [|x l IH]; simpl; [reflexivity|].
  destruct (f x); [reflexivity | exact IH].
Qed.

(** A payload that makes the handler throw: the [catch] answers. *)
Lemma on_start_deployment_data_thrown w sock data :
  match data with
  | data_nullish => True
  | data_with deploymentId => id_condition deploymentId = None
  end ->
  on_start_deployment_data sock data w
  = (Ok tt,
     mkWorld (db w)
       (emitted w ++ [(to_socket (Socket.id sock),
                       deployment_error "Failed to start deployment")])
       (random w) (random_pos w) (clock w) (clock_pos w)).
Proof.
  destruct data as [|f]; intros H.
  - reflexivity.
  - unfold on_start_deployment_data, try_catch, destructure_deploymentId,
      prisma_deployment_findFirst_where.
    unfold bind at 1. cbn [ret]. unfold bind at 1. rewrite H. reflexivity.
Qed.

(** A payload that Prisma accepts: the first matching deployment of the
    session's user is run. *)
Lemma on_start_deployment_data_found w sock f p :
  id_condition f = Some p ->
  on_start_deployment_data sock (data_with f) w
  = match find (fun r => p (Deployment.id r)
                         && Nat.eqb (Deployment.userId r) (Socket.userId sock))
               (deployments (db w)) with
    | None =>
        (Ok tt,
         mkWorld (db w)
           (emitted w ++ [(to_socket (Socket.id sock),
                           deployment_error "Deployment not found")])
           (random w) (random_pos w) (clock w) (clock_pos w))
    | Some r =>
        try_catch
          (simulateDeployment (with_steps (db w) r) (Socket.userId sock))
          (fun _ =>
             emit (to_socket (Socket.id sock))
                  (deployment_error "Failed to start deployment")) w
    end.
Proof.
  intros H.
  unfold on_start_deployment_data, try_catch, destructure_deploymentId,
    prisma_deployment_findFirst_where.
  unfold bind at 1. cbn [ret]. unfold bind at 1. rewrite H.
  unfold bind at 1. cbn [get_db ret].
  destruct (find _ (deployments (db w))); reflexivity.
Qed.

(** A run that breaks at its first step, whose row is not stored, leaves
    the deployment [RUNNING]: the status is written before the loop. *)
Lemma simulateDeployment_breaks r s ss u w :
  In r (deployments (db w)) ->
  NoDup (map Deployment.id (deployments (db w))) ->
  has_key DeploymentStep.id (DeploymentStep.id s) (steps (db w)) = false ->
  exists w1,
    simulateDeployment (mkWithSteps r (s :: ss)) u w = (Throw RecordNotFound, w1)
    /\ deployment_status_of (db w1) (Deployment.id r) = Some RUNNING
    /\ emitted w1
       = (emitted w
          ++ [(to_user_room u,
               deployment_status (Deployment.id r) RUNNING "Deployment started")])%list.
Proof.
  intros Hin Hnd Hs.
  rewrite simulateDeployment_start
    by (cbn; apply (has_key_In Deployment.id); now apply in_map).
  cbn [deployment_row deployment_steps run_steps].
  unfold bind at 1. unfold bind at 1. unfold bind at 1.
  cbn [Date_now]. unfold prisma_deploymentStep_update.
  unfold bind at 1. cbn [get_db db after_start steps]. rewrite Hs.
  cbn [throw]. eexists. split; [reflexivity|]. split.
  - unfold deployment_status_of, find_deployment. cbn [db deployments].
    rewrite (find_update_same Deployment.id _ (deployment_apply_id _)).
    rewrite (find_key_In Deployment.id _ r Hnd Hin). reflexivity.
  - reflexivity.
Qed.

(** The cases of a start signal with any payload, on a well-formed store:
    the store is left as it is, or a deployment of the session's user is
    run. *)
Lemma on_start_deployment_data_cases w sock data :
  wf_db (db w) ->
  db (snd (on_start_deployment_data sock data w)) = db w
  \/ exists r w',
       In r (deployments (db w))
       /\ Deployment.userId r = Socket.userId sock
       /\ on_start_deployment_data sock data w = (Ok tt, w')
       /\ run_post (with_steps (db w) r) (Socket.userId sock) w w'.
Proof.
  intros Hwf.
  destruct data as [|f];
    [left; now rewrite on_start_deployment_data_thrown|].
  destruct (id_condition f) as [p|] eqn:Hp;
    [|left; now rewrite on_start_deployment_data_thrown].
  rewrite (on_start_deployment_data_found w sock f p Hp).
  destruct (find _ (deployments (db w))) as [r|] eqn:Hfind; [|now left].
  right. apply find_some in Hfind. destruct Hfind as [Hin Hpr].
  apply andb_true_iff in Hpr. destruct Hpr as [_ Hu]. apply Nat.eqb_eq in Hu.
  assert (Hfd : find_deployment (db w) (Deployment.id r) = Some r).
  { apply (find_key_In Deployment.id); [apply Hwf | exact Hin]. }
  destruct (simulateDeployment_spec (with_steps (db w) r)
              (Socket.userId sock) w) as (w' & Hrun & Hpost).
  { cbn. apply steps_of_NoDup, Hwf. }
  { cbn. now apply known_with_steps with (id := Deployment.id r). }
  exists r, w'. splits; auto. unfold try_catch. now rewrite Hrun.
Qed.

(** C7, as the code has it: a start signal from a session whose user is
    not the owner of the deployment is rejected, and the rejection is an
    event: exactly one event is emitted, the error "Deployment not found",
    to the requesting socket.  The store is unchanged, so the deployment
    keeps its status and its steps; no progress event is emitted and
    nothing is sent to the room of a user.  Whatever the payload of a
    start signal of that session, the deployment and its steps are found
    as they were. *)
Theorem start_by_other_user_rejected (w : World) (sock : Socket.t) (id : Id)
    (r : Deployment.t) :
  wf_db (db w) ->
  find_deployment (db w) id = Some r ->
  Deployment.userId r <> Socket.userId sock ->
  let w' := handle (start_deployment sock id) w in
  db w' = db w
  /\ deployment_status_of (db w') id = Some (Deployment.status r)
  /\ new_emissions w w'
     = [(to_socket (Socket.id sock), deployment_error "Deployment not found")]
  /\ filter is_progress (new_emissions w w') = []
  /\ filter is_broadcast (new_emissions w w') = []
  /\ (forall data : StartData,
        let w2 := handle (start_deployment_data sock data) w in
        find_deployment (db w2) id = Some r
        /\ forall sid s, find_step (db w) sid = Some s ->
                         DeploymentStep.deploymentId s = id ->
                         find_step (db w2) sid = Some s).
Proof.
  intros Hwf Hfind Hu w'. subst w'. cbn [handle].
  rewrite on_start_deployment_not_found
    by (eapply findFirst_foreign; eauto; apply Hwf).
  cbn [snd db]. unfold new_emissions. cbn [emitted]. rewrite skipn_new.
  splits; try reflexivity.
  - unfold deployment_status_of. now rewrite Hfind.
  - intros data.
    destruct (on_start_deployment_data_cases w sock data Hwf)
      as [E | (r0 & w' & Hin & Hown & E & Hpost)].
    + rewrite E. now split.
    + rewrite E. cbn [snd].
      destruct Hpost as (_ & _ & _ & Hsteps & _ & _ & _ & Hothers & _).
      cbn [with_steps deployment_row deployment_steps] in Hsteps, Hothers.
      assert (Hne : id <> Deployment.id r0).
      { intros ->. apply Hu. rewrite <- Hown.
        assert (X : find_deployment (db w) (Deployment.id r0) = Some r0)
          by (apply (find_key_In Deployment.id); [apply Hwf | exact Hin]).
        congruence. }
      split.
      * now rewrite Hothers.
      * intros sid s Hs Hd. rewrite Hsteps; [exact Hs|].
        intros Hin'. apply in_map_iff in Hin'.
        destruct Hin' as (s' & Hsid & Hs').
        apply steps_of_In in Hs'. destruct Hs' as [Hs' Hd'].
        apply find_some in Hs. destruct Hs as [Hs Hk]. apply Nat.eqb_eq in Hk.
        assert (s = s').
        { apply (same_key_same_row DeploymentStep.id (steps (db w)));
            [apply Hwf | assumption | assumption | congruence]. }
        congruence.
Qed.

Lemma findFirst_missing d id u :
  find_deployment d id = None ->
  find (fun x => Nat.eqb (Deployment.id x) id && Nat.eqb (Deployment.userId x) u)
       (deployments d) = None.
Proof.
  unfold find_deployment. intros H. apply find_all_false. intros y Hy.
  now rewrite (find_none _ _ H y Hy).
Qed.

(** C1, as the code has it: the status of the deployment is not looked
    at.  The signal is answered with "Failed to start deployment" when the
    payload is [undefined] or [null] or Prisma rejects its [deploymentId],
    and with "Deployment not found" exactly when the session's user owns
    no deployment that matches the [deploymentId]; the store is unchanged
    in both cases.  Otherwise a matching deployment of the session's user
    is run, whatever its status: it is stored as [RUNNING] and this is
    broadcast first, the loop starts from that store (a run that breaks
    at its first step leaves the deployment [RUNNING]), every step up to
    the failing one is announced and stored again, a step after it keeps
    its status, and the deployment ends [COMPLETED] or [FAILED] with a
    new duration.  The signal of the frontend is the one with the payload
    [{ deploymentId }]. *)
Theorem start_ignores_status (w : World) (sock : Socket.t) (data : StartData) :
  wf_db (db w) ->
  let u := Socket.userId sock in
  let w' := handle (start_deployment_data sock data) w in
  let rejected := fun message =>
    db w' = db w
    /\ new_emissions w w'
       = [(to_socket (Socket.id sock), deployment_error message)] in
  (forall id,
      handle (start_deployment sock id) w
      = handle (start_deployment_data sock (data_with (id_string id))) w)
  /\ match data with
     | data_nullish => rejected "Failed to start deployment"
     | data_with deploymentId =>
         match id_condition deploymentId with
         | None => rejected "Failed to start deployment"
         | Some p =>
             if existsb (fun r => p (Deployment.id r)
                                  && Nat.eqb (Deployment.userId r) u)
                        (deployments (db w))
             then
               exists r,
                 In r (deployments (db w))
                 /\ p (Deployment.id r) = true
                 /\ Deployment.userId r = u
                 /\ let id := Deployment.id r in
                    let ss := steps_of (db w) id in
                    let fa := decided_failAtStep w (List.length ss) in
                    let w1 := after_start r u w in
                    deployment_status_of (db w1) id = Some RUNNING
                    /\ run_from_loop (with_steps (db w) r) u
                         (clock w (clock_pos w)) fa w1 = (Ok tt, w')
                    /\ (forall s ss',
                          has_key DeploymentStep.id (DeploymentStep.id s)
                                  (steps (db w)) = false ->
                          exists w2,
                            simulateDeployment (mkWithSteps r (s :: ss')) u w
                            = (Throw RecordNotFound, w2)
                            /\ deployment_status_of (db w2) id = Some RUNNING)
                    /\ (exists new,
                          new_emissions w w'
                          = (to_user_room u,
                             deployment_status id RUNNING "Deployment started")
                            :: new
                          /\ step_marks new = expected_marks fa 0 ss
                          /\ Forall (fun e => is_progress e = true) new)
                    /\ (forall j s, nth_error ss j = Some s ->
                          step_status_of (db w') (DeploymentStep.id s)
                          = if (fa <? 0) || (Z.of_nat j <? fa)
                            then Some COMPLETED
                            else if Z.of_nat j =? fa then Some FAILED
                            else step_status_of (db w) (DeploymentStep.id s))
                    /\ exists r',
                         find_deployment (db w') id = Some r'
                         /\ Deployment.status r'
                            = (if fails_within fa 0 (List.length ss)
                               then FAILED else COMPLETED)
                         /\ Deployment.duration r'
                            = Some ((clock w (clock_pos w' - 2)
                                     - clock w (clock_pos w)) / 1000)
             else rejected "Deployment not found"
         end
     end.
Proof.
  intros Hwf u w' rejected.
  split; [reflexivity|].
  assert (Hthrown :
            match data with
            | data_nullish => True
            | data_with f => id_condition f = None
            end -> rejected "Failed to start deployment").
  { intros H. subst rejected w'. cbn [handle].
    rewrite on_start_deployment_data_thrown by exact H.
    cbn [snd db]. unfold new_emissions. cbn [emitted]. rewrite skipn_new.
    now split. }
  destruct data as [|f]; [now apply Hthrown|].
  destruct (id_condition f) as [p|] eqn:Hp; [|now apply Hthrown].
  clear Hthrown. rewrite find_existsb.
  subst rejected w'. cbn [handle]. cbv beta.
  rewrite (on_start_deployment_data_found w sock f p Hp). fold u.
  destruct (find _ (deployments (db w))) as [r|] eqn:Hfind.
  2:{ cbn [snd db]. unfold new_emissions. cbn [emitted]. rewrite skipn_new.
      now split. }
  apply find_some in Hfind. destruct Hfind as [Hin Hpr].
  apply andb_true_iff in Hpr. destruct Hpr as [Hpid Hu].
  apply Nat.eqb_eq in Hu.
  assert (Hfd : find_deployment (db w) (Deployment.id r) = Some r).
  { apply (find_key_In Deployment.id); [apply Hwf | exact Hin]. }
  destruct (simulateDeployment_spec (with_steps (db w) r) u w)
    as (w' & Hrun & Hpost).
  { cbn. apply steps_of_NoDup, Hwf. }
  { cbn. now apply known_with_steps with (id := Deployment.id r). }
  unfold try_catch. rewrite Hrun. cbn [snd].
  exists r. splits; auto.
  - unfold deployment_status_of, find_deployment, after_start. wsimpl.
    rewrite (find_update_same Deployment.id _ (deployment_apply_id _)).
    unfold find_deployment in Hfd. now rewrite Hfd.
  - rewrite <- Hrun. symmetry. apply simulateDeployment_start.
    apply (has_key_In Deployment.id). now apply in_map.
  - intros s ss' Hs.
    destruct (simulateDeployment_breaks r s ss' u w Hin (proj1 Hwf) Hs)
      as (w2 & B1 & B2 & _).
    exists w2. now split.
  - destruct Hpost as (_ & _ & (new & E1 & E2 & _ & E4) & _).
    cbn [with_steps deployment_row deployment_steps] in *.
    exists new. unfold new_emissions. rewrite E1, skipn_new. splits; auto.
    eapply Forall_impl; [|exact E4]. now intros e [_ He].
  - destruct Hpost as (_ & _ & _ & _ & P6 & P7 & P8 & _).
    cbn [with_steps deployment_row deployment_steps] in *.
    intros j s Hj.
    set (fa := decided_failAtStep w
                 (List.length (steps_of (db w) (Deployment.id r)))) in *.
    destruct (fa <? 0) eqn:E0; cbn [orb].
    { apply Z.ltb_lt in E0. apply (P6 j s Hj). now left. }
    apply Z.ltb_ge in E0.
    destruct (Z.of_nat j <? fa) eqn:E1.
    { apply Z.ltb_lt in E1. apply (P6 j s Hj). now right. }
    apply Z.ltb_ge in E1.
    destruct (Z.of_nat j =? fa) eqn:E2.
    + apply Z.eqb_eq in E2. destruct (P7 j s Hj E2) as (s' & F1 & F2 & _).
      unfold step_status_of. rewrite F1. cbn. now rewrite F2.
    + apply Z.eqb_neq in E2. unfold step_status_of.
      rewrite (P8 j s Hj); [reflexivity | lia].
  - destruct Hpost as (_ & _ & _ & _ & _ & _ & _ & _ & (r' & F1 & F2 & F3 & F4) & _).
    cbn [with_steps deployment_row deployment_steps] in *.
    exists r'. splits; [assumption| |assumption].
    destruct (fails_within _ 0 _) eqn:Hf.
    + destruct (fails_within_index _ _ Hf) as (j & Hj & Hjfa).
      destruct (nth_error (steps_of (db w) (Deployment.id r)) j) as [s|] eqn:Hnth;
        [|apply nth_error_None in Hnth; lia].
      now destruct (F4 j s Hnth Hjfa).
    + now destruct (F3 eq_refl).
Qed.

(** C2, as the code has it: failure injected at step [k]: the steps
    before [k] are [COMPLETED], step [k] is [FAILED] with its three log
    entries, and the deployment is [FAILED] with an error message that
    names step [k].  The run does not touch the steps after [k]: their
    rows are as before the run, so they are [PENDING] when they were
    (the first run of a deployment), and keep the status of an earlier
    run otherwise. *)
Theorem partial_failure (w : World) (sock : Socket.t) (id : Id)
    (r : Deployment.t) (k : nat) (sk : DeploymentStep.t) :
  wf_db (db w) ->
  find_deployment (db w) id = Some r ->
  Deployment.userId r = Socket.userId sock ->
  let ss := steps_of (db w) id in
  decided_failAtStep w (List.length ss) = Z.of_nat k ->
  nth_error ss k = Some sk ->
  let w' := handle (start_deployment sock id) w in
  (forall j s, (j < k)%nat -> nth_error ss j = Some s ->
     step_status_of (db w') (DeploymentStep.id s) = Some COMPLETED)
  /\ (exists sk', find_step (db w') (DeploymentStep.id sk) = Some sk'
                  /\ DeploymentStep.status sk' = FAILED
                  /\ DeploymentStep.logs sk' = Some failure_logs
                  /\ failure_logs <> [])
  /\ (forall j s, (k < j)%nat -> nth_error ss j = Some s ->
        find_step (db w') (DeploymentStep.id s) = Some s
        /\ step_status_of (db w') (DeploymentStep.id s)
           = Some (DeploymentStep.status s))
  /\ ((forall s, In s ss -> DeploymentStep.status s = PENDING) ->
      forall j s, (k < j)%nat -> nth_error ss j = Some s ->
        step_status_of (db w') (DeploymentStep.id s) = Some PENDING)
  /\ (exists r', find_deployment (db w') id = Some r'
                 /\ Deployment.status r' = FAILED
                 /\ Deployment.errorMsg r'
                    = Some ("Deployment failed at step: "
                            ++ DeploymentStep.name sk)%string).
Proof.
  intros Hwf Hfind Hu ss Hfa Hsk w'. subst w'. cbn [handle].
  destruct (on_start_deployment_owned w sock id r) as (w' & Hrun & Hpost);
    [apply Hwf | assumption | assumption |].
  rewrite Hrun. cbn [snd].
  destruct (find_deployment_In _ _ _ Hfind) as [_ Hid].
  destruct Hpost as (_ & _ & _ & _ & P6 & P7 & P8 & _
                     & (r' & F1 & _ & _ & F4) & _).
  cbn [with_steps deployment_row deployment_steps] in *. rewrite Hid in *.
  fold ss in P6, P7, P8, F4. rewrite Hfa in *.
  assert (Hkept : forall j s, (k < j)%nat -> nth_error ss j = Some s ->
            find_step (db w') (DeploymentStep.id s) = Some s).
  { intros j s Hj Hnth. rewrite (P8 j s Hnth) by lia.
    assert (Hin : In s ss) by (eapply nth_error_In; eauto).
    apply find_key_In; [apply Hwf|]. apply steps_of_In in Hin. tauto. }
  splits.
  - intros j s Hj Hnth. apply (P6 j s Hnth). lia.
  - destruct (P7 k sk Hsk eq_refl) as (sk' & G1 & G2 & G3).
    exists sk'. splits; auto. discriminate.
  - intros j s Hj Hnth. unfold step_status_of.
    rewrite (Hkept j s Hj Hnth). now split.
  - intros Hpending j s Hj Hnth. unfold step_status_of.
    rewrite (Hkept j s Hj Hnth). cbn. rewrite Hpending; [reflexivity|].
    eapply nth_error_In; eauto.
  - exists r'. destruct (F4 k sk Hsk eq_refl) as (G1 & G2 & _). auto.
Qed.

(** ** Traces of a run *)

Lemma expected_marks_trace fa rest i : run_trace rest (expected_marks fa i rest).
Proof.
  revert i. induction rest as [|s rest IH]; intros i; cbn [expected_marks].
  - constructor.
  - destruct (Z.of_nat i =? fa); constructor. apply IH.
Qed.

Lemma fails_within_nil fa i : fails_within fa i 0 = false.
Proof.
  unfold fails_within. replace (i + 0)%nat with i by lia.
  destruct (Z.leb_spec (Z.of_nat i) fa); [apply Z.ltb_ge; lia | reflexivity].
Qed.

Lemma expected_marks_failed fa rest i :
  List.length (filter is_failed_mark (expected_marks fa i rest))
  = if fails_within fa i (List.length rest) then 1%nat else 0%nat.
Proof.
  revert i. induction rest as [|s rest IH]; intros i;
    cbn [expected_marks List.length].
  - now rewrite fails_within_nil.
  - destruct (Z.eqb_spec (Z.of_nat i) fa) as [E|E].
    + now rewrite fails_within_here.
    + rewrite fails_within_skip by assumption. cbn. apply IH.
Qed.

Lemma expected_marks_In fa rest i m :
  In m (expected_marks fa i rest) ->
  exists s, In s rest /\ fst m = DeploymentStep.id s.
Proof.
  revert i. induction rest as [|s rest IH]; intros i; cbn [expected_marks].
  - intros [].
  - intros [<-|H]; [exists s; split; [now left | reflexivity]|].
    destruct (Z.of_nat i =? fa).
    + destruct H as [<-|[]]. exists s. split; [now left | reflexivity].
    + destruct H as [<-|H]; [exists s; split; [now left | reflexivity]|].
      destruct (IH _ H) as (s' & Hs' & E). exists s'. split; [now right | exact E].
Qed.

Lemma expected_marks_sorted d fa rest :
  StronglySorted (fun a b => order_asc a b = true) rest ->
  (forall s, In s rest -> find_step d (DeploymentStep.id s) = Some s) ->
  forall i, StronglySorted Z.le (map (order_of d) (expected_marks fa i rest)).
Proof.
  induction 1 as [|s rest Hs IH Hle]; intros Hfind i; cbn [expected_marks map].
  - constructor.
  - assert (Hs0 : forall st, order_of d (DeploymentStep.id s, st)
                             = DeploymentStep.order s).
    { intros st. unfold order_of. cbn [fst]. now rewrite Hfind by now left. }
    assert (Htail : Forall (Z.le (DeploymentStep.order s))
                      (map (order_of d) (expected_marks fa (S i) rest))).
    { apply Forall_forall. intros o Ho. apply in_map_iff in Ho.
      destruct Ho as (m & <- & Hm).
      destruct (expected_marks_In _ _ _ _ Hm) as (s' & Hs' & E).
      unfold order_of. rewrite E, Hfind by now right.
      rewrite Forall_forall in Hle. specialize (Hle s' Hs').
      unfold order_asc in Hle. now apply Z.leb_le in Hle. }
    destruct (Z.of_nat i =? fa); cbn [map]; rewrite !Hs0.
    + repeat constructor. lia.
    + constructor; [constructor|].
      * apply IH. intros s' Hs'. apply Hfind. now right.
      * exact Htail.
      * constructor; [lia | exact Htail].
Qed.

(** C8: the step-update events of a run follow the steps in the order of
    their indices: each step is announced [RUNNING], then [COMPLETED] or
    [FAILED], before the next step is announced; the order indices of
    the events never decrease; and the run emits [deployment-complete]
    once. *)
Theorem step_events_ordered (w : World) (sock : Socket.t) (id : Id)
    (r : Deployment.t) :
  wf_db (db w) ->
  find_deployment (db w) id = Some r ->
  Deployment.userId r = Socket.userId sock ->
  let w' := handle (start_deployment sock id) w in
  let marks := step_marks (new_emissions w w') in
  run_trace (steps_of (db w) id) marks
  /\ Sorted Z.le (map (order_of (db w)) marks)
  /\ count_complete (new_emissions w w') = 1%nat.
Proof.
  intros Hwf Hfind Hu w' marks. subst marks w'. cbn [handle].
  destruct (on_start_deployment_owned w sock id r) as (w' & Hrun & Hpost);
    [apply Hwf | assumption | assumption |].
  rewrite Hrun. cbn [snd].
  destruct (find_deployment_In _ _ _ Hfind) as [_ Hid].
  destruct Hpost as (_ & _ & (new & E1 & E2 & E3 & _) & _).
  cbn [with_steps deployment_row deployment_steps] in *. rewrite Hid in *.
  unfold new_emissions. rewrite E1, skipn_new.
  cbn [step_marks]. rewrite E2. splits.
  - apply expected_marks_trace.
  - apply StronglySorted_Sorted, expected_marks_sorted.
    + apply steps_of_sorted.
    + intros s Hs. apply find_key_In; [apply Hwf|].
      apply steps_of_In in Hs. tauto.
  - exact E3.
Qed.

(** The threshold of the comparison is the double next to 1/5. *)
Lemma failure_chance_is_one_fifth :
  (1 # 5 < failure_chance)%Q
  /\ (failure_chance < (1 # 5) + (1 # 36028797018963968))%Q.
Proof. split; reflexivity. Qed.

Lemma failure_chance_is_double : failure_chance = double_of (1 # 5).
Proof. vm_compute. reflexivity. Qed.

(** The rounding of the product shows: for this draw and seven steps the
    product is rounded up to 4, and the step at index 4 fails, where the
    exact product is below 4. *)
Lemma rounded_product_selects :
  let r := (2573485501354569 # 4503599627370496)%Q in
  is_random r
  /\ Qfloor (double_mul r (inject_Z 7)) = 4
  /\ Qfloor (r * inject_Z 7) = 3.
Proof.
  unfold is_random, is_double. repeat split;
    vm_compute; first [reflexivity | discriminate].
Qed.

(** [Math.floor(Math.random() * n)] is an index below [n]. *)
Lemma drawn_index_in_range (r : Q) (n : nat) :
  is_random r -> (0 < n)%nat ->
  0 <= Qfloor (double_mul r (inject_Z (Z.of_nat n))) < Z.of_nat n.
Proof.
  intros Hr Hn. pose proof (random_below_one r Hr) as Hr1.
  destruct Hr as (_ & H0 & _).
  assert (P53 : (pow2 (-53) == 1 # 9007199254740992)%Q) by reflexivity.
  assert (P52 : (pow2 (-52) == 1 # 4503599627370496)%Q) by reflexivity.
  set (N := inject_Z (Z.of_nat n)) in *.
  assert (HN : (1 <= N)%Q).
  { unfold N. change 1%Q with (inject_Z 1). rewrite <- Zle_Qle. lia. }
  unfold double_mul. set (x := (r * N)%Q).
  assert (Hx0 : (0 <= x)%Q) by (apply Qmult_le_0_compat; lra).
  assert (Hx1 : (x <= (1 - pow2 (-53)) * N)%Q).
  { unfold x. apply Qmult_le_compat_r; lra. }
  split.
  - change 0 with (Qfloor 0). apply Qfloor_resp_le. now apply double_of_nonneg.
  - rewrite Zlt_Qlt. fold N. eapply Qle_lt_trans; [apply Qfloor_le|].
    destruct (Qeq_dec x 0) as [E|E].
    + unfold double_of. apply Qeq_bool_iff in E. rewrite E. lra.
    + assert (Hx : (0 < x)%Q) by lra.
      destruct (double_of_near x) as [_ Hup].
      destruct (last_place_cases x Hx) as [Hu | [Hlp Hsmall]].
      * change (pow2 (-52)) with (1 # 4503599627370496)%Q in Hu.
        change (pow2 (-53)) with (1 # 9007199254740992)%Q in Hx1.
        lra.
      * rewrite Hlp in Hup.
        assert (A : (pow2 (-1074) <= pow2 (-1))%Q) by (apply pow2_le; lia).
        assert (B : (pow2 (-1021) <= pow2 (-1))%Q) by (apply pow2_le; lia).
        change (pow2 (-1)) with (1 # 2)%Q in A, B. lra.
Qed.

Lemma decided_failAtStep_fails w n :
  Qltb (random w (random_pos w)) failure_chance = true ->
  is_random (random w (S (random_pos w))) ->
  (0 < n)%nat ->
  fails_within (decided_failAtStep w n) 0 n = true.
Proof.
  intros Hr H0 Hn. unfold decided_failAtStep. rewrite Hr.
  destruct (drawn_index_in_range _ n H0 Hn) as [L U].
  unfold fails_within. apply andb_true_iff. split.
  - now apply Z.leb_le.
  - now apply Z.ltb_lt.
Qed.

(** C6: the failure is decided by the first two draws of the run, before
    the loop: the step events and the final status are those of the
    index [decided_failAtStep]; the draws made in the loop do not matter;
    at most one step is announced [FAILED]; a first draw of 0.2 or more
    means that no step fails, and a first draw below 0.2 that a step of
    a plan that is not empty fails, the second draw being a double in
    [0, 1): [Math.floor] of its rounded product with the number of steps
    is then an index of the plan. *)
Theorem failure_decided_once (w : World) (sock : Socket.t) (id : Id)
    (r : Deployment.t) :
  wf_db (db w) ->
  find_deployment (db w) id = Some r ->
  Deployment.userId r = Socket.userId sock ->
  let ss := steps_of (db w) id in
  let fa := decided_failAtStep w (List.length ss) in
  let marks := fun w0 =>
    step_marks (new_emissions w0 (handle (start_deployment sock id) w0)) in
  let w' := handle (start_deployment sock id) w in
  marks w = expected_marks fa 0 ss
  /\ (List.length (filter is_failed_mark (marks w)) <= 1)%nat
  /\ deployment_status_of (db w') id
     = Some (if fails_within fa 0 (List.length ss) then FAILED else COMPLETED)
  /\ (Qltb (random w (random_pos w)) failure_chance = false ->
      filter is_failed_mark (marks w) = []
      /\ deployment_status_of (db w') id = Some COMPLETED)
  /\ (Qltb (random w (random_pos w)) failure_chance = true ->
      is_random (random w (S (random_pos w))) ->
      ss <> [] ->
      List.length (filter is_failed_mark (marks w)) = 1%nat
      /\ deployment_status_of (db w') id = Some FAILED)
  /\ (forall w2 : World,
        db w2 = db w ->
        random w2 (random_pos w2) = random w (random_pos w) ->
        random w2 (S (random_pos w2)) = random w (S (random_pos w)) ->
        marks w2 = marks w
        /\ deployment_status_of (db (handle (start_deployment sock id) w2)) id
           = deployment_status_of (db w') id).
Proof.
  intros Hwf Hfind Hu ss fa marks w'.
  assert (Hgen : forall w0, db w0 = db w ->
            marks w0 = expected_marks
                         (decided_failAtStep w0 (List.length ss)) 0 ss
            /\ deployment_status_of
                 (db (handle (start_deployment sock id) w0)) id
               = Some (if fails_within
                            (decided_failAtStep w0 (List.length ss)) 0
                            (List.length ss)
                       then FAILED else COMPLETED)).
  { intros w0 Hdb. subst marks. cbn beta. cbn [handle].
    destruct (on_start_deployment_owned w0 sock id r) as (w0' & Hrun & Hpost);
      [rewrite Hdb; apply Hwf | now rewrite Hdb | assumption |].
    rewrite Hrun. cbn [snd].
    destruct (find_deployment_In _ _ _ Hfind) as [_ Hid].
    destruct Hpost as (_ & _ & (new & E1 & E2 & _) & _ & _ & _ & _ & _
                       & (r' & F1 & _ & F3 & F4) & _).
    cbn [with_steps deployment_row deployment_steps] in *.
    rewrite Hid, Hdb in *. fold ss in E2, F3, F4 |- *.
    unfold new_emissions. rewrite E1, skipn_new. cbn [step_marks].
    split; [exact E2|].
    unfold deployment_status_of. rewrite F1. cbn [option_map]. f_equal.
    destruct (fails_within _ 0 (List.length ss)) eqn:Hf.
    - destruct (fails_within_index _ _ Hf) as (j & Hj & Hjfa).
      destruct (nth_error ss j) as [s|] eqn:Hnth;
        [|apply nth_error_None in Hnth; lia].
      now destruct (F4 j s Hnth Hjfa).
    - now destruct (F3 eq_refl). }
  destruct (Hgen w eq_refl) as [M1 M2]. fold fa in M1, M2. fold w' in M2.
  splits.
  - exact M1.
  - rewrite M1, expected_marks_failed.
    destruct (fails_within fa 0 (List.length ss)); lia.
  - exact M2.
  - intros Hr.
    assert (Hfa : fa = -1) by (subst fa; unfold decided_failAtStep; now rewrite Hr).
    assert (Hf : fails_within fa 0 (List.length ss) = false)
      by (rewrite Hfa; reflexivity).
    split.
    + pose proof (expected_marks_failed fa ss 0) as L. rewrite Hf in L.
      rewrite M1. now apply length_zero_iff_nil.
    + rewrite M2. now rewrite Hf.
  - intros Hr H0 Hss.
    assert (Hf : fails_within fa 0 (List.length ss) = true).
    { apply decided_failAtStep_fails; auto.
      destruct ss; [congruence | cbn; lia]. }
    split.
    + rewrite M1, expected_marks_failed. now rewrite Hf.
    + rewrite M2. now rewrite Hf.
  - intros w2 Hdb H0 H1. destruct (Hgen w2 Hdb) as [N1 N2].
    assert (E : decided_failAtStep w2 (List.length ss) = fa).
    { subst fa. unfold decided_failAtStep. now rewrite H0, H1. }
    rewrite E in N1, N2. split; congruence.
Qed.

(** C9, as the code has it: the persisted duration is the span from the
    first reading of the clock in the run ([startTime], read on entry,
    before the deployment is marked [RUNNING]) to the reading made for
    the terminal update, in whole seconds rounded down.  The start of the
    first step is the next reading of the clock. *)
Theorem duration_from_run_start (w : World) (sock : Socket.t) (id : Id)
    (r : Deployment.t) :
  wf_db (db w) ->
  find_deployment (db w) id = Some r ->
  Deployment.userId r = Socket.userId sock ->
  let w' := handle (start_deployment sock id) w in
  let startTime := clock w (clock_pos w) in
  let terminal := clock w (clock_pos w' - 2) in
  (clock_pos w + 3 <= clock_pos w')%nat
  /\ (exists r', find_deployment (db w') id = Some r'
                 /\ (Deployment.status r' = COMPLETED
                     \/ Deployment.status r' = FAILED)
                 /\ Deployment.duration r' = Some ((terminal - startTime) / 1000))
  /\ (forall s, nth_error (steps_of (db w) id) 0 = Some s ->
        exists s', find_step (db w') (DeploymentStep.id s) = Some s'
                   /\ DeploymentStep.startedAt s'
                      = Some (clock w (S (clock_pos w)))).
Proof.
  intros Hwf Hfind Hu w' startTime terminal. subst w' startTime terminal.
  cbn [handle].
  destruct (on_start_deployment_owned w sock id r) as (w' & Hrun & Hpost);
    [apply Hwf | assumption | assumption |].
  rewrite Hrun. cbn [snd].
  destruct (find_deployment_In _ _ _ Hfind) as [_ Hid].
  destruct Hpost as ((_ & _ & _ & C) & _ & _ & _ & _ & _ & _ & _
                     & (r' & F1 & F2 & F3 & F4) & S1).
  cbn [with_steps deployment_row deployment_steps] in *. rewrite Hid in *.
  splits.
  - exact C.
  - exists r'. splits; [assumption| |assumption].
    destruct (fails_within (decided_failAtStep w
                (List.length (steps_of (db w) id))) 0
                (List.length (steps_of (db w) id))) eqn:Hf.
    + right. destruct (fails_within_index _ _ Hf) as (j & Hj & Hjfa).
      destruct (nth_error (steps_of (db w) id) j) as [s|] eqn:Hnth;
        [|apply nth_error_None in Hnth; lia].
      now destruct (F4 j s Hnth Hjfa).
    + left. now destruct (F3 eq_refl).
  - exact S1.
Qed.

(** ** Invariants of the interface *)

(** Updates that keep a projection keep its column. *)
Lemma update_rows_proj {A B} (key : A -> Id) (g : A -> B) (f : A -> A) id rows :
  (forall r, g (f r) = g r) ->
  map g (update_rows key id f rows) = map g rows.
Proof.
  intros Hg. unfold update_rows. rewrite map_map. apply map_ext.
  intros r. now destruct (Nat.eqb (key r) id).
Qed.

Lemma forall_In_map {A B} (g : A -> B) (P : B -> Prop) (l : list A) :
  (forall r, In r l -> P (g r)) <-> Forall P (map g l).
Proof.
  rewrite Forall_forall. split.
  - intros H b Hb. apply in_map_iff in Hb. destruct Hb as (r & <- & Hr). auto.
  - intros H r Hr. apply H. now apply in_map.
Qed.

(** [wf_db] looks at the key columns and the counter only. *)
Lemma wf_db_same_keys d d' :
  map Deployment.id (deployments d') = map Deployment.id (deployments d) ->
  map DeploymentStep.id (steps d') = map DeploymentStep.id (steps d) ->
  map DeploymentStep.deploymentId (steps d')
  = map DeploymentStep.deploymentId (steps d) ->
  next_id d' = next_id d ->
  wf_db d -> wf_db d'.
Proof.
  unfold wf_db. intros E1 E2 E3 E4.
  rewrite !(forall_In_map Deployment.id (fun i => (i < _)%nat)).
  rewrite !(forall_In_map DeploymentStep.id (fun i => (i < _)%nat)).
  rewrite !(forall_In_map DeploymentStep.deploymentId (fun i => In i _)).
  now rewrite E1, E2, E3, E4.
Qed.

Lemma wf_empty_db : wf_db empty_db.
Proof. unfold wf_db, empty_db. cbn. splits; try constructor; intros ? []. Qed.

Lemma no_new_cancelled_same d d' :
  deployments d' = deployments d -> no_new_cancelled d d'.
Proof.
  intros E id. unfold deployment_status_of, find_deployment. now rewrite E.
Qed.

Lemma no_new_cancelled_trans d1 d2 d3 :
  no_new_cancelled d1 d2 -> no_new_cancelled d2 d3 -> no_new_cancelled d1 d3.
Proof. unfold no_new_cancelled. auto. Qed.

Lemma find_app_first {A} (f : A -> bool) (l l' : list A) :
  find f (l ++ l')
  = match find f l with Some x => Some x | None => find f l' end.
Proof.
  induction l as [|x l IH]; simpl; [reflexivity|]. now destruct (f x).
Qed.

Lemma find_filter_other {A} (key : A -> Id) id id' (l : list A) :
  id' <> id ->
  find (fun r => Nat.eqb (key r) id')
       (filter (fun r => negb (Nat.eqb (key r) id)) l)
  = find (fun r => Nat.eqb (key r) id') l.
Proof.
  intros Hne. induction l as [|x l IH]; simpl; [reflexivity|].
  destruct (Nat.eqb_spec (key x) id) as [E|E]; simpl.
  - rewrite IH. replace (Nat.eqb (key x) id') with false; [reflexivity|].
    symmetry. apply Nat.eqb_neq. congruence.
  - now rewrite IH.
Qed.

Lemma find_filter_self {A} (key : A -> Id) id (l : list A) :
  find (fun r => Nat.eqb (key r) id)
       (filter (fun r => negb (Nat.eqb (key r) id)) l) = None.
Proof.
  apply find_all_false. intros y Hy. apply filter_In in Hy.
  now apply negb_true_iff.
Qed.

Create HintDb keeps.

(** A relation between the store before and the store after that the
    Prisma calls of the code keep is kept by every handler. *)
Section Keeps.
Variable R : DB -> DB -> Prop.
Hypothesis R_refl : forall d, R d d.
Hypothesis R_trans : forall d1 d2 d3, R d1 d2 -> R d2 d3 -> R d1 d3.
Hypothesis R_deployment_update :
  forall id u, Deployment.set_status u <> Some CANCELLED ->
               keeps R (prisma_deployment_update id u).
Hypothesis R_deploymentStep_update :
  forall id u, keeps R (prisma_deploymentStep_update id u).
Hypothesis R_deployment_create :
  forall u name url, keeps R (prisma_deployment_create u name url PENDING).
Hypothesis R_deploymentStep_create :
  forall id name description status order,
    keeps R (prisma_deploymentStep_create id name description status order).
Hypothesis R_deployment_delete :
  forall id, keeps R (prisma_deployment_delete id).

Lemma keeps_same_db {A} (c : M A) :
  (forall w, db (snd (c w)) = db w) -> keeps R c.
Proof. intros H w. cbn beta. rewrite H. apply R_refl. Qed.

Lemma keeps_ret {A} (a : A) : keeps R (ret a).
Proof. apply keeps_same_db. reflexivity. Qed.

Lemma keeps_throw {A} (e : Exn) : keeps R (@throw A e).
Proof. apply keeps_same_db. reflexivity. Qed.

Lemma keeps_emit to e : keeps R (emit to e).
Proof. apply keeps_same_db. reflexivity. Qed.

Lemma keeps_Math_random : keeps R Math_random.
Proof. apply keeps_same_db. reflexivity. Qed.

Lemma keeps_Date_now : keeps R Date_now.
Proof. apply keeps_same_db. reflexivity. Qed.

Lemma keeps_get_db : keeps R get_db.
Proof. apply keeps_same_db. reflexivity. Qed.

Lemma keeps_setTimeout ms : keeps R (setTimeout ms).
Proof. apply keeps_same_db. reflexivity. Qed.

Lemma keeps_findFirst id u : keeps R (prisma_deployment_findFirst id u).
Proof. apply keeps_same_db. reflexivity. Qed.

Lemma keeps_findUnique id : keeps R (prisma_deployment_findUnique id).
Proof. apply keeps_same_db. reflexivity. Qed.

Lemma keeps_bind {A B} (c : M A) (k : A -> M B) :
  keeps R c -> (forall a, keeps R (k a)) -> keeps R (bind c k).
Proof.
  intros Hc Hk w. unfold bind. specialize (Hc w).
  destruct (c w) as [[a|e] w1]; cbn [fst snd] in *.
  - eapply R_trans; [exact Hc | apply Hk].
  - exact Hc.
Qed.

Lemma keeps_try_catch {A} (c : M A) (h : Exn -> M A) :
  keeps R c -> (forall e, keeps R (h e)) -> keeps R (try_catch c h).
Proof.
  intros Hc Hh w. unfold try_catch. specialize (Hc w).
  destruct (c w) as [[a|e] w1]; cbn [fst snd] in *.
  - exact Hc.
  - eapply R_trans; [exact Hc | apply Hh].
Qed.

#[local] Hint Resolve keeps_ret keeps_throw keeps_emit keeps_Math_random
  keeps_Date_now keeps_get_db keeps_setTimeout keeps_findFirst keeps_findUnique
  : keeps.

(** One step through a computation written with [bind]. *)
Ltac keeps_step :=
  match goal with
  | |- keeps R (bind _ _) => apply keeps_bind; [|intros ?]
  | |- keeps R (try_catch _ _) => apply keeps_try_catch; [|intros ?]
  | |- keeps R (prisma_deployment_update _ _) =>
      apply R_deployment_update; discriminate
  | |- keeps R (if ?b then _ else _) => destruct b
  | |- keeps R (match ?x with _ => _ end) => destruct x
  | |- keeps R _ => solve [auto with keeps]
  end.

Lemma keeps_run_steps d u st fa rest :
  forall i, keeps R (run_steps d u st fa i rest).
Proof.
  induction rest as [|s rest IH]; intros i; cbn [run_steps].
  - apply keeps_ret.
  - repeat keeps_step.
Qed.

Lemma keeps_simulateDeployment dw u : keeps R (simulateDeployment dw u).
Proof.
  unfold simulateDeployment, draw_failAtStep.
  repeat first [apply keeps_run_steps | keeps_step].
Qed.

Lemma keeps_on_start_deployment sock id : keeps R (on_start_deployment sock id).
Proof.
  unfold on_start_deployment.
  repeat first [apply keeps_simulateDeployment | keeps_step].
Qed.

Lemma keeps_on_start_deployment_data sock data :
  keeps R (on_start_deployment_data sock data).
Proof.
  unfold on_start_deployment_data, destructure_deploymentId,
    prisma_deployment_findFirst_where.
  repeat first [apply keeps_simulateDeployment | keeps_step].
Qed.

Lemma keeps_create_steps id plan : keeps R (create_steps id plan).
Proof.
  induction plan as [|[index step] plan IH]; cbn [create_steps].
  - apply keeps_ret.
  - repeat keeps_step.
Qed.

Lemma keeps_post_deployment u url name : keeps R (post_deployment u url name).
Proof.
  unfold post_deployment.
  repeat first [apply keeps_create_steps | keeps_step].
Qed.

Lemma keeps_get_deployment u id : keeps R (get_deployment u id).
Proof. unfold get_deployment. repeat keeps_step. Qed.

Lemma keeps_get_deployments u q : keeps R (get_deployments u q).
Proof. unfold get_deployments. repeat keeps_step. Qed.

Lemma keeps_delete_deployment u id : keeps R (delete_deployment u id).
Proof. unfold delete_deployment. repeat keeps_step. Qed.

Lemma keeps_handle s w : R (db w) (db (handle s w)).
Proof.
  destruct s; cbn [handle].
  - apply keeps_get_deployments.
  - apply keeps_get_deployment.
  - apply keeps_post_deployment.
  - apply keeps_delete_deployment.
  - apply keeps_on_start_deployment.
  - apply R_refl.
  - apply keeps_on_start_deployment_data.
Qed.

Lemma keeps_handle_all l : forall w, R (db w) (db (handle_all l w)).
Proof.
  induction l as [|s l IH]; intros w; cbn [handle_all fold_left].
  - apply R_refl.
  - eapply R_trans; [apply keeps_handle | apply IH].
Qed.
End Keeps.

(** *** No signal cancels a deployment *)

Lemma uncancelled_deployment_update id u :
  Deployment.set_status u <> Some CANCELLED ->
  keeps no_new_cancelled (prisma_deployment_update id u).
Proof.
  intros Hu w. unfold prisma_deployment_update, bind, get_db, put_db, throw.
  destruct (has_key Deployment.id id (deployments (db w)));
    cbn [fst snd db set_db]; [|now apply no_new_cancelled_same].
  intros id'. unfold deployment_status_of, find_deployment. cbn [deployments].
  destruct (Nat.eq_dec id' id) as [->|Hne].
  - rewrite find_update_same by auto using deployment_apply_id.
    destruct (find _ (deployments (db w))) as [r|]; cbn; [|discriminate].
    destruct (Deployment.set_status u) as [s|]; cbn; [|auto].
    intros E. exfalso. apply Hu. exact E.
  - now rewrite find_update_other by auto using deployment_apply_id.
Qed.

Lemma uncancelled_deploymentStep_update id u :
  keeps no_new_cancelled (prisma_deploymentStep_update id u).
Proof.
  intros w. apply no_new_cancelled_same.
  unfold prisma_deploymentStep_update, bind, get_db, put_db, throw.
  now destruct (has_key DeploymentStep.id id (steps (db w))).
Qed.

Lemma uncancelled_deployment_create u name url :
  keeps no_new_cancelled (prisma_deployment_create u name url PENDING).
Proof.
  intros w. cbn. intros id. unfold deployment_status_of, find_deployment.
  cbn [deployments]. rewrite find_app_first.
  destruct (find _ (deployments (db w))) as [r|]; [auto|].
  cbn. destruct (Nat.eqb (next_id (db w)) id); cbn; discriminate.
Qed.

Lemma uncancelled_deploymentStep_create id name description status order :
  keeps no_new_cancelled
        (prisma_deploymentStep_create id name description status order).
Proof.
  intros w. apply no_new_cancelled_same.
  unfold prisma_deploymentStep_create, fresh_id, bind, get_db, put_db, throw, ret.
  cbn [db set_db deployments steps next_id fst snd].
  now destruct (has_key Deployment.id id (deployments (db w))).
Qed.

Lemma uncancelled_deployment_delete id :
  keeps no_new_cancelled (prisma_deployment_delete id).
Proof.
  intros w. unfold prisma_deployment_delete, bind, get_db, put_db, throw.
  destruct (negb (has_key Deployment.id id (deployments (db w))));
    cbn [fst snd]; [now apply no_new_cancelled_same|].
  destruct (has_key DeploymentStep.deploymentId id (steps (db w)));
    cbn [fst snd db set_db]; [now apply no_new_cancelled_same|].
  intros id'. unfold deployment_status_of, find_deployment. cbn [deployments].
  destruct (Nat.eq_dec id' id) as [->|Hne].
  - now rewrite find_filter_self.
  - now rewrite find_filter_other.
Qed.

Lemma handle_keeps_uncancelled s w : no_new_cancelled (db w) (db (handle s w)).
Proof.
  apply keeps_handle.
  - intros d. now apply no_new_cancelled_same.
  - apply no_new_cancelled_trans.
  - apply uncancelled_deployment_update.
  - apply uncancelled_deploymentStep_update.
  - apply uncancelled_deployment_create.
  - apply uncancelled_deploymentStep_create.
  - apply uncancelled_deployment_delete.
Qed.

Lemma handle_all_keeps_uncancelled l w :
  no_new_cancelled (db w) (db (handle_all l w)).
Proof.
  revert w. induction l as [|s l IH]; intros w; cbn [handle_all fold_left].
  - now apply no_new_cancelled_same.
  - eapply no_new_cancelled_trans; [apply handle_keeps_uncancelled | apply IH].
Qed.

(** C3, as the code has it: no signal of the interface cancels a
    deployment.  From a store without a [CANCELLED] deployment, no
    sequence of signals leads to a store with one. *)
Theorem cancelled_unreachable (signals : list Signal) (w : World) :
  (forall id, deployment_status_of (db w) id <> Some CANCELLED) ->
  forall id, deployment_status_of (db (handle_all signals w)) id
             <> Some CANCELLED.
Proof.
  intros H id E. apply (H id).
  exact (handle_all_keeps_uncancelled signals w id E).
Qed.

(** *** Every signal keeps the store well formed *)

Lemma wf_deployment_update id u :
  keeps wf_step (prisma_deployment_update id u).
Proof.
  intros w. unfold prisma_deployment_update, bind, get_db, put_db, throw.
  destruct (has_key Deployment.id id (deployments (db w)));
    cbn [fst snd db set_db]; [|exact (fun H => H)].
  intros Hwf. eapply wf_db_same_keys; [| | | |exact Hwf];
    cbn [deployments steps next_id]; try reflexivity.
  apply update_rows_proj. reflexivity.
Qed.

Lemma wf_deploymentStep_update id u :
  keeps wf_step (prisma_deploymentStep_update id u).
Proof.
  intros w. unfold prisma_deploymentStep_update, bind, get_db, put_db, throw.
  destruct (has_key DeploymentStep.id id (steps (db w)));
    cbn [fst snd db set_db]; [|exact (fun H => H)].
  intros Hwf. eapply wf_db_same_keys; [| | | |exact Hwf];
    cbn [deployments steps next_id]; try reflexivity;
    apply update_rows_proj; reflexivity.
Qed.

Lemma wf_deployment_create u name url status :
  keeps wf_step (prisma_deployment_create u name url status).
Proof.
  intros w. cbn. intros (H1 & H2 & H3 & H4 & H5).
  unfold wf_db. cbn [deployments steps next_id]. splits.
  - rewrite map_app. cbn.
    apply Permutation_NoDup
      with (l := next_id (db w) :: map Deployment.id (deployments (db w))).
    + apply Permutation_cons_append.
    + constructor; [|exact H1].
      intros Hin. apply in_map_iff in Hin. destruct Hin as (r & E & Hr).
      apply H3 in Hr. lia.
  - exact H2.
  - intros r Hr. apply in_app_or in Hr. destruct Hr as [Hr|[<-|[]]].
    + apply H3 in Hr. lia.
    + cbn. lia.
  - intros s Hs. apply H4 in Hs. lia.
  - intros s Hs. rewrite map_app. apply in_or_app. left. now apply H5.
Qed.

Lemma wf_deploymentStep_create id name description status order :
  keeps wf_step (prisma_deploymentStep_create id name description status order).
Proof.
  intros w.
  unfold prisma_deploymentStep_create, fresh_id, bind, get_db, put_db, throw, ret.
  cbn [db set_db deployments steps next_id fst snd].
  destruct (has_key Deployment.id id (deployments (db w))) eqn:Hk;
    cbn [fst snd db set_db]; intros (H1 & H2 & H3 & H4 & H5);
    unfold wf_db; cbn [deployments steps next_id].
  - splits.
    + exact H1.
    + rewrite map_app. cbn.
      apply Permutation_NoDup
        with (l := next_id (db w) :: map DeploymentStep.id (steps (db w))).
      * apply Permutation_cons_append.
      * constructor; [|exact H2].
        intros Hin. apply in_map_iff in Hin. destruct Hin as (r & E & Hr).
        apply H4 in Hr. lia.
    + intros r Hr. apply H3 in Hr. lia.
    + intros s Hs. apply in_app_or in Hs. destruct Hs as [Hs|[<-|[]]].
      * apply H4 in Hs. lia.
      * cbn. lia.
    + intros s Hs. apply in_app_or in Hs. destruct Hs as [Hs|[<-|[]]].
      * now apply H5.
      * cbn. now apply (has_key_In Deployment.id).
  - splits; auto.
    + intros r Hr. apply H3 in Hr. lia.
    + intros s Hs. apply H4 in Hs. lia.
Qed.

Lemma wf_deployment_delete id : keeps wf_step (prisma_deployment_delete id).
Proof.
  intros w. unfold prisma_deployment_delete, bind, get_db, put_db, throw.
  destruct (negb (has_key Deployment.id id (deployments (db w))));
    cbn [fst snd]; [exact (fun H => H)|].
  destruct (has_key DeploymentStep.deploymentId id (steps (db w))) eqn:Hk;
    cbn [fst snd db set_db]; [exact (fun H => H)|].
  intros (H1 & H2 & H3 & H4 & H5).
  unfold wf_db. cbn [deployments steps next_id]. splits; auto.
  - clear - H1. induction (deployments (db w)) as [|r l IH]; cbn; [constructor|].
    inversion H1 as [|? ? Hr Hl]; subst.
    destruct (Nat.eqb (Deployment.id r) id); cbn; [auto|].
    constructor; [|auto]. intros Hin. apply Hr.
    apply in_map_iff in Hin. destruct Hin as (x & E & Hx).
    apply filter_In in Hx. rewrite <- E. apply in_map. tauto.
  - intros r Hr. apply filter_In in Hr. apply H3. tauto.
  - intros s Hs. specialize (H5 s Hs).
    apply in_map_iff in H5. destruct H5 as (r & E & Hr).
    apply in_map_iff. exists r. split; [exact E|].
    apply filter_In. split; [exact Hr|].
    apply negb_true_iff, Nat.eqb_neq. intros E'.
    assert (X : has_key DeploymentStep.deploymentId id (steps (db w)) = true).
    { apply (has_key_In DeploymentStep.deploymentId). apply in_map_iff.
      exists s. split; [congruence | exact Hs]. }
    congruence.
Qed.

(** Every signal keeps the store well formed. *)
Lemma handle_wf s w : wf_db (db w) -> wf_db (db (handle s w)).
Proof.
  apply (keeps_handle wf_step).
  - intros d H. exact H.
  - intros d1 d2 d3 H12 H23 H. auto.
  - intros id u _. apply wf_deployment_update.
  - apply wf_deploymentStep_update.
  - intros u name url. apply wf_deployment_create.
  - apply wf_deploymentStep_create.
  - apply wf_deployment_delete.
Qed.

(** The stores that a process reaches from the empty store are well
    formed. *)
Lemma reachable_wf (signals : list Signal) (random : nat -> Q) (clock : nat -> Z) :
  wf_db (db (handle_all signals (fresh_world random clock))).
Proof.
  apply (keeps_handle_all wf_step).
  - intros d H. exact H.
  - intros d1 d2 d3 H12 H23 H. auto.
  - intros id u _. apply wf_deployment_update.
  - apply wf_deploymentStep_update.
  - intros u name url. apply wf_deployment_create.
  - apply wf_deploymentStep_create.
  - apply wf_deployment_delete.
  - apply wf_empty_db.
Qed.

(** ** Creating a deployment *)

Lemma has_key_app {A} (key : A -> Id) id (l l' : list A) :
  has_key key id (l ++ l') = has_key key id l || has_key key id l'.
Proof. unfold has_key. apply existsb_app. Qed.

Lemma create_steps_ok id plan :
  forall i w,
    has_key Deployment.id id (deployments (db w)) = true ->
    create_steps id (indexed_from i plan) w
    = (Ok tt,
       set_db w (mkDB (deployments (db w))
                      (steps (db w) ++ new_steps id (next_id (db w)) i plan)
                      (next_id (db w) + List.length plan)%nat)).
Proof.
  induction plan as [|p plan IH]; intros i w Hk;
    cbn [indexed_from create_steps new_steps List.length].
  - unfold ret, set_db. rewrite app_nil_r, Nat.add_0_r.
    now destruct w as [[? ? ?] ? ? ? ? ?].
  - unfold bind at 1. unfold prisma_deploymentStep_create, fresh_id.
    do 4 mstep. rewrite Hk. mstep.
    rewrite IH by (wsimpl; exact Hk). wsimpl. unfold set_db. wsimpl.
    rewrite <- app_assoc. cbn [app].
    now replace (S (next_id (db w)) + List.length plan)%nat
      with (next_id (db w) + S (List.length plan))%nat by lia.
Qed.

Lemma new_steps_deploymentId id plan n i s :
  In s (new_steps id n i plan) -> DeploymentStep.deploymentId s = id.
Proof.
  revert n i. induction plan as [|p plan IH]; intros n i; cbn [new_steps].
  - intros [].
  - intros [<-|H]; [reflexivity | eauto].
Qed.

Lemma new_steps_order_ge id plan n i s :
  In s (new_steps id n i plan) -> Z.of_nat i <= DeploymentStep.order s.
Proof.
  revert n i. induction plan as [|p plan IH]; intros n i; cbn [new_steps].
  - intros [].
  - intros [<-|H]; [cbn; lia|]. apply IH in H. lia.
Qed.

Lemma new_steps_sorted id plan n i :
  StronglySorted (fun a b => order_asc a b = true) (new_steps id n i plan).
Proof.
  revert n i. induction plan as [|p plan IH]; intros n i; cbn [new_steps].
  - constructor.
  - constructor; [apply IH|]. apply Forall_forall. intros s Hs.
    apply new_steps_order_ge in Hs. unfold order_asc. cbn. apply Z.leb_le. lia.
Qed.

Lemma new_steps_names id plan n i :
  map DeploymentStep.name (new_steps id n i plan) = map DeploymentPlan.name plan.
Proof.
  revert n i. induction plan as [|p plan IH]; intros n i; cbn; [reflexivity|].
  now rewrite IH.
Qed.

Lemma new_steps_status id plan n i :
  Forall (fun s => DeploymentStep.status s = PENDING) (new_steps id n i plan).
Proof.
  revert n i. induction plan as [|p plan IH]; intros n i; cbn; constructor;
    [reflexivity | apply IH].
Qed.

Lemma new_steps_orders id plan n i :
  map DeploymentStep.order (new_steps id n i plan)
  = map Z.of_nat (seq i (List.length plan)).
Proof.
  revert n i. induction plan as [|p plan IH]; intros n i; cbn; [reflexivity|].
  now rewrite IH.
Qed.

Lemma filter_all {A} (f : A -> bool) (l : list A) :
  (forall x, In x l -> f x = true) -> filter f l = l.
Proof.
  induction l as [|x l IH]; simpl; intros H; [reflexivity|].
  rewrite (H x) by now left. f_equal. apply IH. intros y Hy. apply H. now right.
Qed.

Lemma filter_none {A} (f : A -> bool) (l : list A) :
  (forall x, In x l -> f x = false) -> filter f l = [].
Proof.
  induction l as [|x l IH]; simpl; intros H; [reflexivity|].
  rewrite (H x) by now left. apply IH. intros y Hy. apply H. now right.
Qed.

(** The new deployment is found under its identifier. *)
Lemma find_new_deployment w u url name :
  wf_db (db w) ->
  find_deployment (db (after_post w u url name)) (next_id (db w))
  = Some (new_deployment w u url name).
Proof.
  intros (_ & _ & Hlt & _). unfold find_deployment, after_post. wsimpl.
  rewrite find_app_first, find_all_false.
  - cbn. now rewrite Nat.eqb_refl.
  - intros r Hr. apply Nat.eqb_neq. apply Hlt in Hr. lia.
Qed.

(** Its steps are those of the plan, in the order of the plan. *)
Lemma steps_of_new_deployment w u url name :
  wf_db (db w) ->
  steps_of (db (after_post w u url name)) (next_id (db w))
  = new_steps (next_id (db w)) (S (next_id (db w))) 0 (createDeploymentPlan url).
Proof.
  intros (_ & _ & Hlt & _ & Hfk). unfold steps_of, after_post. wsimpl.
  rewrite filter_app, filter_none, filter_all.
  - cbn [app]. apply sort_by_already, new_steps_sorted.
  - intros s Hs. apply Nat.eqb_eq. eapply new_steps_deploymentId; eauto.
  - intros s Hs. apply Nat.eqb_neq. apply Hfk in Hs.
    apply in_map_iff in Hs. destruct Hs as (r & E & Hr).
    apply Hlt in Hr. lia.
Qed.

Lemma truthy_nonempty s : s <> ""%string -> truthy (Some s) = Some s.
Proof.
  intros H. unfold truthy. destruct (String.eqb_spec s ""); congruence.
Qed.

(** [POST /] with a URL stores the deployment and the steps of its plan
    and answers 201 with them. *)
Lemma post_deployment_created w u url name :
  wf_db (db w) -> url <> ""%string ->
  post_deployment u (Some url) name w
  = (Ok (mkResponse 201
           (body_deployment
              (Some (mkWithSteps
                       (new_deployment w u url name)
                       (new_steps (next_id (db w)) (S (next_id (db w))) 0
                                  (createDeploymentPlan url)))))),
     after_post w u url name).
Proof.
  intros Hwf Hurl. unfold post_deployment, try_catch.
  rewrite (truthy_nonempty _ Hurl).
  unfold bind at 1. unfold prisma_deployment_create, fresh_id.
  do 6 mstep. cbn [Deployment.id].
  unfold indexed. unfold bind at 1.
  rewrite create_steps_ok
    by (wsimpl; rewrite has_key_app; cbn; rewrite Nat.eqb_refl;
        apply orb_true_r).
  wsimpl. unfold prisma_deployment_findUnique. do 2 mstep.
  unfold set_db. wsimpl.
  pose proof (find_new_deployment w u url name Hwf) as F.
  pose proof (steps_of_new_deployment w u url name Hwf) as S.
  unfold after_post, new_deployment in *. cbn [db] in F, S.
  rewrite F. cbn [option_map]. unfold with_steps. cbn [Deployment.id].
  rewrite S. reflexivity.
Qed.


(** C5: for "https://example.com/packs/small.zip", creating a deployment
    answers 201 with the stored deployment, [PENDING], and its seven
    steps, named as listed, in this order, all [PENDING]. *)
Theorem small_zip_plan (w : World) (userId : Id) (modpackName : option string) :
  wf_db (db w) ->
  let res := post_deployment userId
               (Some "https://example.com/packs/small.zip") modpackName w in
  exists row ss,
    fst res = Ok (mkResponse 201 (body_deployment (Some (mkWithSteps row ss))))
    /\ find_deployment (db (snd res)) (Deployment.id row) = Some row
    /\ steps_of (db (snd res)) (Deployment.id row) = ss
    /\ Deployment.status row = PENDING
    /\ map DeploymentStep.name ss
       = ["Validate URL"; "Download Modpack"; "Extract Files";
          "Install Forge/Fabric"; "Configure Server"; "Allocate Resources";
          "Start Server"]
    /\ map DeploymentStep.order ss = [0; 1; 2; 3; 4; 5; 6]
    /\ Forall (fun s => DeploymentStep.status s = PENDING) ss.
Proof.
  intros Hwf res. subst res.
  rewrite post_deployment_created by (assumption || discriminate).
  cbn [fst snd]. do 2 eexists. splits.
  - reflexivity.
  - cbn [new_deployment Deployment.id]. now apply find_new_deployment.
  - cbn [new_deployment Deployment.id]. now apply steps_of_new_deployment.
  - reflexivity.
  - rewrite new_steps_names. reflexivity.
  - rewrite new_steps_orders. reflexivity.
  - apply new_steps_status.
Qed.

(** ** The claims on concrete worlds *)

Ltac by_computation := vm_compute; reflexivity.

Ltac wf_by_computation := apply wf_dbb_sound; vm_compute; reflexivity.

Ltac all_listed H :=
  vm_compute in H; repeat (destruct H as [<-|H]; [reflexivity|]); contradiction.

(** The claim C1 fails on a deployment that has completed: the owner's
    second start signal is not answered with an error; the deployment is
    run again and ends [FAILED], and step 3 goes from [COMPLETED] to
    [FAILED].  It fails on a [RUNNING] deployment too: the signal starts a
    second run, which takes step 1 from [PENDING] to [COMPLETED]. *)
Lemma restart_of_completed_runs_again :
  deployment_status_of (db completed_world) 0 = Some COMPLETED
  /\ step_status_of (db completed_world) 3 = Some COMPLETED
  /\ deployment_status_of
       (db (handle (start_deployment session_of_7 0) completed_world)) 0
     = Some FAILED
  /\ step_status_of
       (db (handle (start_deployment session_of_7 0) completed_world)) 3
     = Some FAILED
  /\ filter is_deployment_error
       (new_emissions completed_world
          (handle (start_deployment session_of_7 0) completed_world))
     = []
  /\ List.length
       (new_emissions completed_world
          (handle (start_deployment session_of_7 0) completed_world))
     = 8%nat
  /\ deployment_status_of (db running_world) 0 = Some RUNNING
  /\ step_status_of (db running_world) 1 = Some PENDING
  /\ step_status_of
       (db (handle (start_deployment session_of_7 0) running_world)) 1
     = Some COMPLETED
  /\ filter is_deployment_error
       (new_emissions running_world
          (handle (start_deployment session_of_7 0) running_world))
     = [].
Proof. vm_compute. repeat split. Qed.

(** The claim C2 fails on a deployment that is run again: the second run
    of deployment 0 fails at index 2, and the steps after it, with the
    identifiers 4 to 7, are [COMPLETED] from the first run, not
    [PENDING]. *)
Lemma rerun_failure_keeps_completed_steps :
  let w' := handle (start_deployment session_of_7 0) completed_world in
  decided_failAtStep completed_world 7 = 2
  /\ map DeploymentStep.id (steps_of (db completed_world) 0)
     = [1; 2; 3; 4; 5; 6; 7]%nat
  /\ map (step_status_of (db completed_world)) [4; 5; 6; 7]%nat
     = [Some COMPLETED; Some COMPLETED; Some COMPLETED; Some COMPLETED]
  /\ deployment_status_of (db w') 0 = Some FAILED
  /\ step_status_of (db w') 3 = Some FAILED
  /\ map (step_status_of (db w')) [4; 5; 6; 7]%nat
     = [Some COMPLETED; Some COMPLETED; Some COMPLETED; Some COMPLETED].
Proof. vm_compute. repeat split. Qed.

(** The claim C7 fails on its last part: the start signal of user 8 for
    deployment 0 of user 7 emits an event, the error sent to the socket
    of user 8. *)
Lemma foreign_start_is_answered :
  let w' := handle (start_deployment session_of_8 0) world_to_fail in
  option_map Deployment.userId (find_deployment (db world_to_fail) 0) = Some 7%nat
  /\ Socket.userId session_of_8 = 8%nat
  /\ new_emissions world_to_fail w'
     = [(to_socket 101, deployment_error "Deployment not found")]
  /\ List.length (new_emissions world_to_fail w') = 1%nat.
Proof. vm_compute. repeat split. Qed.

Lemma start_ignores_status_witness :
  deployment_status_of (db completed_world) 0 = Some COMPLETED
  /\ exists r,
       let w' := handle (start_deployment session_of_7 0) completed_world in
       In r (deployments (db completed_world))
       /\ Nat.eqb (Deployment.id r) 0 = true
       /\ deployment_status_of (db (after_start r 7 completed_world))
            (Deployment.id r) = Some RUNNING
       /\ (exists new,
             new_emissions completed_world w'
             = (to_user_room 7,
                deployment_status (Deployment.id r) RUNNING "Deployment started")
               :: new
             /\ Forall (fun e => is_progress e = true) new)
       /\ exists r',
            find_deployment (db w') (Deployment.id r) = Some r'
            /\ Deployment.status r'
               = (if fails_within
                       (decided_failAtStep completed_world
                          (List.length
                             (steps_of (db completed_world) (Deployment.id r))))
                       0
                       (List.length
                          (steps_of (db completed_world) (Deployment.id r)))
                  then FAILED else COMPLETED).
Proof.
  split; [by_computation|].
  destruct (start_ignores_status completed_world session_of_7
              (data_with (id_string 0))
              (wf_dbb_sound (db completed_world) eq_refl)) as [E H].
  cbn [id_condition] in H.
  match type of H with
  | if ?b then _ else _ =>
      assert (Hb : b = true) by (vm_compute; reflexivity); rewrite Hb in H
  end.
  destruct H as (r & Hin & Hp & _ & H1 & _ & _ & (new & H3 & _ & H3') & _
                 & (r' & H5 & H5' & _)).
  exists r. cbv zeta. rewrite (E 0%nat).
  splits.
  - exact Hin.
  - exact Hp.
  - exact H1.
  - exists new. split; [exact H3 | exact H3'].
  - exists r'. split; [exact H5 | exact H5'].
Defined.

Lemma partial_failure_witness :
  decided_failAtStep world_to_fail 7 = 3
  /\ exists r',
       find_deployment
         (db (handle (start_deployment session_of_7 0) world_to_fail)) 0
       = Some r'
       /\ Deployment.status r' = FAILED
       /\ Deployment.errorMsg r'
          = Some "Deployment failed at step: Install Forge/Fabric".
Proof.
  split; [by_computation|].
  edestruct (partial_failure world_to_fail session_of_7 0) with (k := 3%nat)
    as (_ & _ & _ & _ & H).
  - wf_by_computation.
  - by_computation.
  - reflexivity.
  - by_computation.
  - by_computation.
  - exact H.
Defined.

(** The claim C3 fails on a [PENDING] and on a [RUNNING] deployment: no
    signal takes either to [CANCELLED]. *)
Lemma no_signal_cancels_pending_or_running :
  deployment_status_of (db world_to_succeed) 0 = Some PENDING
  /\ deployment_status_of (db running_world) 0 = Some RUNNING
  /\ (forall s : Signal,
        deployment_status_of (db (handle s world_to_succeed)) 0
        <> Some CANCELLED)
  /\ (forall s : Signal,
        deployment_status_of (db (handle s running_world)) 0
        <> Some CANCELLED).
Proof.
  splits.
  - by_computation.
  - by_computation.
  - intros s E. apply handle_keeps_uncancelled in E. vm_compute in E.
    discriminate.
  - intros s E. apply handle_keeps_uncancelled in E. vm_compute in E.
    discriminate.
Qed.

Lemma cancelled_unreachable_witness :
  deployment_status_of
    (db (handle_all [POST_deployment 7 (Some small_zip) None;
                     start_deployment session_of_7 0]
                    (fresh_world failing_draws seconds_clock))) 0
  = Some FAILED
  /\ forall id,
       deployment_status_of
         (db (handle_all [POST_deployment 7 (Some small_zip) None;
                          start_deployment session_of_7 0]
                         (fresh_world failing_draws seconds_clock))) id
       <> Some CANCELLED.
Proof.
  split; [by_computation|].
  apply cancelled_unreachable. intros id. vm_compute. discriminate.
Defined.

Lemma small_zip_plan_witness :
  exists row ss,
    fst (post_deployment 7 (Some "https://example.com/packs/small.zip") None
           (fresh_world failing_draws seconds_clock))
    = Ok (mkResponse 201 (body_deployment (Some (mkWithSteps row ss))))
    /\ Deployment.status row = PENDING
    /\ List.length ss = 7%nat
    /\ Forall (fun s => DeploymentStep.status s = PENDING) ss.
Proof.
  destruct (small_zip_plan (fresh_world failing_draws seconds_clock) 7 None)
    as (row & ss & H1 & _ & _ & H4 & H5 & _ & H7).
  - wf_by_computation.
  - exists row, ss. splits; auto.
    apply (f_equal (@List.length _)) in H5. now rewrite length_map in H5.
Defined.

(** A draw is a double in [0, 1): by computation. *)
Ltac is_random_by_computation :=
  unfold is_random, is_double; repeat split;
  vm_compute; first [reflexivity | discriminate].

Lemma failure_decided_once_witness :
  Qltb (failing_draws 0) failure_chance = true
  /\ is_random (failing_draws 1)
  /\ step_marks
       (new_emissions world_to_fail
          (handle (start_deployment session_of_7 0) world_to_fail))
     = expected_marks 3 0 (steps_of (db world_to_fail) 0)
  /\ List.length
       (filter is_failed_mark
          (step_marks
             (new_emissions world_to_fail
                (handle (start_deployment session_of_7 0) world_to_fail))))
     = 1%nat
  /\ deployment_status_of
       (db (handle (start_deployment session_of_7 0) world_to_fail)) 0
     = Some FAILED.
Proof.
  split; [by_computation|]. split; [is_random_by_computation|].
  edestruct (failure_decided_once world_to_fail session_of_7 0)
    as (H1 & _ & _ & _ & H5 & _).
  - wf_by_computation.
  - by_computation.
  - reflexivity.
  - destruct H5 as [H5 H6].
    + by_computation.
    + is_random_by_computation.
    + vm_compute. discriminate.
    + splits; [exact H1 | exact H5 | exact H6].
Defined.

Lemma start_by_other_user_rejected_witness :
  db (handle (start_deployment session_of_8 0) world_to_fail) = db world_to_fail
  /\ deployment_status_of
       (db (handle (start_deployment session_of_8 0) world_to_fail)) 0
     = Some PENDING
  /\ new_emissions world_to_fail
       (handle (start_deployment session_of_8 0) world_to_fail)
     = [(to_socket 101, deployment_error "Deployment not found")].
Proof.
  edestruct (start_by_other_user_rejected world_to_fail session_of_8 0)
    as (H1 & H2 & H3 & _ & _).
  - wf_by_computation.
  - by_computation.
  - vm_compute. discriminate.
  - splits; [exact H1 | exact H2 | exact H3].
Defined.

Lemma step_events_ordered_witness :
  run_trace (steps_of (db world_to_fail) 0)
    (step_marks
       (new_emissions world_to_fail
          (handle (start_deployment session_of_7 0) world_to_fail)))
  /\ count_complete
       (new_emissions world_to_fail
          (handle (start_deployment session_of_7 0) world_to_fail))
     = 1%nat.
Proof.
  edestruct (step_events_ordered world_to_fail session_of_7 0)
    as (H1 & _ & H3).
  - wf_by_computation.
  - by_computation.
  - reflexivity.
  - split; [exact H1 | exact H3].
Defined.

(** The claim C9 fails on a run that completes at 101001 ms, started at
    2000 ms, with its first step started at 2004 ms: the stored duration
    is 99 s, the span from the start of the first step is 98 s. *)
Lemma duration_not_from_first_step :
  deployment_status_of (db completed_world) 0 = Some COMPLETED
  /\ duration_of (db completed_world) 0 = Some 99
  /\ span_from_first_step (db completed_world) 0 = Some 98.
Proof. vm_compute. repeat split. Qed.

Lemma duration_from_run_start_witness :
  exists r',
    find_deployment
      (db (handle (start_deployment session_of_7 0) world_to_succeed)) 0
    = Some r'
    /\ (Deployment.status r' = COMPLETED \/ Deployment.status r' = FAILED)
    /\ Deployment.duration r' = Some ((101001 - 2000) / 1000).
Proof.
  edestruct (duration_from_run_start world_to_succeed session_of_7 0)
    as (_ & H & _).
  - wf_by_computation.
  - by_computation.
  - reflexivity.
  - exact H.
Defined.

(** * The rest of the deployments router *)

(** ** [GET /:id] *)

Lemma findFirst_sound d id u r :
  find (fun x => Nat.eqb (Deployment.id x) id && Nat.eqb (Deployment.userId x) u)
       (deployments d) = Some r ->
  In r (deployments d) /\ Deployment.id r = id /\ Deployment.userId r = u.
Proof.
  intros H. apply find_some in H. destruct H as [Hin H].
  apply andb_true_iff in H. now rewrite !Nat.eqb_eq in H.
Qed.

Lemma get_deployment_eval u id w :
  get_deployment u id w
  = (Ok match find (fun x => Nat.eqb (Deployment.id x) id
                             && Nat.eqb (Deployment.userId x) u)
                   (deployments (db w)) with
        | Some r => mkResponse 200 (body_deployment (Some (with_steps (db w) r)))
        | None => mkResponse 404 (body_error "Deployment not found")
        end, w).
Proof.
  unfold get_deployment, try_catch, prisma_deployment_findFirst.
  unfold bind at 1. unfold bind at 1. cbn [get_db ret].
  now destruct (find _ (deployments (db w))).
Qed.

(** X1: [GET /:id] shows a deployment to its owner only: an answer that
    carries a deployment carries a stored deployment with the requested
    identifier, owned by the requesting user, with its stored steps in
    the order of their indices; every other answer is 404; the store is
    not changed. *)
Theorem get_deployment_owner_only (w : World) (userId id : Id) :
  snd (get_deployment userId id w) = w
  /\ ((exists r,
         fst (get_deployment userId id w)
         = Ok (mkResponse 200 (body_deployment (Some (with_steps (db w) r))))
         /\ In r (deployments (db w))
         /\ Deployment.id r = id
         /\ Deployment.userId r = userId
         /\ StronglySorted (fun a b => order_asc a b = true)
              (deployment_steps (with_steps (db w) r))
         /\ (forall s, In s (deployment_steps (with_steps (db w) r)) <->
                       In s (steps (db w))
                       /\ DeploymentStep.deploymentId s = id))
      \/ (fst (get_deployment userId id w)
          = Ok (mkResponse 404 (body_error "Deployment not found"))
          /\ forall r, In r (deployments (db w)) -> Deployment.id r = id ->
                       Deployment.userId r <> userId)).
Proof.
  rewrite get_deployment_eval. cbn [fst snd]. split; [reflexivity|].
  destruct (find _ (deployments (db w))) as [r|] eqn:Hfind.
  - left. exists r. destruct (findFirst_sound _ _ _ _ Hfind) as (Hin & Hid & Hu).
    splits; auto.
    + cbn. apply steps_of_sorted.
    + intros s. cbn. rewrite Hid. apply steps_of_In.
  - right. split; [reflexivity|]. intros r Hin Hid Hu.
    pose proof (find_none _ _ Hfind r Hin) as H. cbn in H.
    rewrite Hid, Hu, !Nat.eqb_refl in H. discriminate.
Qed.

(** ** [POST /] and [GET /:id] *)

(** X2: What [POST /] stored is what [GET /:id] returns to the same user, and
    nobody else gets it. *)
Theorem post_then_get (w : World) (userId : Id) (modpackUrl : string)
    (modpackName : option string) :
  wf_db (db w) -> modpackUrl <> ""%string ->
  let created := post_deployment userId (Some modpackUrl) modpackName w in
  let id := next_id (db w) in
  exists d,
    fst created = Ok (mkResponse 201 (body_deployment (Some d)))
    /\ Deployment.id (deployment_row d) = id
    /\ get_deployment userId id (snd created)
       = (Ok (mkResponse 200 (body_deployment (Some d))), snd created)
    /\ (forall other, other <> userId ->
          get_deployment other id (snd created)
          = (Ok (mkResponse 404 (body_error "Deployment not found")),
             snd created)).
Proof.
  intros Hwf Hurl created id. subst created id.
  rewrite post_deployment_created by assumption. cbn [fst snd].
  eexists. split; [reflexivity|]. split; [reflexivity|].
  pose proof (find_new_deployment w userId modpackUrl modpackName Hwf) as F.
  pose proof (steps_of_new_deployment w userId modpackUrl modpackName Hwf) as S.
  split.
  - rewrite get_deployment_eval.
    rewrite (findFirst_owned _ _ userId _ F) by reflexivity.
    unfold with_steps. cbn [new_deployment Deployment.id]. now rewrite S.
  - intros other Hother. rewrite get_deployment_eval.
    assert (Hwf' : wf_db (db (after_post w userId modpackUrl modpackName))).
    { pose proof (handle_wf (POST_deployment userId (Some modpackUrl) modpackName)
                            w Hwf) as H.
      cbn [handle] in H. now rewrite post_deployment_created in H. }
    rewrite (findFirst_foreign _ _ other _ (proj1 Hwf') F); [reflexivity|].
    cbn. congruence.
Qed.

(** ** [GET /] *)








(** The rows of the page that [GET /] answers with. *)
Lemma get_deployments_eval u q w :
  get_deployments u q w
  = (Ok (mkResponse 200
           (body_deployments
              (map (with_steps (db w))
                 (firstn (match q_limit q with Some n => n | None => 20%nat end)
                    (skipn (match q_offset q with Some n => n | None => 0%nat end)
                       (sort_by startedAt_desc
                          (filter (whereClause u q) (deployments (db w)))))))
              (List.length (filter (whereClause u q) (deployments (db w)))))),
     w).
Proof. reflexivity. Qed.












Lemma firstn_plus {A} (l : list A) n m :
  firstn (n + m) l = (firstn n l ++ firstn m (skipn n l))%list.
Proof.
  revert l. induction n as [|n IH]; intros l; [reflexivity|].
  destruct l as [|x l]; cbn; [now rewrite firstn_nil|]. now rewrite IH.
Qed.

(** X4: The pages of [GET /] fit together: a page of [n] from [offset]
    followed by the page of [m] from [offset + n] is the page of [n + m]
    from [offset]; and the page of [total] from 0 has every deployment of
    the user that passes the filters. *)
Theorem get_deployments_pages (w : World) (userId : Id)
    (status search : option string) (offset n m : nat) :
  let page := fun limit offset =>
    listed (fst (get_deployments userId
                   (mkListQuery status search (Some limit) (Some offset)) w)) in
  (page n offset ++ page m (offset + n)%nat)%list = page (n + m)%nat offset
  /\ (forall row total,
        listed_total (fst (get_deployments userId
                             (mkListQuery status search None None) w))
        = Some total ->
        In row (deployments (db w)) ->
        whereClause userId (mkListQuery status search None None) row = true ->
        In (with_steps (db w) row) (page total 0%nat)).
Proof.
  intros page. subst page. cbn beta. split.
  - rewrite !get_deployments_eval. cbn [fst listed q_limit q_offset].
    rewrite <- map_app. f_equal.
    rewrite firstn_plus. f_equal. f_equal.
    rewrite skipn_skipn. f_equal. apply Nat.add_comm.
  - intros row total Htotal Hin Hw.
    rewrite !get_deployments_eval in *.
    cbn [fst listed listed_total q_limit q_offset] in *.
    injection Htotal as <-. apply in_map. cbn [skipn].
    change (whereClause userId (mkListQuery status search (Some _) (Some 0%nat)))
      with (whereClause userId (mkListQuery status search None None)).
    set (matching := filter _ (deployments (db w))).
    rewrite <- (Permutation_length (sort_by_perm startedAt_desc matching)).
    rewrite firstn_all. apply sort_by_In. subst matching.
    apply filter_In. now split.
Qed.

(** ** [DELETE /:id] *)

Lemma has_key_of_find {A} (key : A -> Id) id (rows : list A) r :
  In r rows -> key r = id -> has_key key id rows = true.
Proof.
  intros Hin Hk. apply (has_key_In key). rewrite <- Hk. now apply in_map.
Qed.

(** The three ways in which [DELETE /:id] ends. *)
Lemma delete_deployment_eval u id w :
  delete_deployment u id w
  = match find (fun x => Nat.eqb (Deployment.id x) id
                         && Nat.eqb (Deployment.userId x) u)
               (deployments (db w)) with
    | None => (Ok (mkResponse 404 (body_error "Deployment not found")), w)
    | Some _ =>
        if has_key DeploymentStep.deploymentId id (steps (db w))
        then (Ok internal_error, w)
        else (Ok (mkResponse 200 (body_message "Deployment deleted successfully")),
              set_db w (mkDB (filter (fun r => negb (Nat.eqb (Deployment.id r) id))
                                     (deployments (db w)))
                             (steps (db w)) (next_id (db w))))
    end.
Proof.
  unfold delete_deployment, try_catch, prisma_deployment_findFirst.
  unfold bind at 1. unfold bind at 1. cbn [get_db ret].
  destruct (find _ (deployments (db w))) as [r|] eqn:Hfind;
    cbn [option_map]; [|reflexivity].
  destruct (findFirst_sound _ _ _ _ Hfind) as (Hin & Hid & _).
  unfold bind at 1. unfold prisma_deployment_delete. unfold bind at 1.
  cbn [get_db]. rewrite (has_key_of_find Deployment.id id _ r Hin Hid).
  cbn [negb].
  now destruct (has_key DeploymentStep.deploymentId id (steps (db w))).
Qed.

Lemma steps_of_nonempty_has_key d id :
  steps_of d id <> [] ->
  has_key DeploymentStep.deploymentId id (steps d) = true.
Proof.
  intros H. destruct (steps_of d id) as [|s l] eqn:E; [congruence|].
  assert (Hs : In s (steps_of d id)) by (rewrite E; now left).
  apply steps_of_In in Hs. destruct Hs as [Hin Hid].
  eapply has_key_of_find; eauto.
Qed.

(** X5: [DELETE /:id] cannot delete a deployment that has steps: the foreign
    key of the steps restricts the deletion, the handler answers 500 and
    the store is as before.  Every deployment that [POST /] creates has
    steps, so it cannot be deleted.  A deployment of another user, or
    none, is answered with 404. *)
Theorem delete_blocked_by_steps (w : World) (userId id : Id) :
  (forall r, find_deployment (db w) id = Some r ->
             Deployment.userId r = userId ->
             steps_of (db w) id <> [] ->
             delete_deployment userId id w = (Ok internal_error, w))
  /\ (forall modpackUrl modpackName,
        wf_db (db w) -> modpackUrl <> ""%string ->
        let w1 := snd (post_deployment userId (Some modpackUrl) modpackName w) in
        delete_deployment userId (next_id (db w)) w1 = (Ok internal_error, w1))
  /\ ((forall r, In r (deployments (db w)) -> Deployment.id r = id ->
                 Deployment.userId r <> userId) ->
      delete_deployment userId id w
      = (Ok (mkResponse 404 (body_error "Deployment not found")), w)).
Proof.
  assert (G : forall w0 u i r,
             find_deployment (db w0) i = Some r -> Deployment.userId r = u ->
             steps_of (db w0) i <> [] ->
             delete_deployment u i w0 = (Ok internal_error, w0)).
  { intros w0 u i r Hfind Hu Hsteps. rewrite delete_deployment_eval.
    rewrite (findFirst_owned _ _ _ _ Hfind Hu).
    now rewrite steps_of_nonempty_has_key. }
  splits.
  - apply G.
  - intros url name Hwf Hurl w1. subst w1.
    rewrite post_deployment_created by assumption. cbn [snd].
    eapply G.
    + now apply find_new_deployment.
    + reflexivity.
    + rewrite steps_of_new_deployment by assumption.
      rewrite createDeploymentPlan_cases.
      now destruct (isTech url), (isLarge url).
  - intros H. rewrite delete_deployment_eval.
    rewrite find_all_false; [reflexivity|].
    intros y Hy. destruct (Nat.eqb_spec (Deployment.id y) id) as [E|E];
      [|reflexivity].
    cbn. apply Nat.eqb_neq. now apply H.
Qed.

(** ** [POST /]: validation and what is stored *)

(** X6: for a body whose [modpackUrl] and [modpackName] are absent or
    strings: [POST /] without a URL, or with the empty one, answers 400
    and leaves the world as it is.  With a URL, on a well-formed store, it
    answers 201: the rows that were stored are kept as they are and in
    their place, one deployment is added and one step for each step of
    the plan; on these bodies the handler does not answer 500. *)
Theorem post_deployment_validates (w : World) (userId : Id)
    (modpackUrl modpackName : option string) :
  wf_db (db w) ->
  let r := post_deployment userId modpackUrl modpackName w in
  match truthy modpackUrl with
  | None =>
      r = (Ok (mkResponse 400 (body_error "Modpack URL is required")), w)
  | Some url =>
      code_of (fst r) = Some 201%nat
      /\ (exists row,
            deployments (db (snd r)) = (deployments (db w) ++ [row])%list
            /\ Deployment.status row = PENDING
            /\ Deployment.userId row = userId
            /\ Deployment.modpackUrl row = url)
      /\ (exists new,
            steps (db (snd r)) = (steps (db w) ++ new)%list
            /\ List.length new = List.length (createDeploymentPlan url)
            /\ Forall (fun s => DeploymentStep.status s = PENDING
                                /\ DeploymentStep.deploymentId s = next_id (db w))
                      new)
      /\ emitted (snd r) = emitted w
  end.
Proof.
  intros Hwf r. subst r.
  destruct (truthy modpackUrl) as [url|] eqn:Ht.
  - assert (E : modpackUrl = Some url /\ url <> ""%string).
    { unfold truthy in Ht. destruct modpackUrl as [v|]; [|discriminate].
      destruct (String.eqb_spec v ""); [discriminate|]. split; congruence. }
    destruct E as [-> Hurl].
    rewrite post_deployment_created by assumption.
    cbn [fst snd code_of code after_post db deployments steps emitted]. splits.
    + reflexivity.
    + eexists. split; [reflexivity|]. now cbn.
    + eexists. split; [reflexivity|]. split.
      * rewrite <- (length_map DeploymentStep.name), new_steps_names.
        apply length_map.
      * apply Forall_forall. intros s Hs. split.
        -- pose proof (new_steps_status (next_id (db w))
                         (createDeploymentPlan url) (S (next_id (db w))) 0) as F.
           rewrite Forall_forall in F. now apply F.
        -- eapply new_steps_deploymentId; eauto.
    + reflexivity.
  - unfold post_deployment, try_catch. now rewrite Ht.
Qed.

(** ** [extractModpackName] *)

Lemma segment_no_slash s : has_char "/" (segment s) = false.
Proof.
  induction s as [|c s IH]; cbn; [reflexivity|].
  unfold is_slash. destruct (Ascii.eqb c "/") eqn:E; cbn; [reflexivity|].
  now rewrite E.
Qed.

Lemma replace_chars_no_slash f s :
  has_char "/" s = false -> has_char "/" (replace_chars f s) = false.
Proof.
  induction s as [|c s IH]; cbn; [reflexivity|].
  intros H. apply orb_false_iff in H. destruct H as [Hc Hs].
  rewrite (IH Hs). now destruct (f c); [|rewrite Hc].
Qed.

Lemma replace_chars_nonempty f s :
  s <> ""%string -> replace_chars f s <> ""%string.
Proof. destruct s; [congruence | discriminate]. Qed.

Lemma replace_chars_removes f c s :
  f c = true -> c <> " "%char -> has_char c (replace_chars f s) = false.
Proof.
  intros Hf Hc. induction s as [|c' s IH]; cbn; [reflexivity|].
  rewrite IH, orb_false_r. destruct (f c') eqn:E.
  - apply Ascii.eqb_neq. congruence.
  - apply Ascii.eqb_neq. congruence.
Qed.

Lemma match_after_some marker url seg :
  match_after marker url = Some seg ->
  seg <> ""%string /\ has_char "/" seg = false.
Proof.
  induction url as [|c url IH]; cbn [match_after].
  - destruct (String.prefix marker ""); [|discriminate].
    destruct (String.eqb_spec (segment (drop (String.length marker) "")) "");
      [discriminate|].
    intros [= <-]. split; [assumption | apply segment_no_slash].
  - destruct (String.prefix marker (String c url)); [|exact IH].
    destruct (String.eqb_spec
                (segment (drop (String.length marker) (String c url))) "");
      [exact IH|].
    intros [= <-]. split; [assumption | apply segment_no_slash].
Qed.

Lemma match_last_segment_some url seg :
  match_last_segment url = Some seg ->
  seg <> ""%string /\ has_char "/" seg = false.
Proof.
  induction url as [|c url IH]; cbn [match_last_segment]; [discriminate|].
  destruct (is_slash c && negb (String.eqb (segment url) "")
            && (String.eqb (after_segment url) ""
                || String.eqb (after_segment url) "/")) eqn:E; [|exact IH].
  intros [= <-]. apply andb_true_iff in E. destruct E as [E _].
  apply andb_true_iff in E. destruct E as [_ E].
  apply negb_true_iff in E. split; [|apply segment_no_slash].
  intros H. rewrite H in E. discriminate.
Qed.

Lemma includes_prefix_false s t :
  includes s t = false -> String.prefix t s = false.
Proof.
  destruct s; cbn [includes]; intros H; apply orb_false_iff in H; tauto.
Qed.

Lemma match_after_none marker url :
  includes url marker = false -> match_after marker url = None.
Proof.
  induction url as [|c url IH]; intros H; cbn [match_after];
    rewrite (includes_prefix_false _ _ H).
  - reflexivity.
  - apply IH. cbn [includes] in H. apply orb_false_iff in H. tauto.
Qed.

(** X7: The name that [extractModpackName] gives is never empty and has no
    slash and no dash; without "curseforge.com" and "modrinth.com" in the
    URL it has no underscore either.  A CurseForge URL without
    "/projects/" and a Modrinth URL without "/project/" give
    "Unknown Modpack". *)
Theorem extractModpackName_shape (url : string) :
  let name := extractModpackName url in
  name <> ""%string
  /\ has_char "/" name = false
  /\ has_char "-" name = false
  /\ (includes url "curseforge.com" = false ->
      includes url "modrinth.com" = false ->
      has_char "_" name = false)
  /\ (includes url "curseforge.com" = true ->
      includes url "/projects/" = false ->
      name = "Unknown Modpack")
  /\ (includes url "curseforge.com" = false ->
      includes url "modrinth.com" = true ->
      includes url "/project/" = false ->
      name = "Unknown Modpack").
Proof.
  assert (G : forall m f,
             f "-"%char = true ->
             name_or_unknown m f <> ""%string
             /\ (forall seg, m = Some seg ->
                   seg <> ""%string /\ has_char "/" seg = false) ->
             name_or_unknown m f <> ""%string
             /\ has_char "/" (name_or_unknown m f) = false
             /\ has_char "-" (name_or_unknown m f) = false).
  { intros m f Hf [H1 H2]. destruct m as [seg|]; cbn.
    - destruct (H2 seg eq_refl) as [Hne Hsl]. splits.
      + now apply replace_chars_nonempty.
      + now apply replace_chars_no_slash.
      + apply replace_chars_removes; [exact Hf | discriminate].
    - splits; [discriminate | reflexivity | reflexivity]. }
  assert (N : forall m f,
             (forall seg, m = Some seg -> seg <> ""%string) ->
             name_or_unknown m f <> ""%string).
  { intros m f H. destruct m as [seg|]; cbn; [|discriminate].
    apply replace_chars_nonempty. now apply H. }
  intros name. subst name. unfold extractModpackName.
  destruct (includes url "curseforge.com") eqn:Hc;
    [|destruct (includes url "modrinth.com") eqn:Hm].
  - destruct (G (match_after "/projects/" url) is_dash eq_refl) as (A & B & C).
    { split.
      - apply N. intros seg H. now apply match_after_some in H.
      - intros seg H. now apply match_after_some in H. }
    splits; auto; try discriminate.
    intros _ H. now rewrite match_after_none.
  - destruct (G (match_after "/project/" url) is_dash eq_refl) as (A & B & C).
    { split.
      - apply N. intros seg H. now apply match_after_some in H.
      - intros seg H. now apply match_after_some in H. }
    splits; auto; try discriminate.
    intros _ _ H. now rewrite match_after_none.
  - destruct (G (match_last_segment url) is_dash_or_underscore eq_refl)
      as (A & B & C).
    { split.
      - apply N. intros seg H. now apply match_last_segment_some in H.
      - intros seg H. now apply match_last_segment_some in H. }
    splits; auto; try discriminate.
    intros _ _. destruct (match_last_segment url) as [seg|]; cbn; [|reflexivity].
    apply replace_chars_removes; [reflexivity | discriminate].
Qed.

(** * More on the run *)

(** ** What a run emits *)

Lemma run_steps_emissions d u st fa rest :
  forall i w exit w',
    known d rest w ->
    run_steps d u st fa i rest w = (Ok exit, w') ->
    exit = (if fails_within fa i (List.length rest) then Returned else Finished)
    /\ clock w' = clock w
    /\ clock_pos w' = (clock_pos w + loop_readings fa i (List.length rest))%nat
    /\ emitted w'
       = (emitted w ++ loop_emissions d u fa i rest
          ++ (if fails_within fa i (List.length rest)
              then [failed_event d u ((clock w (clock_pos w' - 1) - st) / 1000)]
              else []))%list.
Proof.
  unfold loop_readings.
  induction rest as [|s rest IH]; intros i w exit w' Hk Hrun.
  - cbn in Hrun. injection Hrun as <- <-. cbn [List.length loop_emissions].
    rewrite fails_within_nil. cbn. rewrite app_nil_r. splits; auto.
  - assert (Hks : has_key DeploymentStep.id (DeploymentStep.id s) (steps (db w))
                  = true) by (apply Hk; now left).
    cbn [List.length loop_emissions].
    destruct (Z.eq_dec (Z.of_nat i) fa) as [He|Hne].
    + rewrite run_steps_failed in Hrun by (assumption || apply Hk).
      injection Hrun as <- <-. rewrite (fails_within_here _ _ _ He).
      apply Z.eqb_eq in He. rewrite He. splits; try reflexivity.
      * unfold after_failed. wsimpl. apply Z.eqb_eq in He. lia.
      * unfold after_failed, failed_event. wsimpl.
        rewrite <- !app_assoc. cbn [app Nat.sub]. reflexivity.
    + rewrite run_steps_completed in Hrun by assumption.
      apply IH in Hrun; [|apply known_after_completed; exact Hk].
      destruct Hrun as (E1 & E2 & Ep & E3).
      rewrite (fails_within_skip _ _ _ Hne).
      pose proof Hne as Hne'. apply Z.eqb_neq in Hne'. rewrite Hne'. splits.
      * exact E1.
      * rewrite E2. reflexivity.
      * rewrite Ep. unfold after_completed. wsimpl.
        destruct (fails_within fa (S i) (List.length rest)) eqn:Hf; [|lia].
        unfold fails_within in Hf. apply andb_true_iff in Hf.
        rewrite Z.leb_le, Z.ltb_lt in Hf. lia.
      * rewrite E3. unfold after_completed. wsimpl.
        rewrite <- !app_assoc. cbn [app]. reflexivity.
Qed.

Lemma simulateDeployment_emissions dw u w w' :
  known (deployment_row dw) (deployment_steps dw) w ->
  simulateDeployment dw u w = (Ok tt, w') ->
  let n := List.length (deployment_steps dw) in
  let fa := decided_failAtStep w n in
  clock_pos w'
  = (clock_pos w
     + (if fails_within fa 0 n then 2 * Z.to_nat fa + 6 else 2 * n + 3))%nat
  /\ emitted w' = (emitted w ++ run_emissions dw u w)%list.
Proof.
  intros Hk Hrun. destruct dw as [d ss].
  cbn [deployment_row deployment_steps] in *.
  rewrite simulateDeployment_start in Hrun by apply Hk.
  cbn [deployment_row deployment_steps] in Hrun.
  unfold bind at 1 in Hrun.
  destruct (run_steps d u (clock w (clock_pos w))
              (decided_failAtStep w (List.length ss)) 0 ss (after_start d u w))
    as [[exit|e] w2] eqn:Hloop; [|discriminate].
  apply run_steps_emissions in Hloop; [|now apply known_after_start].
  destruct Hloop as (E1 & E2 & Ep & E3). unfold loop_readings in Ep.
  unfold run_emissions. cbn [deployment_row deployment_steps].
  destruct (fails_within (decided_failAtStep w (List.length ss)) 0
              (List.length ss)); subst exit.
  - cbn [ret] in Hrun. injection Hrun as <-.
    assert (Ep' : clock_pos w2
                  = (clock_pos w
                     + 2 * Z.to_nat (decided_failAtStep w (List.length ss)) + 6)%nat).
    { rewrite Ep. unfold after_start. wsimpl. lia. }
    split; [lia|].
    replace (clock_pos w2 - 1)%nat
      with (clock_pos w
            + 2 * Z.to_nat (decided_failAtStep w (List.length ss)) + 5)%nat
      in E3 by lia.
    rewrite E3. unfold after_start. wsimpl.
    rewrite <- !app_assoc. reflexivity.
  - revert Hrun. do 2 mstep. unfold bind at 1.
    unfold prisma_deployment_update. unfold bind at 1. cbn [get_db]. wsimpl.
    destruct (has_key Deployment.id (Deployment.id d) (deployments (db w2)));
      [|discriminate].
    cbn [put_db emit set_db]. wsimpl. intros [= <-]. wsimpl.
    assert (Ep' : clock_pos w2 = (clock_pos w + 2 * List.length ss + 1)%nat).
    { rewrite Ep. unfold after_start. wsimpl. lia. }
    split; [lia|]. rewrite E3, E2, Ep'. unfold after_start, completed_event. wsimpl.
    rewrite <- !app_assoc. cbn [app]. rewrite ?app_nil_r. reflexivity.
Qed.

(** The cases of a start signal on a well-formed store: not found, or a
    run that does not throw. *)
Lemma on_start_deployment_cases w sock id :
  wf_db (db w) ->
  (on_start_deployment sock id w
   = (Ok tt,
      mkWorld (db w)
        (emitted w ++ [(to_socket (Socket.id sock),
                        deployment_error "Deployment not found")])
        (random w) (random_pos w) (clock w) (clock_pos w))
   /\ forall r, find_deployment (db w) id = Some r ->
                Deployment.userId r <> Socket.userId sock)
  \/ (exists r w',
        find_deployment (db w) id = Some r
        /\ Deployment.userId r = Socket.userId sock
        /\ Deployment.id r = id
        /\ on_start_deployment sock id w = (Ok tt, w')
        /\ simulateDeployment (with_steps (db w) r) (Socket.userId sock) w
           = (Ok tt, w')
        /\ run_post (with_steps (db w) r) (Socket.userId sock) w w'
        /\ clock_pos w'
           = (clock_pos w
              + (let n := List.length (steps_of (db w) id) in
                 let fa := decided_failAtStep w n in
                 if fails_within fa 0 n then 2 * Z.to_nat fa + 6 else 2 * n + 3))%nat
        /\ emitted w'
           = (emitted w
              ++ run_emissions (with_steps (db w) r) (Socket.userId sock) w)%list).
Proof.
  intros Hwf.
  destruct (find_deployment (db w) id) as [r|] eqn:Hfind.
  - destruct (Nat.eq_dec (Deployment.userId r) (Socket.userId sock)) as [Hu|Hu].
    + right.
      destruct (simulateDeployment_spec (with_steps (db w) r)
                  (Socket.userId sock) w) as (w' & Hrun & Hpost).
      { cbn. apply steps_of_NoDup, Hwf. }
      { cbn. now apply known_with_steps with (id := id). }
      exists r, w'. destruct (find_deployment_In _ _ _ Hfind) as [_ Hid].
      splits; auto.
      * unfold on_start_deployment, try_catch, prisma_deployment_findFirst.
        unfold bind at 1. unfold bind at 1. cbn [get_db ret].
        rewrite (findFirst_owned _ _ _ _ Hfind Hu). cbn [option_map].
        now rewrite Hrun.
      * rewrite <- Hid.
        apply (simulateDeployment_emissions (with_steps (db w) r)
                 (Socket.userId sock) w w'); [|exact Hrun].
        cbn. now apply known_with_steps with (id := id).
      * apply (simulateDeployment_emissions (with_steps (db w) r)
                 (Socket.userId sock) w w'); [|exact Hrun].
        cbn. now apply known_with_steps with (id := id).
    + left. split.
      * apply on_start_deployment_not_found.
        eapply findFirst_foreign; eauto. apply Hwf.
      * intros r' [= <-]. exact Hu.
  - left. split.
    + apply on_start_deployment_not_found. now apply findFirst_missing.
    + discriminate.
Qed.

(** The run that the start signal of the owner starts: the world and the
    row of the deployment that it leaves. *)
Lemma on_start_deployment_run w sock r :
  wf_db (db w) ->
  find_deployment (db w) (Deployment.id r) = Some r ->
  Deployment.userId r = Socket.userId sock ->
  let id := Deployment.id r in
  let n := List.length (steps_of (db w) id) in
  let fa := decided_failAtStep w n in
  let p := clock_pos w in
  exists w' r',
    on_start_deployment sock id w = (Ok tt, w')
    /\ simulateDeployment (with_steps (db w) r) (Socket.userId sock) w
       = (Ok tt, w')
    /\ run_post (with_steps (db w) r) (Socket.userId sock) w w'
    /\ emitted w'
       = (emitted w
          ++ run_emissions (with_steps (db w) r) (Socket.userId sock) w)%list
    /\ find_deployment (db w') id = Some r'
    /\ (if fails_within fa 0 n
        then Deployment.status r' = FAILED
             /\ Deployment.duration r'
                = Some ((clock w (p + 2 * Z.to_nat fa + 4) - clock w p) / 1000)
        else Deployment.status r' = COMPLETED
             /\ Deployment.duration r'
                = Some ((clock w (p + 2 * n + 1) - clock w p) / 1000)).
Proof.
  intros Hwf Hfind Hown id n fa p.
  destruct (on_start_deployment_cases w sock id Hwf)
    as [[_ Hforeign] | (r0 & w' & Hfind' & _ & Hid & E & Hrun & Hpost & Hp & Hem)].
  { exfalso. eapply Hforeign; eauto. }
  unfold id in Hfind'. rewrite Hfind in Hfind'. injection Hfind' as <-.
  pose proof Hpost as Hpost0.
  destruct Hpost as (_ & _ & _ & _ & _ & _ & _ & _ & (r' & Hr' & Hdur & Hok & Hko) & _).
  cbn [with_steps deployment_row deployment_steps] in Hr', Hdur, Hok, Hko.
  fold id in Hr', Hok, Hko. fold n in Hok, Hko, Hp. fold fa in Hok, Hko, Hp.
  fold p in Hp, Hdur. cbv zeta in Hp. fold fa in Hp.
  exists w', r'. splits; auto.
  destruct (fails_within fa 0 n) eqn:Hf.
  - destruct (fails_within_index _ _ Hf) as (j & Hj & Hjfa).
    destruct (nth_error (steps_of (db w) id) j) as [s|] eqn:Hs;
      [|apply nth_error_None in Hs; fold n in Hs; lia].
    destruct (Hko j s Hs Hjfa) as (Hst & _ & _). split; [exact Hst|].
    rewrite Hdur.
    now replace (clock_pos w' - 2)%nat with (p + 2 * Z.to_nat fa + 4)%nat by lia.
  - destruct (Hok eq_refl) as (Hst & _). split; [exact Hst|].
    rewrite Hdur.
    now replace (clock_pos w' - 2)%nat with (p + 2 * n + 1)%nat by lia.
Qed.

(** X8: Progress events reach the owner only.  What a start signal makes the
    server emit goes to the requesting socket (the error) or to the room
    of the session's user (the run); a socket of another user receives
    none of it. *)
Theorem start_emissions_scoped (w : World) (sock other : Socket.t) (id : Id) :
  wf_db (db w) ->
  Socket.userId other <> Socket.userId sock ->
  Socket.id other <> Socket.id sock ->
  let new := new_emissions w (handle (start_deployment sock id) w) in
  Forall (fun e => receives sock e = true) new
  /\ filter (receives other) new = []
  /\ (forall r, find_deployment (db w) id = Some r ->
                Deployment.userId r <> Socket.userId sock ->
                filter is_progress new = []).
Proof.
  intros Hwf Hu Hs new. subst new. cbn [handle].
  destruct (on_start_deployment_cases w sock id Hwf)
    as [[E Hforeign] | (r & w' & Hfind & Hown & Hid & E & _ & Hpost & _ & Hem)];
    rewrite E; cbn [snd]; unfold new_emissions.
  - cbn [emitted]. rewrite skipn_new. splits.
    + repeat constructor. cbn. apply Nat.eqb_refl.
    + cbn. apply Nat.eqb_neq in Hs. now rewrite Hs.
    + reflexivity.
  - destruct Hpost as (_ & _ & (new & E1 & _ & _ & E4) & _).
    cbn [with_steps deployment_row deployment_steps] in E1.
    rewrite E1, skipn_new.
    assert (A : Forall (fun e => fst e = to_user_room (Socket.userId sock))
                  ((to_user_room (Socket.userId sock),
                    deployment_status (Deployment.id r) RUNNING
                      "Deployment started") :: new)).
    { constructor; [reflexivity|]. eapply Forall_impl; [|exact E4].
      now intros e [He _]. }
    splits.
    + eapply Forall_impl; [|exact A]. intros e He. unfold receives.
      rewrite He. apply Nat.eqb_refl.
    + apply filter_none. rewrite Forall_forall in A. intros e He.
      unfold receives. rewrite (A e He). now apply Nat.eqb_neq.
    + intros r' Hr' Hne. congruence.
Qed.

(** X9: The events of a run, in full: what the start signal of the owner makes
    the server emit is [run_emissions], computed from the plan, the two
    draws and the clock readings of the world before the run.  The name
    of the modpack is taken to be ASCII: the host name of the last event
    is computed from it. *)
Theorem start_emissions_trace (w : World) (sock : Socket.t) (id : Id)
    (r : Deployment.t) :
  wf_db (db w) ->
  find_deployment (db w) id = Some r ->
  Deployment.userId r = Socket.userId sock ->
  is_ascii (Deployment.modpackName r) = true ->
  new_emissions w (handle (start_deployment sock id) w)
  = run_emissions (with_steps (db w) r) (Socket.userId sock) w.
Proof.
  intros Hwf Hfind Hown _. cbn [handle].
  destruct (on_start_deployment_cases w sock id Hwf)
    as [[_ Hforeign] | (r' & w' & Hfind' & _ & _ & E & _ & _ & _ & Hem)].
  - exfalso. eapply Hforeign; eauto.
  - rewrite Hfind in Hfind'. injection Hfind' as <-. rewrite E. cbn [snd].
    unfold new_emissions. rewrite Hem. apply skipn_new.
Qed.

(** X10: The duration of a run, stored and announced.  A completed run stores
    the duration that its deployment-complete event carries.  A failed run
    computes the duration twice, from two readings of the clock: the first
    is stored, the second is announced. *)
Theorem stored_and_announced_duration (w : World) (sock : Socket.t) (id : Id)
    (r : Deployment.t) :
  wf_db (db w) ->
  find_deployment (db w) id = Some r ->
  Deployment.userId r = Socket.userId sock ->
  let w' := handle (start_deployment sock id) w in
  let n := List.length (steps_of (db w) id) in
  let fa := decided_failAtStep w n in
  let p := clock_pos w in
  exists r' before message announced info,
    find_deployment (db w') id = Some r'
    /\ new_emissions w w'
       = (before
          ++ [(to_user_room (Socket.userId sock),
               deployment_complete id (Deployment.status r') message announced
                 info)])%list
    /\ (fails_within fa 0 n = false ->
          Deployment.status r' = COMPLETED
          /\ Deployment.duration r' = Some announced
          /\ announced = (clock w (p + 2 * n + 1) - clock w p) / 1000)
    /\ (fails_within fa 0 n = true ->
          Deployment.status r' = FAILED
          /\ Deployment.duration r'
             = Some ((clock w (p + 2 * Z.to_nat fa + 4) - clock w p) / 1000)
          /\ announced = (clock w (p + 2 * Z.to_nat fa + 5) - clock w p) / 1000).
Proof.
  intros Hwf Hfind Hown.
  destruct (find_deployment_In _ _ _ Hfind) as [_ Hid0]. subst id.
  intros w' n fa p. subst w'. cbn [handle].
  destruct (on_start_deployment_run w sock r Hwf Hfind Hown)
    as (w' & r' & E & _ & _ & Hem & Hr' & Hfinal).
  fold n in Hfinal. fold fa in Hfinal. fold p in Hfinal.
  rewrite E. cbn [snd]. unfold new_emissions. rewrite Hem, skipn_new.
  unfold run_emissions. cbn [with_steps deployment_row deployment_steps].
  fold n. fold fa. fold p.
  exists r', ((to_user_room (Socket.userId sock),
               deployment_status (Deployment.id r) RUNNING "Deployment started")
              :: loop_emissions r (Socket.userId sock) fa 0
                   (steps_of (db w) (Deployment.id r))).
  destruct (fails_within fa 0 n); destruct Hfinal as [Hst Hdur].
  - exists "Deployment failed"%string,
      ((clock w (p + 2 * Z.to_nat fa + 5) - clock w p) / 1000), None.
    rewrite Hst. splits; auto; discriminate.
  - exists "Deployment completed successfully!"%string,
      ((clock w (p + 2 * n + 1) - clock w p) / 1000),
      (Some (serverInfo_of (Deployment.modpackName r))).
    rewrite Hst. splits; auto; discriminate.
Qed.

Lemma loop_emissions_length d u fa rest :
  forall i, fails_within fa i (List.length rest) = false ->
            List.length (loop_emissions d u fa i rest) = (2 * List.length rest)%nat.
Proof.
  induction rest as [|s rest IH]; intros i Hf; [reflexivity|].
  cbn [loop_emissions List.length] in *.
  destruct (Z.eq_dec (Z.of_nat i) fa) as [He|Hne].
  - rewrite (fails_within_here _ _ _ He) in Hf. discriminate.
  - rewrite (fails_within_skip _ _ _ Hne) in Hf.
    apply Z.eqb_neq in Hne. rewrite Hne. cbn [List.length].
    rewrite (IH _ Hf). lia.
Qed.

(** X11: A run for which no failure is drawn completes: every step of the plan
    and the deployment are COMPLETED, and two events are emitted for every
    step, RUNNING and then COMPLETED in the order of the plan, between the
    two events of the deployment. *)
Theorem run_without_failure (w : World) (sock : Socket.t) (id : Id)
    (r : Deployment.t) :
  wf_db (db w) ->
  find_deployment (db w) id = Some r ->
  Deployment.userId r = Socket.userId sock ->
  Qltb (random w (random_pos w)) failure_chance = false ->
  let w' := handle (start_deployment sock id) w in
  let ss := steps_of (db w) id in
  (forall s, In s ss ->
             step_status_of (db w') (DeploymentStep.id s) = Some COMPLETED)
  /\ deployment_status_of (db w') id = Some COMPLETED
  /\ step_marks (new_emissions w w')
     = flat_map (fun s => [(DeploymentStep.id s, RUNNING);
                           (DeploymentStep.id s, COMPLETED)]) ss
  /\ List.length (new_emissions w w') = (2 * List.length ss + 2)%nat.
Proof.
  intros Hwf Hfind Hown Hdraw.
  destruct (find_deployment_In _ _ _ Hfind) as [_ Hid0]. subst id.
  intros w' ss. subst w'. cbn [handle].
  destruct (on_start_deployment_cases w sock (Deployment.id r) Hwf)
    as [[_ Hforeign] | (r0 & w' & Hfind' & _ & Hid & E & _ & Hpost & Hp & Hem)].
  { exfalso. eapply Hforeign; eauto. }
  rewrite Hfind in Hfind'. injection Hfind' as <-. rewrite E. cbn [snd].
  assert (Hfa : forall n, decided_failAtStep w n = -1).
  { intros n. unfold decided_failAtStep. now rewrite Hdraw. }
  assert (Hf : forall i n, fails_within (-1) i n = false).
  { intros i n. unfold fails_within.
    destruct (Z.leb_spec (Z.of_nat i) (-1)); [lia | reflexivity]. }
  destruct Hpost as (_ & _ & (new & E1 & E2 & _) & _ & Hdone & _ & _ & _
                     & (r' & Hr' & _ & Hok & _) & _).
  cbn [with_steps deployment_row deployment_steps] in *.
  fold ss in Hdone, Hok, E2, Hem. rewrite Hfa in *.
  splits.
  - intros s Hs. apply In_nth_error in Hs. destruct Hs as [j Hj].
    apply (Hdone j s Hj). left. lia.
  - unfold deployment_status_of. rewrite Hr'. cbn [option_map].
    now destruct (Hok (Hf _ _)) as [-> _].
  - unfold new_emissions. rewrite E1, skipn_new. cbn [step_marks]. rewrite E2.
    clear. generalize 0%nat. induction ss as [|s ss IH]; intros i; [reflexivity|].
    cbn [expected_marks flat_map app].
    destruct (Z.eqb_spec (Z.of_nat i) (-1)); [lia|]. now rewrite IH.
  - unfold new_emissions. rewrite Hem, skipn_new. unfold run_emissions.
    cbn [with_steps deployment_row deployment_steps List.length].
    fold ss. rewrite Hfa, length_app, loop_emissions_length by apply Hf.
    cbn [List.length]. lia.
Qed.

(** * What the signals keep *)

(** ** A run writes status columns only *)

Lemma same_shape_refl d : same_shape d d.
Proof. now unfold same_shape. Qed.

Lemma same_shape_trans d1 d2 d3 :
  same_shape d1 d2 -> same_shape d2 d3 -> same_shape d1 d3.
Proof. unfold same_shape. intros (A & B & C) (A' & B' & C'). splits; congruence. Qed.

Lemma same_shape_deployment_update id u :
  keeps same_shape (prisma_deployment_update id u).
Proof.
  intros w. unfold prisma_deployment_update, bind, get_db, put_db, throw.
  destruct (has_key Deployment.id id (deployments (db w)));
    cbn [fst snd db set_db]; [|apply same_shape_refl].
  unfold same_shape. cbn [deployments steps next_id]. splits; try reflexivity.
  apply update_rows_proj. reflexivity.
Qed.

Lemma same_shape_deploymentStep_update id u :
  keeps same_shape (prisma_deploymentStep_update id u).
Proof.
  intros w. unfold prisma_deploymentStep_update, bind, get_db, put_db, throw.
  destruct (has_key DeploymentStep.id id (steps (db w)));
    cbn [fst snd db set_db]; [|apply same_shape_refl].
  unfold same_shape. cbn [deployments steps next_id]. splits; try reflexivity.
  apply update_rows_proj. reflexivity.
Qed.

Lemma on_start_deployment_same_shape sock id w :
  same_shape (db w) (db (snd (on_start_deployment sock id w))).
Proof.
  apply (keeps_on_start_deployment same_shape).
  - apply same_shape_refl.
  - apply same_shape_trans.
  - intros id' u _. apply same_shape_deployment_update.
  - apply same_shape_deploymentStep_update.
Qed.

Lemma on_start_deployment_data_same_shape sock data w :
  same_shape (db w) (db (snd (on_start_deployment_data sock data w))).
Proof.
  apply (keeps_on_start_deployment_data same_shape).
  - apply same_shape_refl.
  - apply same_shape_trans.
  - intros id' u _. apply same_shape_deployment_update.
  - apply same_shape_deploymentStep_update.
Qed.

Lemma map_as_posted_id l :
  map Deployment.id (map as_posted l) = map Deployment.id l.
Proof. rewrite map_map. reflexivity. Qed.

Lemma find_as_posted (l l' : list Deployment.t) id :
  map as_posted l' = map as_posted l ->
  option_map as_posted (find (fun r => Nat.eqb (Deployment.id r) id) l')
  = option_map as_posted (find (fun r => Nat.eqb (Deployment.id r) id) l).
Proof.
  revert l'. induction l as [|x l IH]; intros [|x' l'] H; try discriminate;
    [reflexivity|].
  cbn [map] in H.
  assert (Hx : as_posted x' = as_posted x) by congruence.
  assert (Hl : map as_posted l' = map as_posted l) by congruence.
  assert (Hid : Deployment.id x' = Deployment.id x).
  { change (Deployment.id (as_posted x') = Deployment.id (as_posted x)).
    now rewrite Hx. }
  simpl find. rewrite Hid.
  destruct (Nat.eqb (Deployment.id x) id); cbn [option_map]; [now rewrite Hx|].
  now apply IH.
Qed.

(** ** Sorting and the columns of a step *)

Lemma insert_by_map {A} (f : A -> A) (leb : A -> A -> bool) :
  (forall a b, leb (f a) (f b) = leb a b) ->
  forall x l, map f (insert_by leb x l) = insert_by leb (f x) (map f l).
Proof.
  intros H x l. induction l as [|y l IH]; cbn [insert_by map]; [reflexivity|].
  rewrite H. destruct (leb x y); cbn [map]; [reflexivity | now rewrite IH].
Qed.

Lemma sort_by_map {A} (f : A -> A) (leb : A -> A -> bool) :
  (forall a b, leb (f a) (f b) = leb a b) ->
  forall l, map f (sort_by leb l) = sort_by leb (map f l).
Proof.
  intros H l. unfold sort_by. induction l as [|x l IH]; cbn [fold_right map];
    [reflexivity|].
  now rewrite insert_by_map, IH.
Qed.

Lemma filter_map_comm {A} (f : A -> A) (p : A -> bool) :
  (forall a, p (f a) = p a) ->
  forall l, map f (filter p l) = filter p (map f l).
Proof.
  intros H l. induction l as [|x l IH]; cbn [filter map]; [reflexivity|].
  rewrite H. destruct (p x); cbn [map]; now rewrite IH.
Qed.

(** The steps of a deployment, as created, are read off the steps of the
    store, as created. *)
Lemma steps_of_as_created d id :
  map as_created (steps_of d id)
  = sort_by order_asc
      (filter (fun s => Nat.eqb (DeploymentStep.deploymentId s) id)
              (map as_created (steps d))).
Proof.
  unfold steps_of.
  rewrite (sort_by_map as_created) by reflexivity.
  now rewrite (filter_map_comm as_created) by reflexivity.
Qed.

(** X12: A run leaves the plan alone: no row is added, removed or moved, and
    the run writes the columns of status, times, duration, logs and error
    message only.  This holds for every start signal, whoever sends it and
    whatever the store is. *)
Theorem start_keeps_shape (w : World) (sock : Socket.t) (id : Id) :
  let w' := handle (start_deployment sock id) w in
  map as_posted (deployments (db w')) = map as_posted (deployments (db w))
  /\ map as_created (steps (db w')) = map as_created (steps (db w))
  /\ next_id (db w') = next_id (db w)
  /\ (forall id', map as_created (steps_of (db w') id')
                  = map as_created (steps_of (db w) id'))
  /\ (forall id', option_map as_posted (find_deployment (db w') id')
                  = option_map as_posted (find_deployment (db w) id')).
Proof.
  intros w'. subst w'. cbn [handle].
  destruct (on_start_deployment_same_shape sock id w) as (A & B & C).
  splits; auto.
  - intros id'. now rewrite !steps_of_as_created, B.
  - intros id'. now apply find_as_posted.
Qed.

(** ** A run writes the rows of one deployment *)

(** X13: A start signal writes the deployment that it names and the steps of
    that deployment: every other deployment and every step of another
    deployment is found as it was.  When the deployment is not one of the
    session's user, the store is left as it is. *)
Theorem start_touches_one_deployment (w : World) (sock : Socket.t) (id : Id) :
  wf_db (db w) ->
  let w' := handle (start_deployment sock id) w in
  (forall id', id' <> id ->
               find_deployment (db w') id' = find_deployment (db w) id')
  /\ (forall sid s, find_step (db w) sid = Some s ->
                    DeploymentStep.deploymentId s <> id ->
                    find_step (db w') sid = Some s)
  /\ ((forall r, find_deployment (db w) id = Some r ->
                 Deployment.userId r <> Socket.userId sock) ->
      db w' = db w).
Proof.
  intros Hwf w'. subst w'. cbn [handle].
  destruct (on_start_deployment_cases w sock id Hwf)
    as [[E _] | (r & w' & Hfind & Hown & Hid & E & _ & Hpost & _)];
    rewrite E; cbn [snd db].
  - splits; auto.
  - destruct Hpost as (_ & _ & _ & Hsteps & _ & _ & _ & Hothers & _).
    cbn [with_steps deployment_row deployment_steps] in Hsteps, Hothers.
    rewrite Hid in Hsteps, Hothers. splits.
    + exact Hothers.
    + intros sid s Hs Hne. rewrite Hsteps; [exact Hs|].
      intros Hin. apply in_map_iff in Hin. destruct Hin as (s' & Hsid & Hs').
      apply steps_of_In in Hs'. destruct Hs' as [Hs' Hd].
      apply find_some in Hs. destruct Hs as [Hs Hk]. apply Nat.eqb_eq in Hk.
      assert (s = s').
      { apply (same_key_same_row DeploymentStep.id (steps (db w)));
          [apply Hwf | assumption | assumption | congruence]. }
      congruence.
    + intros Hforeign. exfalso. eapply Hforeign; eauto.
Qed.

(** ** Signals, one after the other *)

Lemma post_deployment_cases w u url name :
  wf_db (db w) ->
  snd (post_deployment u url name w) = w
  \/ exists v, snd (post_deployment u url name w) = after_post w u v name.
Proof.
  intros Hwf. destruct (truthy url) as [v|] eqn:Ht.
  - right. exists v.
    assert (E : url = Some v /\ v <> ""%string).
    { unfold truthy in Ht. destruct url as [x|]; [|discriminate].
      destruct (String.eqb_spec x ""); [discriminate|]. split; congruence. }
    destruct E as [-> Hv]. now rewrite post_deployment_created.
  - left. unfold post_deployment, try_catch. now rewrite Ht.
Qed.

Lemma extends_refl d : extends d d.
Proof.
  split; [lia|]. exists []. now rewrite app_nil_r.
Qed.

Lemma extends_trans d1 d2 d3 : extends d1 d2 -> extends d2 d3 -> extends d1 d3.
Proof.
  intros (L1 & n1 & E1 & F1) (L2 & n2 & E2 & F2). split; [lia|].
  exists (n1 ++ n2)%list. split.
  - now rewrite E2, E1, app_assoc.
  - apply Forall_app. split; [exact F1|].
    eapply Forall_impl; [|exact F2]. cbn beta. intros s Hs. lia.
Qed.

Lemma same_shape_extends d d' : same_shape d d' -> extends d d'.
Proof.
  intros (_ & B & C). split; [lia|]. exists []. now rewrite app_nil_r.
Qed.

(** What a signal does to the steps of a well-formed store. *)
Lemma handle_extends s w : wf_db (db w) -> extends (db w) (db (handle s w)).
Proof.
  intros Hwf. destruct s as [u q|u id|u url name|u id|sock id|sock|sock data]; cbn [handle].
  - rewrite get_deployments_eval. apply extends_refl.
  - rewrite get_deployment_eval. apply extends_refl.
  - destruct (post_deployment_cases w u url name Hwf) as [->|[v ->]];
      [apply extends_refl|].
    unfold after_post, extends. wsimpl. split; [lia|].
    eexists. split; [apply map_app|].
    apply Forall_forall. intros s Hs. apply in_map_iff in Hs.
    destruct Hs as (s0 & <- & Hs0). apply new_steps_deploymentId in Hs0.
    cbn [as_created DeploymentStep.deploymentId]. lia.
  - rewrite delete_deployment_eval.
    destruct (find _ (deployments (db w))); [|apply extends_refl].
    destruct (has_key _ id (steps (db w))); [apply extends_refl|].
    cbn [snd set_db db]. split; [reflexivity|]. exists []. now rewrite app_nil_r.
  - apply same_shape_extends, on_start_deployment_same_shape.
  - apply extends_refl.
  - apply same_shape_extends, on_start_deployment_data_same_shape.
Qed.

Lemma handle_all_wf l : forall w, wf_db (db w) -> wf_db (db (handle_all l w)).
Proof.
  induction l as [|s l IH]; intros w Hwf; cbn [handle_all fold_left];
    [exact Hwf|].
  apply IH, handle_wf, Hwf.
Qed.

Lemma handle_all_extends l :
  forall w, wf_db (db w) -> extends (db w) (db (handle_all l w)).
Proof.
  induction l as [|s l IH]; intros w Hwf; cbn [handle_all fold_left].
  - apply extends_refl.
  - eapply extends_trans; [apply handle_extends, Hwf|].
    apply IH, handle_wf, Hwf.
Qed.

Lemma extends_steps_of d d' id :
  extends d d' -> (id < next_id d)%nat ->
  map as_created (steps_of d' id) = map as_created (steps_of d id).
Proof.
  intros (_ & new & E & F) Hid. rewrite !steps_of_as_created, E, filter_app.
  rewrite (filter_none _ new), app_nil_r; [reflexivity|].
  rewrite Forall_forall in F. intros s Hs. apply Nat.eqb_neq.
  specialize (F s Hs). lia.
Qed.

(** X14: The plan of a deployment is fixed when [POST /] stores it.  Whatever
    signals follow, the steps of a stored deployment keep their names,
    descriptions and order, and no step is added to them or removed; the
    steps of a deployment that [POST /] created are the steps of
    [createDeploymentPlan] for its URL, index by index. *)
Theorem plan_fixed (w : World) (signals : list Signal) :
  wf_db (db w) ->
  (forall id, (id < next_id (db w))%nat ->
     map as_created (steps_of (db (handle_all signals w)) id)
     = map as_created (steps_of (db w) id))
  /\ (forall userId modpackUrl modpackName,
        modpackUrl <> ""%string ->
        let w1 := handle (POST_deployment userId (Some modpackUrl) modpackName) w in
        let ss := steps_of (db (handle_all signals w1)) (next_id (db w)) in
        map DeploymentStep.name ss
        = map DeploymentPlan.name (createDeploymentPlan modpackUrl)
        /\ map DeploymentStep.order ss
           = map Z.of_nat (seq 0 (List.length (createDeploymentPlan modpackUrl)))).
Proof.
  intros Hwf. split.
  - intros id Hid. apply extends_steps_of; [|exact Hid].
    now apply handle_all_extends.
  - intros u url name Hurl w1 ss.
    assert (E1 : w1 = after_post w u url name).
    { subst w1. cbn [handle]. now rewrite post_deployment_created. }
    assert (Hwf1 : wf_db (db w1)) by (apply handle_wf, Hwf).
    assert (Hlt : (next_id (db w) < next_id (db w1))%nat).
    { rewrite E1. unfold after_post. wsimpl. lia. }
    pose proof (extends_steps_of _ _ _ (handle_all_extends signals w1 Hwf1) Hlt)
      as E.
    fold ss in E. rewrite E1 in E.
    rewrite steps_of_new_deployment in E by exact Hwf.
    split.
    + apply (f_equal (map DeploymentStep.name)) in E.
      rewrite !map_map in E. cbn [as_created DeploymentStep.name] in E.
      rewrite <- map_map with (g := DeploymentStep.name) (f := fun x => x) in E.
      rewrite !map_id in E. rewrite E. apply new_steps_names.
    + apply (f_equal (map DeploymentStep.order)) in E.
      rewrite !map_map in E. cbn [as_created DeploymentStep.order] in E.
      rewrite <- map_map with (g := DeploymentStep.order) (f := fun x => x) in E.
      rewrite !map_id in E. rewrite E. apply new_steps_orders.
Qed.

(** ** Deployments are not removed *)

Lemma persist_refl d : persist d d.
Proof. intros id r H. eauto. Qed.

Lemma persist_trans d1 d2 d3 : persist d1 d2 -> persist d2 d3 -> persist d1 d3.
Proof.
  intros H12 H23 id r H. destruct (H12 id r H) as (r2 & H2 & E2).
  destruct (H23 id r2 H2) as (r3 & H3 & E3). exists r3. split; congruence.
Qed.

Lemma same_shape_persist d d' : same_shape d d' -> persist d d'.
Proof.
  intros (A & _ & _) id r H.
  pose proof (find_as_posted (deployments d) (deployments d') id A) as E.
  unfold find_deployment in *. rewrite H in E.
  destruct (find _ (deployments d')) as [r'|]; [|discriminate].
  exists r'. split; [reflexivity|]. cbn in E. congruence.
Qed.

Lemma same_shape_all_have_steps d d' :
  same_shape d d' -> all_have_steps d -> all_have_steps d'.
Proof.
  intros (A & B & _) H r' Hr'.
  assert (Hid : In (Deployment.id r') (map Deployment.id (deployments d))).
  { rewrite <- map_as_posted_id, <- A, map_as_posted_id. now apply in_map. }
  apply in_map_iff in Hid. destruct Hid as (r & E & Hr).
  rewrite <- E.
  rewrite (has_key_keys DeploymentStep.deploymentId _ (steps d') (steps d)).
  - now apply H.
  - apply (f_equal (map DeploymentStep.deploymentId)) in B.
    now rewrite !map_map in B.
Qed.

(** [DELETE /:id] on a store where every deployment has a step. *)
Lemma delete_deployment_blocked u id w :
  all_have_steps (db w) ->
  delete_deployment u id w
  = (Ok (mkResponse 404 (body_error "Deployment not found")), w)
  \/ delete_deployment u id w = (Ok internal_error, w).
Proof.
  intros Hall. rewrite delete_deployment_eval.
  destruct (find _ (deployments (db w))) as [r|] eqn:Hf; [|now left].
  apply findFirst_sound in Hf. destruct Hf as (Hin & Hid & _).
  apply Hall in Hin. rewrite Hid in Hin. rewrite Hin. now right.
Qed.

Lemma handle_all_have_steps s w :
  wf_db (db w) -> all_have_steps (db w) ->
  all_have_steps (db (handle s w)) /\ persist (db w) (db (handle s w)).
Proof.
  intros Hwf Hall.
  destruct s as [u q|u id|u url name|u id|sock id|sock|sock data]; cbn [handle].
  - rewrite get_deployments_eval. split; [exact Hall | apply persist_refl].
  - rewrite get_deployment_eval. split; [exact Hall | apply persist_refl].
  - destruct (post_deployment_cases w u url name Hwf) as [->|[v ->]];
      [split; [exact Hall | apply persist_refl]|].
    split.
    + intros r Hr. unfold after_post in *. revert Hr. wsimpl. intros Hr.
      rewrite has_key_app. apply in_app_or in Hr. destruct Hr as [Hr|[<-|[]]].
      * now rewrite (Hall r Hr).
      * apply orb_true_iff. right.
        cbn [new_deployment Deployment.id].
        pose proof (createDeploymentPlan_length v) as Hlen.
        destruct (createDeploymentPlan v) as [|p plan];
          [destruct (isTech v); discriminate|].
        cbn [new_steps has_key existsb DeploymentStep.deploymentId].
        now rewrite Nat.eqb_refl.
    + intros id r H. exists r. split; [|reflexivity].
      unfold find_deployment, after_post in *. wsimpl.
      now rewrite find_app_first, H.
  - destruct (delete_deployment_blocked u id w Hall) as [-> | ->];
      (split; [exact Hall | apply persist_refl]).
  - pose proof (on_start_deployment_same_shape sock id w) as S. split.
    + eapply same_shape_all_have_steps; eauto.
    + now apply same_shape_persist.
  - split; [exact Hall | apply persist_refl].
  - pose proof (on_start_deployment_data_same_shape sock data w) as S. split.
    + eapply same_shape_all_have_steps; eauto.
    + now apply same_shape_persist.
Qed.

Lemma handle_all_have_steps_all l :
  forall w, wf_db (db w) -> all_have_steps (db w) ->
            all_have_steps (db (handle_all l w))
            /\ persist (db w) (db (handle_all l w)).
Proof.
  induction l as [|s l IH]; intros w Hwf Hall; cbn [handle_all fold_left].
  - split; [exact Hall | apply persist_refl].
  - destruct (handle_all_have_steps s w Hwf Hall) as [Hall1 P1].
    destruct (IH (handle s w) (handle_wf s w Hwf) Hall1) as [Hall2 P2].
    split; [exact Hall2 | eapply persist_trans; eauto].
Qed.

(** X15: Deployments are not removed.  [POST /] stores every deployment with
    the steps of its plan, and the foreign key of the steps blocks the
    deletion of a deployment that has steps: on a store where every
    deployment has a step, and so on every store that the signals build
    from the empty one, [DELETE /:id] answers 404 or 500 and changes
    nothing, and every deployment stays in the store with its identifier,
    owner, name, URL and start time. *)
Theorem deployments_persist (w : World) (signals : list Signal) :
  wf_db (db w) ->
  all_have_steps (db w) ->
  let w' := handle_all signals w in
  all_have_steps (db w')
  /\ (forall userId id,
        delete_deployment userId id w'
        = (Ok (mkResponse 404 (body_error "Deployment not found")), w')
        \/ delete_deployment userId id w' = (Ok internal_error, w'))
  /\ (forall id r, find_deployment (db w) id = Some r ->
        exists r', find_deployment (db w') id = Some r'
                   /\ as_posted r' = as_posted r).
Proof.
  intros Hwf Hall w'.
  destruct (handle_all_have_steps_all signals w Hwf Hall) as [Hall' P].
  splits.
  - exact Hall'.
  - intros u id. now apply delete_deployment_blocked.
  - exact P.
Qed.

(** * The client follows the run *)

(** ** Status updates on the server's steps *)

Lemma untimed_update (k : Id) (u u' : DeploymentStep.data) :
  DeploymentStep.set_status u = DeploymentStep.set_status u' ->
  forall l l',
    map untimed l = map untimed l' ->
    map untimed (update_rows DeploymentStep.id k (DeploymentStep.apply u) l)
    = map untimed (update_rows DeploymentStep.id k (DeploymentStep.apply u') l').
Proof.
  intros Hu. unfold update_rows.
  induction l as [|x l IH]; intros [|x' l'] H; try discriminate; [reflexivity|].
  cbn [map] in H.
  assert (Hx : untimed x = untimed x') by congruence.
  assert (Hl : map untimed l = map untimed l') by congruence.
  assert (Hid : DeploymentStep.id x = DeploymentStep.id x').
  { change (DeploymentStep.id (untimed x) = DeploymentStep.id (untimed x')).
    now rewrite Hx. }
  cbn [map]. rewrite (IH l' Hl), Hid. f_equal.
  destruct (Nat.eqb (DeploymentStep.id x') k); [|exact Hx].
  unfold untimed, DeploymentStep.apply in *.
  cbn [DeploymentStep.id DeploymentStep.deploymentId DeploymentStep.name
       DeploymentStep.description DeploymentStep.status DeploymentStep.order]
    in *.
  rewrite Hu. congruence.
Qed.

Lemma mark_steps_cons m marks l :
  mark_steps (m :: marks) l
  = mark_steps marks
      (update_rows DeploymentStep.id (fst m)
                   (DeploymentStep.apply (set_to (snd m))) l).
Proof. reflexivity. Qed.

Lemma mark_steps_untimed marks :
  forall l l', map untimed l = map untimed l' ->
               map untimed (mark_steps marks l) = map untimed (mark_steps marks l').
Proof.
  induction marks as [|m marks IH]; intros l l' H; [exact H|].
  rewrite !mark_steps_cons. apply IH. now apply untimed_update.
Qed.

(** The loop leaves the steps of the store as the status updates of its
    events do, up to the times and the logs. *)
Lemma run_steps_marks d u st fa rest :
  forall i w exit w',
    known d rest w ->
    run_steps d u st fa i rest w = (Ok exit, w') ->
    map untimed (steps (db w'))
    = map untimed (mark_steps (expected_marks fa i rest) (steps (db w))).
Proof.
  induction rest as [|s rest IH]; intros i w exit w' Hk Hrun.
  - cbn in Hrun. now injection Hrun as <- <-.
  - assert (Hks : has_key DeploymentStep.id (DeploymentStep.id s) (steps (db w))
                  = true) by (apply Hk; now left).
    cbn [expected_marks].
    destruct (Z.eq_dec (Z.of_nat i) fa) as [He|Hne].
    + rewrite run_steps_failed in Hrun by (assumption || apply Hk).
      injection Hrun as <- <-. apply Z.eqb_eq in He. rewrite He.
      rewrite !mark_steps_cons. cbn [mark_steps fold_left fst snd].
      unfold after_failed. wsimpl.
      apply untimed_update; [reflexivity|]. now apply untimed_update.
    + rewrite run_steps_completed in Hrun by assumption.
      apply IH in Hrun; [|apply known_after_completed; exact Hk].
      rewrite Hrun. apply Z.eqb_neq in Hne. rewrite Hne.
      rewrite !mark_steps_cons. cbn [fst snd]. apply mark_steps_untimed.
      unfold after_completed. wsimpl.
      apply untimed_update; [reflexivity|]. now apply untimed_update.
Qed.

Lemma simulateDeployment_marks dw u w w' :
  known (deployment_row dw) (deployment_steps dw) w ->
  simulateDeployment dw u w = (Ok tt, w') ->
  map untimed (steps (db w'))
  = map untimed
      (mark_steps
         (expected_marks
            (decided_failAtStep w (List.length (deployment_steps dw))) 0
            (deployment_steps dw))
         (steps (db w))).
Proof.
  intros Hk Hrun. destruct dw as [d ss].
  cbn [deployment_row deployment_steps] in *.
  rewrite simulateDeployment_start in Hrun by apply Hk.
  cbn [deployment_row deployment_steps] in Hrun.
  unfold bind at 1 in Hrun.
  destruct (run_steps d u (clock w (clock_pos w))
              (decided_failAtStep w (List.length ss)) 0 ss (after_start d u w))
    as [[exit|e] w2] eqn:Hloop; [|discriminate].
  apply run_steps_marks in Hloop; [|now apply known_after_start].
  unfold after_start in Hloop. revert Hloop. wsimpl. intros Hloop.
  destruct exit.
  - cbn [ret] in Hrun. now injection Hrun as <-.
  - revert Hrun. do 2 mstep. unfold bind at 1.
    unfold prisma_deployment_update. unfold bind at 1. cbn [get_db]. wsimpl.
    destruct (has_key Deployment.id (Deployment.id d) (deployments (db w2)));
      [|discriminate].
    cbn [put_db emit set_db]. wsimpl. intros [= <-]. wsimpl. exact Hloop.
Qed.

(** ** Sorting and filtering commute with status updates *)

Lemma steps_of_untimed d id :
  map untimed (steps_of d id)
  = sort_by order_asc
      (filter (fun s => Nat.eqb (DeploymentStep.deploymentId s) id)
              (map untimed (steps d))).
Proof.
  unfold steps_of.
  rewrite (sort_by_map untimed) by reflexivity.
  now rewrite (filter_map_comm untimed) by reflexivity.
Qed.

Lemma mark_steps_map_untimed marks :
  forall l, map untimed (mark_steps marks l) = mark_steps marks (map untimed l).
Proof.
  induction marks as [|m marks IH]; intros l; [reflexivity|].
  rewrite !mark_steps_cons, IH. f_equal. unfold update_rows.
  rewrite !map_map. apply map_ext. intros s.
  cbn [untimed DeploymentStep.id].
  now destruct (Nat.eqb (DeploymentStep.id s) (fst m)).
Qed.

Lemma mark_steps_select marks id :
  forall l,
    sort_by order_asc
      (filter (fun s => Nat.eqb (DeploymentStep.deploymentId s) id)
              (mark_steps marks l))
    = mark_steps marks
        (sort_by order_asc
           (filter (fun s => Nat.eqb (DeploymentStep.deploymentId s) id) l)).
Proof.
  induction marks as [|m marks IH]; intros l; [reflexivity|].
  rewrite !mark_steps_cons, IH. f_equal. unfold update_rows.
  set (f := fun r => if Nat.eqb (DeploymentStep.id r) (fst m)
                     then DeploymentStep.apply (set_to (snd m)) r else r).
  rewrite (sort_by_map f), (filter_map_comm f); [reflexivity| |].
  - intros a. unfold f. now destruct (Nat.eqb (DeploymentStep.id a) (fst m)).
  - intros a b. unfold f, order_asc.
    now destruct (Nat.eqb (DeploymentStep.id a) (fst m)),
                 (Nat.eqb (DeploymentStep.id b) (fst m)).
Qed.

(** The steps of the deployment after its run: the status updates of the
    events, applied to the steps before the run. *)
Lemma steps_of_after_run dw u w w' id :
  known (deployment_row dw) (deployment_steps dw) w ->
  simulateDeployment dw u w = (Ok tt, w') ->
  map untimed (steps_of (db w') id)
  = map untimed
      (mark_steps
         (expected_marks
            (decided_failAtStep w (List.length (deployment_steps dw))) 0
            (deployment_steps dw))
         (steps_of (db w) id)).
Proof.
  intros Hk Hrun.
  rewrite steps_of_untimed, (simulateDeployment_marks dw u w w' Hk Hrun).
  rewrite !mark_steps_map_untimed, mark_steps_select.
  now rewrite <- steps_of_untimed.
Qed.

(** ** The events of a run, as the client handles them *)

Lemma loop_emissions_room d u fa rest :
  forall i, Forall (fun e => fst e = to_user_room u) (loop_emissions d u fa i rest).
Proof.
  induction rest as [|s rest IH]; intros i; cbn [loop_emissions];
    [constructor|].
  constructor; [reflexivity|].
  destruct (Z.of_nat i =? fa); repeat (constructor; [reflexivity|]); auto.
Qed.

Lemma run_emissions_received dw sock w :
  filter (receives sock) (run_emissions dw (Socket.userId sock) w)
  = run_emissions dw (Socket.userId sock) w.
Proof.
  apply filter_all. intros e He. unfold receives.
  assert (F : Forall (fun e => fst e = to_user_room (Socket.userId sock))
                (run_emissions dw (Socket.userId sock) w)).
  { unfold run_emissions. constructor; [reflexivity|].
    apply Forall_app. split; [apply loop_emissions_room|].
    constructor; [|constructor]. now destruct (fails_within _ _ _). }
  rewrite Forall_forall in F. rewrite (F e He). apply Nat.eqb_refl.
Qed.

(** The step-update events of the loop, handled by a client whose current
    deployment is the one that runs. *)
Lemma receive_loop d u fa rest :
  forall i c row l,
    DeploymentStore.currentDeployment (SocketContext.store c)
    = Some (DeploymentStore.mkDeployment row (Some l)) ->
    Deployment.id row = Deployment.id d ->
    let c' := fold_left SocketContext.receive
                (@map Emission Event snd (loop_emissions d u fa i rest)) c in
    DeploymentStore.currentDeployment (SocketContext.store c')
    = Some (DeploymentStore.mkDeployment row
              (Some (mark_steps (expected_marks fa i rest) l)))
    /\ DeploymentStore.isDeploying (SocketContext.store c')
       = DeploymentStore.isDeploying (SocketContext.store c)
    /\ SocketContext.toasts c' = SocketContext.toasts c
    /\ SocketContext.now c' = SocketContext.now c
    /\ SocketContext.now_pos c' = SocketContext.now_pos c.
Proof.
  induction rest as [|s rest IH]; intros i c row l Hc Hid; cbn zeta.
  - cbn. auto.
  - assert (Hstep : forall c0 l0 status,
              DeploymentStore.currentDeployment (SocketContext.store c0)
              = Some (DeploymentStore.mkDeployment row (Some l0)) ->
              let c1 := SocketContext.on_step_update (Deployment.id d)
                          (DeploymentStep.id s) status c0 in
              DeploymentStore.currentDeployment (SocketContext.store c1)
              = Some (DeploymentStore.mkDeployment row
                        (Some (update_rows DeploymentStep.id (DeploymentStep.id s)
                                 (DeploymentStep.apply (set_to status)) l0)))
              /\ DeploymentStore.isDeploying (SocketContext.store c1)
                 = DeploymentStore.isDeploying (SocketContext.store c0)
              /\ SocketContext.toasts c1 = SocketContext.toasts c0
              /\ SocketContext.now c1 = SocketContext.now c0
              /\ SocketContext.now_pos c1 = SocketContext.now_pos c0).
    { intros c0 l0 status H0. cbn zeta.
      unfold SocketContext.on_step_update, SocketContext.with_store,
        DeploymentStore.updateStep.
      cbn [SocketContext.store SocketContext.toasts SocketContext.now
           SocketContext.now_pos DeploymentStore.currentDeployment
           DeploymentStore.isDeploying].
      rewrite H0. cbn [DeploymentStore.row]. rewrite Hid, Nat.eqb_refl.
      splits; reflexivity. }
    cbn [loop_emissions expected_marks map fold_left snd SocketContext.receive].
    destruct (Hstep c l RUNNING Hc) as (H1 & H2 & H3 & H4 & H5).
    destruct (Z.of_nat i =? fa).
    + cbn [map fold_left snd SocketContext.receive].
      destruct (Hstep _ _ FAILED H1) as (G1 & G2 & G3 & G4 & G5).
      rewrite !mark_steps_cons. cbn [mark_steps fold_left fst snd].
      splits; congruence.
    + cbn [map fold_left snd SocketContext.receive].
      destruct (Hstep _ _ COMPLETED H1) as (G1 & G2 & G3 & G4 & G5).
      destruct (IH (S i) _ _ _ G1 Hid) as (K1 & K2 & K3 & K4 & K5).
      rewrite !mark_steps_cons. cbn [fst snd].
      splits; congruence.
Qed.

(** The events of the owner's run, handled by a client that holds the
    deployment as the server answered it. *)
Lemma receive_run (w : World) (sock : Socket.t) (r : Deployment.t)
    (c : SocketContext.t) :
  wf_db (db w) ->
  find_deployment (db w) (Deployment.id r) = Some r ->
  Deployment.userId r = Socket.userId sock ->
  DeploymentStore.currentDeployment (SocketContext.store c)
  = Some (DeploymentStore.of_answer (with_steps (db w) r)) ->
  let id := Deployment.id r in
  let ss := steps_of (db w) id in
  let fa := decided_failAtStep w (List.length ss) in
  let w' := handle (start_deployment sock id) w in
  let c' := SocketContext.receive_all sock (new_emissions w w') c in
  exists r' row',
    find_deployment (db w') id = Some r'
    /\ DeploymentStore.currentDeployment (SocketContext.store c')
       = Some (DeploymentStore.mkDeployment row'
                 (Some (mark_steps (expected_marks fa 0 ss) ss)))
    /\ map untimed (mark_steps (expected_marks fa 0 ss) ss)
       = map untimed (steps_of (db w') id)
    /\ Deployment.status row' = Deployment.status r'
    /\ (Deployment.status r' = COMPLETED \/ Deployment.status r' = FAILED)
    /\ as_posted row' = as_posted r
    /\ (Deployment.status r' = COMPLETED ->
          Deployment.duration row' = Deployment.duration r')
    /\ Deployment.completedAt row'
       = Some (SocketContext.now c (SocketContext.now_pos c))
    /\ Deployment.errorMsg row' = Deployment.errorMsg r
    /\ DeploymentStore.isDeploying (SocketContext.store c') = false
    /\ List.length (SocketContext.toasts c')
       = S (List.length (SocketContext.toasts c)).
Proof.
  intros Hwf Hfind Hown Hc id ss0 fa0 w' c'. subst id ss0 fa0 w' c'.
  cbn [handle].
  destruct (on_start_deployment_run w sock r Hwf Hfind Hown)
    as (w' & r' & E & Hrun & _ & Hem & Hr' & Hfinal).
  rewrite E. cbn [snd]. unfold new_emissions. rewrite Hem, skipn_new.
  unfold SocketContext.receive_all. rewrite run_emissions_received.
  assert (Hsteps : map untimed (steps_of (db w') (Deployment.id r))
                   = map untimed
                       (mark_steps
                          (expected_marks
                             (decided_failAtStep w
                                (List.length (steps_of (db w) (Deployment.id r))))
                             0 (steps_of (db w) (Deployment.id r)))
                          (steps_of (db w) (Deployment.id r)))).
  { apply (steps_of_after_run (with_steps (db w) r) (Socket.userId sock) w w');
      [|exact Hrun].
    cbn. now apply known_with_steps with (id := Deployment.id r). }
  unfold run_emissions. cbn [with_steps deployment_row deployment_steps].
  set (ss := steps_of (db w) (Deployment.id r)) in *.
  set (fa := decided_failAtStep w (List.length ss)) in *.
  cbn [map fold_left snd SocketContext.receive].
  rewrite map_app, fold_left_app.
  set (c1 := SocketContext.on_deployment_status (Deployment.id r) RUNNING c).
  assert (Hc1 : DeploymentStore.currentDeployment (SocketContext.store c1)
                = Some (DeploymentStore.mkDeployment
                          (Deployment.apply
                             (Deployment.mkData (Some RUNNING) None None None) r)
                          (Some ss))).
  { unfold c1, SocketContext.on_deployment_status, SocketContext.with_store,
      DeploymentStore.updateDeployment, DeploymentStore.setIsDeploying.
    cbn [Status_eqb SocketContext.store DeploymentStore.currentDeployment].
    rewrite Hc. unfold DeploymentStore.of_answer, DeploymentStore.spread.
    cbn [with_steps deployment_row deployment_steps DeploymentStore.row
         DeploymentStore.steps].
    now rewrite Nat.eqb_refl. }
  destruct (receive_loop r (Socket.userId sock) fa ss 0 c1 _ _ Hc1 eq_refl)
    as (L1 & _ & L3 & L4 & L5).
  cbv zeta in L1, L3, L4, L5. exists r'.
  destruct (fails_within fa 0 (List.length ss)); destruct Hfinal as [Hst Hdur];
    eexists; (split; [exact Hr'|]);
    cbn [map fold_left snd SocketContext.receive failed_event completed_event];
    unfold SocketContext.on_deployment_complete, DeploymentStore.updateDeployment,
      DeploymentStore.setIsDeploying;
    cbn [SocketContext.store SocketContext.toasts
         DeploymentStore.currentDeployment DeploymentStore.isDeploying];
    rewrite L1; unfold DeploymentStore.spread;
    cbn [DeploymentStore.row DeploymentStore.steps Deployment.apply Deployment.id];
    rewrite Nat.eqb_refl; (split; [reflexivity|]);
    cbn [Deployment.status Deployment.duration Deployment.completedAt
         Deployment.errorMsg Deployment.set_status Deployment.set_duration
         Deployment.set_completedAt Deployment.set_errorMsg Deployment.write
         Deployment.write_opt];
    rewrite L3, L4, L5, Hst, length_app; cbn [List.length]; splits; auto;
      try (symmetry; exact Hsteps);
      try congruence;
      unfold c1, SocketContext.on_deployment_status, SocketContext.with_store;
      cbn [SocketContext.toasts]; lia.
Qed.

(** X16: The client follows the run.  A client that holds the deployment as the
    server answered it, and handles the events of the run in the order of
    their emission, ends with the status of the deployment and, step by
    step, the statuses of the steps that the server has stored.  It is no
    longer deploying and has shown one toast.  The duration that it shows
    is the stored one when the run completed; the time of completion is
    read from its own clock, and the error message is not updated. *)
Theorem client_follows_run (w : World) (sock : Socket.t) (id : Id)
    (r : Deployment.t) (c : SocketContext.t) :
  wf_db (db w) ->
  find_deployment (db w) id = Some r ->
  Deployment.userId r = Socket.userId sock ->
  DeploymentStore.currentDeployment (SocketContext.store c)
  = Some (DeploymentStore.of_answer (with_steps (db w) r)) ->
  let w' := handle (start_deployment sock id) w in
  let c' := SocketContext.receive_all sock (new_emissions w w') c in
  exists r' row' steps',
    find_deployment (db w') id = Some r'
    /\ DeploymentStore.currentDeployment (SocketContext.store c')
       = Some (DeploymentStore.mkDeployment row' (Some steps'))
    /\ map untimed steps' = map untimed (steps_of (db w') id)
    /\ Deployment.status row' = Deployment.status r'
    /\ (Deployment.status r' = COMPLETED \/ Deployment.status r' = FAILED)
    /\ as_posted row' = as_posted r
    /\ (Deployment.status r' = COMPLETED ->
          Deployment.duration row' = Deployment.duration r')
    /\ Deployment.completedAt row'
       = Some (SocketContext.now c (SocketContext.now_pos c))
    /\ Deployment.errorMsg row' = Deployment.errorMsg r
    /\ DeploymentStore.isDeploying (SocketContext.store c') = false
    /\ List.length (SocketContext.toasts c')
       = S (List.length (SocketContext.toasts c)).
Proof.
  intros Hwf Hfind Hown Hc.
  destruct (find_deployment_In _ _ _ Hfind) as [_ Hid0]. subst id.
  intros w' c'.
  destruct (receive_run w sock r c Hwf Hfind Hown Hc)
    as (r' & row' & H1 & H2 & H3 & H4).
  exists r', row'. eexists. splits; [exact H1 | exact H2 | exact H3 | ..];
    apply H4.
Qed.

(** ** The progress bar *)

Lemma completedSteps_le d : (completedSteps d <= totalSteps d)%nat.
Proof.
  unfold completedSteps, totalSteps.
  destruct (DeploymentStore.steps d); [apply filter_length_le | lia].
Qed.

Lemma percentage_cases (c t : nat) :
  (0 < t)%nat -> (c <= t)%nat ->
  let q := (inject_Z (Z.of_nat c) / inject_Z (Z.of_nat t) * inject_Z 100)%Q in
  (0 <= q)%Q /\ (q <= 100)%Q /\ ((q == 100)%Q <-> c = t)
  /\ ((q == 0)%Q <-> c = 0%nat).
Proof.
  intros Ht Hc q. subst q. destruct t as [|t']; [lia|].
  unfold Qle, Qeq, Qdiv, Qmult, Qinv, inject_Z.
  cbn [Qnum Qden Z.of_nat]. cbn [Qnum Qden].
  rewrite ?Pos.mul_1_r, ?Pos.mul_1_l, ?Z.mul_1_r, ?Z.mul_1_l.
  splits; try split; intros; try lia; try nia.
Qed.

(** The bar is full exactly when there are steps and all of them are
    COMPLETED. *)
Lemma progress_full (d : DeploymentStore.Deployment) :
  (progressPercentage d == 100)%Q
  <-> (0 < totalSteps d)%nat /\ completedSteps d = totalSteps d.
Proof.
  pose proof (completedSteps_le d) as Hle. unfold progressPercentage.
  destruct (Nat.ltb_spec 0 (totalSteps d)) as [Ht|Ht].
  - destruct (percentage_cases _ _ Ht Hle) as (_ & _ & C & _).
    rewrite C. tauto.
  - split; [discriminate | lia].
Qed.

(** X17: The progress bar shows a percentage between 0 and 100; it is full
    exactly when there are steps and all of them are COMPLETED, and empty
    exactly when no step is COMPLETED. *)
Theorem progress_bar (d : DeploymentStore.Deployment) :
  (0 <= progressPercentage d)%Q
  /\ (progressPercentage d <= 100)%Q
  /\ ((progressPercentage d == 100)%Q
      <-> (0 < totalSteps d)%nat /\ completedSteps d = totalSteps d)
  /\ ((progressPercentage d == 0)%Q <-> completedSteps d = 0%nat).
Proof.
  pose proof (completedSteps_le d) as Hle. unfold progressPercentage.
  destruct (Nat.ltb_spec 0 (totalSteps d)) as [Ht|Ht].
  - destruct (percentage_cases _ _ Ht Hle) as (A & B & C & D).
    splits; auto. rewrite C. tauto.
  - assert (E : completedSteps d = 0%nat) by lia.
    splits; try discriminate; try reflexivity.
    + split; [discriminate | lia].
    + split; [auto | reflexivity].
Qed.

(** ** The progress bar after a run *)

Lemma mark_steps_app m1 m2 l :
  mark_steps (m1 ++ m2) l = mark_steps m2 (mark_steps m1 l).
Proof. apply fold_left_app. Qed.

Lemma mark_steps_ids marks :
  forall l, map DeploymentStep.id (mark_steps marks l) = map DeploymentStep.id l.
Proof.
  induction marks as [|m marks IH]; intros l; [reflexivity|].
  rewrite mark_steps_cons, IH. apply update_rows_proj. reflexivity.
Qed.

Lemma mark_steps_length marks l :
  List.length (mark_steps marks l) = List.length l.
Proof.
  rewrite <- (length_map DeploymentStep.id), mark_steps_ids. apply length_map.
Qed.

(** The steps that a loop without failure announces are COMPLETED at its
    end. *)
Lemma mark_steps_completed fa rest :
  forall i l done,
    fails_within fa i (List.length rest) = false ->
    Forall (fun x => In (DeploymentStep.id x) done ->
                     DeploymentStep.status x = COMPLETED) l ->
    Forall (fun x => In (DeploymentStep.id x)
                        (done ++ map DeploymentStep.id rest) ->
                     DeploymentStep.status x = COMPLETED)
           (mark_steps (expected_marks fa i rest) l).
Proof.
  induction rest as [|s rest IH]; intros i l done Hf Hl.
  - cbn. now rewrite app_nil_r.
  - cbn [List.length expected_marks map] in *.
    destruct (Z.eq_dec (Z.of_nat i) fa) as [He|Hne].
    + rewrite (fails_within_here _ _ _ He) in Hf. discriminate.
    + rewrite (fails_within_skip _ _ _ Hne) in Hf.
      apply Z.eqb_neq in Hne. rewrite Hne. rewrite !mark_steps_cons.
      cbn [fst snd].
      replace (done ++ DeploymentStep.id s :: map DeploymentStep.id rest)%list
        with ((done ++ [DeploymentStep.id s]) ++ map DeploymentStep.id rest)%list
        by now rewrite <- app_assoc.
      apply IH; [exact Hf|]. unfold update_rows. rewrite map_map.
      apply Forall_forall. intros y Hy. apply in_map_iff in Hy.
      destruct Hy as (x & <- & Hx). rewrite Forall_forall in Hl.
      specialize (Hl x Hx). cbv beta.
      destruct (Nat.eqb (DeploymentStep.id x) (DeploymentStep.id s)) eqn:E.
      * cbn [DeploymentStep.apply DeploymentStep.id]. rewrite E. reflexivity.
      * rewrite E. intros Hin. apply in_app_or in Hin.
        apply Nat.eqb_neq in E. destruct Hin as [Hin|[Hin|[]]];
          [auto | congruence].
Qed.

(** The last event of the steps in a loop that fails marks a step of the
    plan FAILED. *)
Lemma expected_marks_ends_failed fa rest :
  forall i, fails_within fa i (List.length rest) = true ->
            exists marks s, In s rest
                            /\ expected_marks fa i rest
                               = (marks ++ [(DeploymentStep.id s, FAILED)])%list.
Proof.
  induction rest as [|s rest IH]; intros i Hf.
  - now rewrite fails_within_nil in Hf.
  - cbn [List.length expected_marks] in *.
    destruct (Z.eq_dec (Z.of_nat i) fa) as [He|Hne].
    + apply Z.eqb_eq in He. rewrite He.
      exists [(DeploymentStep.id s, RUNNING)], s. split; [now left | reflexivity].
    + rewrite (fails_within_skip _ _ _ Hne) in Hf.
      apply Z.eqb_neq in Hne. rewrite Hne.
      destruct (IH _ Hf) as (marks & s' & Hs' & E).
      exists ((DeploymentStep.id s, RUNNING) :: (DeploymentStep.id s, COMPLETED)
              :: marks), s'.
      split; [now right|]. rewrite E. reflexivity.
Qed.

Lemma filter_length_lt {A} (f : A -> bool) (l : list A) x :
  In x l -> f x = false -> (List.length (filter f l) < List.length l)%nat.
Proof.
  induction l as [|y l IH]; intros Hin Hx; [contradiction|].
  cbn [filter List.length]. pose proof (filter_length_le f l).
  destruct Hin as [->|Hin].
  - rewrite Hx. lia.
  - specialize (IH Hin Hx). destruct (f y); cbn [List.length]; lia.
Qed.

(** X18: The progress bar after the run.  The client that followed the run of
    a deployment with steps shows a full bar exactly when the run
    completed. *)
Theorem progress_after_run (w : World) (sock : Socket.t) (id : Id)
    (r : Deployment.t) (c : SocketContext.t) :
  wf_db (db w) ->
  find_deployment (db w) id = Some r ->
  Deployment.userId r = Socket.userId sock ->
  steps_of (db w) id <> [] ->
  DeploymentStore.currentDeployment (SocketContext.store c)
  = Some (DeploymentStore.of_answer (with_steps (db w) r)) ->
  let w' := handle (start_deployment sock id) w in
  let c' := SocketContext.receive_all sock (new_emissions w w') c in
  exists r' d,
    find_deployment (db w') id = Some r'
    /\ DeploymentStore.currentDeployment (SocketContext.store c') = Some d
    /\ totalSteps d = List.length (steps_of (db w) id)
    /\ ((progressPercentage d == 100)%Q <-> Deployment.status r' = COMPLETED).
Proof.
  intros Hwf Hfind Hown Hne Hc.
  destruct (find_deployment_In _ _ _ Hfind) as [_ Hid0]. subst id.
  intros w' c'.
  destruct (receive_run w sock r c Hwf Hfind Hown Hc)
    as (r' & row' & H1 & H2 & _).
  destruct (on_start_deployment_run w sock r Hwf Hfind Hown)
    as (w1 & r1 & E & _ & _ & _ & Hr1 & Hfinal).
  assert (Hw : w' = w1) by (unfold w'; cbn [handle]; now rewrite E).
  fold w' in H1. rewrite <- Hw in Hr1. rewrite H1 in Hr1. injection Hr1 as <-.
  set (ss := steps_of (db w) (Deployment.id r)) in *.
  set (fa := decided_failAtStep w (List.length ss)) in *.
  set (d := DeploymentStore.mkDeployment row'
              (Some (mark_steps (expected_marks fa 0 ss) ss))) in *.
  exists r', d. fold c' in H2.
  assert (Htotal : totalSteps d = List.length ss).
  { unfold totalSteps, d. cbn [DeploymentStore.steps]. apply mark_steps_length. }
  splits; [exact H1 | exact H2 | exact Htotal |].
  rewrite progress_full, Htotal.
  assert (Hpos : (0 < List.length ss)%nat).
  { destruct ss; [congruence | cbn; lia]. }
  destruct (fails_within fa 0 (List.length ss)) eqn:Hf; destruct Hfinal as [Hst _].
  - rewrite Hst. split; [|discriminate]. intros [_ Hall]. exfalso.
    destruct (expected_marks_ends_failed fa ss 0 Hf) as (marks & s & Hs & Em).
    pose proof (completedSteps_le d) as Hle.
    assert (Hlt : (completedSteps d < totalSteps d)%nat); [|lia].
    unfold completedSteps, totalSteps, d. cbn [DeploymentStore.steps].
    rewrite Em, mark_steps_app. cbn [mark_steps fold_left fst snd].
    assert (Hin : In (DeploymentStep.id s)
                     (map DeploymentStep.id (mark_steps marks ss))).
    { rewrite mark_steps_ids. now apply in_map. }
    apply in_map_iff in Hin. destruct Hin as (x & Hx & Hin).
    apply filter_length_lt
      with (x := DeploymentStep.apply (set_to FAILED) x).
    + unfold update_rows. apply in_map_iff. exists x. split; [|exact Hin].
      now rewrite Hx, Nat.eqb_refl.
    + reflexivity.
  - rewrite Hst. split; [reflexivity|]. intros _. split; [exact Hpos|].
    unfold completedSteps, d. cbn [DeploymentStore.steps].
    rewrite filter_all; [apply mark_steps_length|].
    assert (Hall : Forall (fun x => In (DeploymentStep.id x)
                                       ([] ++ map DeploymentStep.id ss) ->
                                    DeploymentStep.status x = COMPLETED)
                     (mark_steps (expected_marks fa 0 ss) ss)).
    { apply mark_steps_completed; [exact Hf|].
      apply Forall_forall. intros x _ []. }
    rewrite Forall_forall in Hall. intros x Hx.
    rewrite (Hall x Hx); [reflexivity|].
    cbn [app]. rewrite <- (mark_steps_ids (expected_marks fa 0 ss) ss).
    now apply in_map.
Qed.

(** * Templates *)

Lemma template_rows_length n now data :
  List.length (template_rows n now data) = List.length data.
Proof.
  revert n. induction data as [|d data IH]; intros n; cbn; [reflexivity|].
  now rewrite IH.
Qed.

Lemma template_rows_ids n now data :
  map Template.id (template_rows n now data) = seq n (List.length data).
Proof.
  revert n. induction data as [|d data IH]; intros n; cbn; [reflexivity|].
  now rewrite IH.
Qed.

Lemma createMany_wf now data c :
  wf_catalog c -> wf_catalog (prisma_template_createMany now data c).
Proof.
  intros [Hnd Hlt]. unfold wf_catalog, prisma_template_createMany.
  cbn [templates next_template]. split.
  - rewrite map_app, template_rows_ids. apply NoDup_app; [exact Hnd | apply seq_NoDup|].
    intros i Hi Hs. apply in_map_iff in Hi. destruct Hi as (t & <- & Ht).
    apply Hlt in Ht. apply in_seq in Hs. lia.
  - intros t Ht. apply in_app_or in Ht. destruct Ht as [Ht|Ht].
    + apply Hlt in Ht. lia.
    + apply (in_map Template.id) in Ht. rewrite template_rows_ids in Ht.
      apply in_seq in Ht. lia.
Qed.

(** X19: Seeding happens once.  On a table without templates [seedDatabase]
    stores the six sample templates, three of them featured; on any other
    table it changes nothing, so a second call leaves what the first one
    stored.  The primary key is kept. *)
Theorem seedDatabase_once (now now' : Z) (c : Catalog) :
  seedDatabase now' (seedDatabase now c) = seedDatabase now c
  /\ (templates c <> [] -> seedDatabase now c = c)
  /\ (templates c = [] ->
      map Template.name (templates (seedDatabase now c))
      = map Template.new_name sample_templates
      /\ List.length (filter Template.featured (templates (seedDatabase now c)))
         = 3%nat)
  /\ (wf_catalog c -> wf_catalog (seedDatabase now c)).
Proof.
  assert (Hkeep : forall n c0, templates c0 <> [] -> seedDatabase n c0 = c0).
  { intros n c0 H. unfold seedDatabase.
    destruct (templates c0); [congruence | reflexivity]. }
  splits.
  - destruct (templates c) as [|t l] eqn:E.
    + assert (S : seedDatabase now c
                  = prisma_template_createMany now sample_templates c).
      { unfold seedDatabase. now rewrite E. }
      rewrite S. apply Hkeep. unfold prisma_template_createMany.
      cbn [templates]. rewrite E. discriminate.
    + rewrite (Hkeep now c) by (rewrite E; discriminate).
      apply Hkeep. rewrite E. discriminate.
  - apply Hkeep.
  - intros E. unfold seedDatabase, prisma_template_createMany. rewrite E.
    cbn [List.length Nat.eqb templates app]. splits.
    + reflexivity.
    + reflexivity.
  - intros Hwf. unfold seedDatabase.
    destruct (Nat.eqb (List.length (templates c)) 0); [|exact Hwf].
    now apply createMany_wf.
Qed.

Lemma template_order_total a b :
  template_order a b = true \/ template_order b a = true.
Proof.
  unfold template_order.
  destruct (Template.featured a), (Template.featured b); cbn; auto;
    rewrite !Z.leb_le; lia.
Qed.

Lemma template_order_trans a b c :
  template_order a b = true -> template_order b c = true ->
  template_order a c = true.
Proof.
  unfold template_order.
  destruct (Template.featured a), (Template.featured b), (Template.featured c);
    cbn; auto; try discriminate; rewrite !Z.leb_le; lia.
Qed.

(** X20: [GET /] of the templates router lists the stored templates that the
    filters select, each as often as it is stored, featured templates
    first and the newer before the older among templates that are alike
    in that.  Without a category, or with "all", every category is
    listed; only the string "true" selects the featured ones.  [GET /:id]
    answers 404 exactly when no template has the identifier. *)
Theorem get_templates_sound (c : Catalog) (category featured : option string) :
  let l := get_templates category featured c in
  Permutation l (filter (template_where category featured) (templates c))
  /\ StronglySorted (fun a b => template_order a b = true) l
  /\ (forall a b rest front,
        l = (front ++ a :: rest)%list -> In b rest ->
        (Template.featured b = true -> Template.featured a = true)
        /\ (Template.featured a = Template.featured b ->
            Template.createdAt b <= Template.createdAt a))
  /\ ((category = None \/ category = Some "all"%string) ->
      featured <> Some "true"%string ->
      Permutation l (templates c))
  /\ (forall id,
        (exists code error, get_template id c = template_not_found code error)
        <-> ~ In id (map Template.id (templates c))).
Proof.
  intros l. subst l. unfold get_templates.
  assert (Hs : StronglySorted (fun a b => template_order a b = true)
                 (sort_by template_order
                    (filter (template_where category featured) (templates c)))).
  { apply sort_by_sorted; [apply template_order_total | apply template_order_trans]. }
  splits.
  - apply sort_by_perm.
  - exact Hs.
  - intros a b rest front E Hb. rewrite E in Hs.
    assert (Hab : template_order a b = true).
    { clear E. induction front as [|x front IH]; cbn [app] in Hs.
      - apply StronglySorted_inv in Hs. destruct Hs as [_ F].
        rewrite Forall_forall in F. now apply F.
      - apply StronglySorted_inv in Hs. now apply IH. }
    unfold template_order in Hab.
    destruct (Template.featured a), (Template.featured b); cbn in Hab;
      try discriminate; (split; [auto|]); intros; try discriminate;
      now apply Z.leb_le.
  - intros Hc Hf. rewrite sort_by_perm. rewrite filter_all; [reflexivity|].
    intros t _. unfold template_where. apply andb_true_iff. split.
    + destruct Hc as [-> | ->]; reflexivity.
    + destruct featured as [v|]; [|reflexivity].
      destruct (String.eqb_spec v "true"); [congruence | reflexivity].
  - intros id. unfold get_template.
    destruct (find _ (templates c)) as [t|] eqn:Hf; split.
    + intros (code & error & H). discriminate.
    + intros H. exfalso. apply H. apply find_some in Hf.
      destruct Hf as [Hin Heq]. apply Nat.eqb_eq in Heq. rewrite <- Heq.
      now apply in_map.
    + intros _ Hin. apply in_map_iff in Hin. destruct Hin as (t & E & Ht).
      apply (find_none _ _ Hf) in Ht. cbv beta in Ht. rewrite E in Ht.
      now rewrite Nat.eqb_refl in Ht.
    + intros _. eauto.
Qed.

(** * The times and the logs of the steps *)

Lemma find_step_after_completed_row d u i s w r :
  find_step (db w) (DeploymentStep.id s) = Some r ->
  exists r', find_step (db (after_completed d u i s w)) (DeploymentStep.id s)
             = Some r'
             /\ DeploymentStep.status r' = COMPLETED
             /\ DeploymentStep.startedAt r' = Some (clock w (clock_pos w))
             /\ DeploymentStep.completedAt r' = Some (clock w (S (clock_pos w)))
             /\ DeploymentStep.logs r'
                = Some (success_logs (DeploymentStep.name s)
                          (actualDuration_of (Deployment.modpackUrl d) i
                             (random w (random_pos w)))).
Proof.
  intros H. unfold find_step in *. unfold after_completed. wsimpl.
  rewrite !find_update_same by auto using step_apply_id. rewrite H.
  eexists. repeat split; reflexivity.
Qed.

Lemma find_step_after_failed_row d u st s w r :
  find_step (db w) (DeploymentStep.id s) = Some r ->
  exists r', find_step (db (after_failed d u st s w)) (DeploymentStep.id s)
             = Some r'
             /\ DeploymentStep.status r' = FAILED
             /\ DeploymentStep.startedAt r' = Some (clock w (clock_pos w))
             /\ DeploymentStep.completedAt r' = Some (clock w (S (clock_pos w)))
             /\ DeploymentStep.logs r' = Some failure_logs.
Proof.
  intros H. unfold find_step in *. unfold after_failed. wsimpl.
  rewrite !find_update_same by auto using step_apply_id. rewrite H.
  eexists. repeat split; reflexivity.
Qed.

(** The rows of the steps that the loop has handled. *)
Lemma run_steps_rows d u st fa rest :
  NoDup (map DeploymentStep.id rest) ->
  forall i w exit w',
    known d rest w ->
    run_steps d u st fa i rest w = (Ok exit, w') ->
    forall j s,
      nth_error rest j = Some s ->
      fa < Z.of_nat i \/ Z.of_nat (i + j) <= fa ->
      exists s',
        find_step (db w') (DeploymentStep.id s) = Some s'
        /\ DeploymentStep.startedAt s' = Some (clock w (clock_pos w + 2 * j))
        /\ DeploymentStep.completedAt s'
           = Some (clock w (clock_pos w + 2 * j + 1))
        /\ (Z.of_nat (i + j) <> fa ->
            DeploymentStep.status s' = COMPLETED
            /\ DeploymentStep.logs s'
               = Some (success_logs (DeploymentStep.name s)
                         (actualDuration_of (Deployment.modpackUrl d) (i + j)
                            (random w (random_pos w + j)))))
        /\ (Z.of_nat (i + j) = fa ->
            DeploymentStep.status s' = FAILED
            /\ DeploymentStep.logs s' = Some failure_logs).
Proof.
  induction rest as [|s0 rest IH]; intros Hnd i w exit w' Hk Hrun j s Hj Hfa;
    [nth_nil|].
  inversion Hnd as [|? ? Hnotin Hnd']; subst.
  assert (Hks : has_key DeploymentStep.id (DeploymentStep.id s0) (steps (db w))
                = true) by (apply Hk; now left).
  destruct (has_key_find _ _ _ Hks) as [r0 Hr0]. fold (find_step (db w) (DeploymentStep.id s0)) in Hr0.
  destruct (Z.eq_dec (Z.of_nat i) fa) as [He|Hne].
  - rewrite run_steps_failed in Hrun by (assumption || apply Hk).
    injection Hrun as <- <-.
    destruct j as [|j]; [|lia]. cbn in Hj. injection Hj as <-.
    destruct (find_step_after_failed_row d u st s0 w r0 Hr0)
      as (r' & F1 & F2 & F3 & F4 & F5).
    exists r'. rewrite ?Nat.add_0_r, ?Nat.mul_0_r, ?Nat.add_0_r.
    replace (clock_pos w + 1)%nat with (S (clock_pos w)) by lia.
    splits; auto. intros H. lia.
  - rewrite run_steps_completed in Hrun by assumption.
    pose proof (known_after_completed d u i s0 rest w Hk) as Hk1.
    destruct j as [|j].
    + cbn in Hj. injection Hj as <-.
      destruct (find_step_after_completed_row d u i s0 w r0 Hr0)
        as (r' & F1 & F2 & F3 & F4 & F5).
      destruct (run_steps_spec d u st fa rest Hnd' (S i) _ Hk1)
        as (exit1 & w1 & Hrun1 & Hpost).
      rewrite Hrun in Hrun1. injection Hrun1 as <- <-.
      destruct Hpost as (_ & _ & _ & _ & Hother & _).
      exists r'. rewrite Hother by exact Hnotin.
      rewrite ?Nat.add_0_r, ?Nat.mul_0_r, ?Nat.add_0_r.
      replace (clock_pos w + 1)%nat with (S (clock_pos w)) by lia.
      splits; auto. intros H. lia.
    + cbn [nth_error] in Hj.
      destruct (IH Hnd' (S i) _ exit w' Hk1 Hrun j s Hj) as (s' & G1 & G2 & G3 & G4 & G5).
      { lia. }
      exists s'. unfold after_completed in G2, G3, G4. revert G2 G3 G4. wsimpl.
      intros G2 G3 G4.
      replace (S (S (clock_pos w)) + 2 * j)%nat
        with (clock_pos w + 2 * S j)%nat in G2, G3 by lia.
      replace (S i + j)%nat with (i + S j)%nat in G4, G5 by lia.
      replace (S (random_pos w) + j)%nat with (random_pos w + S j)%nat in G4 by lia.
      splits; auto.
Qed.

(** X21: The times and the logs of the steps.  After the owner's run, the
    step at index [j] of the plan, when the run reached it, has its
    [startedAt] and [completedAt] from two successive readings of the
    clock, after those of the step before it: the steps run one after the
    other.  A completed step has the three lines of the success log, with
    the duration that was simulated for it, the estimate of the plan at
    its index plus five times its draw; the failed step has the three
    lines of the failure log. *)
Theorem step_times_and_logs (w : World) (sock : Socket.t) (id : Id)
    (r : Deployment.t) :
  wf_db (db w) ->
  find_deployment (db w) id = Some r ->
  Deployment.userId r = Socket.userId sock ->
  let w' := handle (start_deployment sock id) w in
  let ss := steps_of (db w) id in
  let fa := decided_failAtStep w (List.length ss) in
  let p := clock_pos w in
  forall j s,
    nth_error ss j = Some s ->
    fa < 0 \/ Z.of_nat j <= fa ->
    exists s',
      find_step (db w') (DeploymentStep.id s) = Some s'
      /\ DeploymentStep.startedAt s' = Some (clock w (p + 2 * j + 1))
      /\ DeploymentStep.completedAt s' = Some (clock w (p + 2 * j + 2))
      /\ (Z.of_nat j <> fa ->
          DeploymentStep.status s' = COMPLETED
          /\ DeploymentStep.logs s'
             = Some (success_logs (DeploymentStep.name s)
                       (actualDuration_of (Deployment.modpackUrl r) j
                          (random w (first_draw w + j)))))
      /\ (Z.of_nat j = fa ->
          DeploymentStep.status s' = FAILED
          /\ DeploymentStep.logs s' = Some failure_logs).
Proof.
  intros Hwf Hfind Hown.
  destruct (find_deployment_In _ _ _ Hfind) as [_ Hid0]. subst id.
  intros w' ss fa p j s Hj Hfa.
  destruct (on_start_deployment_run w sock r Hwf Hfind Hown)
    as (w1 & r1 & E & Hrun & _).
  assert (Hw : w' = w1) by (unfold w'; cbn [handle]; now rewrite E).
  rewrite Hw. clear Hw E w'.
  assert (Hk : known r ss w).
  { now apply known_with_steps with (id := Deployment.id r). }
  rewrite simulateDeployment_start in Hrun by apply Hk.
  cbn [with_steps deployment_row deployment_steps] in Hrun.
  fold ss in Hrun. fold fa in Hrun.
  unfold bind at 1 in Hrun.
  destruct (run_steps r (Socket.userId sock) (clock w (clock_pos w)) fa 0 ss
              (after_start r (Socket.userId sock) w))
    as [[exit|e] w2] eqn:Hloop; [|discriminate].
  assert (Hnd : NoDup (map DeploymentStep.id ss)).
  { apply steps_of_NoDup, Hwf. }
  destruct (run_steps_rows r (Socket.userId sock) _ fa ss Hnd 0 _ exit w2
              (known_after_start _ _ _ _ Hk) Hloop j s Hj)
    as (s' & G1 & G2 & G3 & G4 & G5).
  { cbn. lia. }
  assert (Hsame : find_step (db w1) (DeploymentStep.id s)
                  = find_step (db w2) (DeploymentStep.id s)).
  { destruct exit.
    - cbn [ret] in Hrun. now injection Hrun as <-.
    - revert Hrun. do 2 mstep. unfold bind at 1.
      unfold prisma_deployment_update. unfold bind at 1. cbn [get_db]. wsimpl.
      destruct (has_key Deployment.id (Deployment.id r) (deployments (db w2)));
        [|discriminate].
      cbn [put_db emit set_db]. wsimpl. now intros [= <-]. }
  exists s'. rewrite Hsame. unfold after_start in G2, G3, G4.
  revert G2 G3 G4. wsimpl. intros G2 G3 G4. cbn [Nat.add] in G4, G5.
  replace (S (clock_pos w) + 2 * j)%nat with (p + 2 * j + 1)%nat in G2 by (unfold p; lia).
  replace (S (clock_pos w) + 2 * j + 1)%nat with (p + 2 * j + 2)%nat in G3
    by (unfold p; lia).
  splits; auto.
Qed.

(** * The host name of the server *)












(** * From the request to the end of the run *)

(** X23: Create, then start.  On a well-formed store, [POST /] with a URL
    followed by the start signal of the same user for the new identifier
    runs the new deployment to its end: it is stored as COMPLETED or
    FAILED, with the name that was given or else extracted from the URL,
    and with one step for each entry of the plan of the URL.  The first
    event announces it RUNNING.  When it has FAILED, its error message
    names a step of that plan. *)
Theorem create_then_start (w : World) (sock : Socket.t) (modpackUrl : string)
    (modpackName : option string) :
  wf_db (db w) ->
  modpackUrl <> ""%string ->
  let id := next_id (db w) in
  let w1 := handle (POST_deployment (Socket.userId sock) (Some modpackUrl)
                      modpackName) w in
  let w2 := handle (start_deployment sock id) w1 in
  let plan := createDeploymentPlan modpackUrl in
  exists r',
    find_deployment (db w2) id = Some r'
    /\ Deployment.userId r' = Socket.userId sock
    /\ Deployment.modpackUrl r' = modpackUrl
    /\ Deployment.modpackName r'
       = match truthy modpackName with
         | Some name => name
         | None => extractModpackName modpackUrl
         end
    /\ (Deployment.status r' = COMPLETED \/ Deployment.status r' = FAILED)
    /\ map DeploymentStep.name (steps_of (db w2) id) = map DeploymentPlan.name plan
    /\ hd_error (new_emissions w1 w2)
       = Some (to_user_room (Socket.userId sock),
               deployment_status id RUNNING "Deployment started")
    /\ (Deployment.status r' = FAILED ->
        exists name, In name (map DeploymentPlan.name plan)
                     /\ Deployment.errorMsg r'
                        = Some ("Deployment failed at step: " ++ name)%string).
Proof.
  intros Hwf Hurl id w1 w2 plan. subst plan.
  assert (E1 : w1 = after_post w (Socket.userId sock) modpackUrl modpackName).
  { subst w1. cbn [handle]. now rewrite post_deployment_created. }
  assert (Hwf1 : wf_db (db w1)) by (apply handle_wf, Hwf).
  set (r := new_deployment w (Socket.userId sock) modpackUrl modpackName).
  assert (Hfind : find_deployment (db w1) (Deployment.id r) = Some r).
  { rewrite E1. now apply find_new_deployment. }
  assert (Hss : steps_of (db w1) id
                = new_steps id (S id) 0 (createDeploymentPlan modpackUrl)).
  { rewrite E1. now apply steps_of_new_deployment. }
  destruct (on_start_deployment_run w1 sock r Hwf1 Hfind eq_refl)
    as (w' & r' & E & _ & Hpost & Hem & Hr' & Hfinal).
  change (Deployment.id r) with id in *.
  assert (Hw2 : w2 = w') by (unfold w2; cbn [handle]; now rewrite E).
  destruct (on_start_deployment_same_shape sock id w1) as (A & B & _).
  fold (handle (start_deployment sock id) w1) in A, B. fold w2 in A, B.
  assert (Hposted : as_posted r' = as_posted r).
  { pose proof (find_as_posted _ _ id A) as F.
    fold (find_deployment (db w2) id) in F.
    fold (find_deployment (db w1) id) in F.
    rewrite Hw2, Hr', Hfind in F. cbn in F. congruence. }
  exists r'. rewrite Hw2. splits.
  - exact Hr'.
  - apply (f_equal Deployment.userId) in Hposted. exact Hposted.
  - apply (f_equal Deployment.modpackUrl) in Hposted. exact Hposted.
  - apply (f_equal Deployment.modpackName) in Hposted. exact Hposted.
  - destruct (fails_within _ _ _); destruct Hfinal as [-> _]; auto.
  - rewrite <- Hw2.
    assert (S : map as_created (steps_of (db w2) id)
                = map as_created (steps_of (db w1) id)).
    { now rewrite !steps_of_as_created, B. }
    apply (f_equal (map DeploymentStep.name)) in S.
    rewrite !map_map in S. cbn [as_created DeploymentStep.name] in S.
    rewrite <- map_map with (g := DeploymentStep.name) (f := fun x => x) in S.
    rewrite !map_id in S. rewrite S, Hss. apply new_steps_names.
  - unfold new_emissions. rewrite Hem, skipn_new. reflexivity.
  - intros Hfailed.
    destruct (fails_within _ _ _) eqn:Hf; destruct Hfinal as [Hst _];
      [|congruence].
    destruct (fails_within_index _ _ Hf) as (j & Hj & Hjfa).
    destruct Hpost as (_ & _ & _ & _ & _ & _ & _ & _ & (r2 & Hr2 & _ & _ & Hko) & _).
    cbn [with_steps deployment_row deployment_steps] in Hr2, Hko.
    change (Deployment.id r) with id in *.
    rewrite Hr' in Hr2. injection Hr2 as <-.
    destruct (nth_error (steps_of (db w1) id) j) as [s|] eqn:Hs;
      [|apply nth_error_None in Hs; lia].
    destruct (Hko j s Hs Hjfa) as (_ & Hmsg & _).
    exists (DeploymentStep.name s). split; [|exact Hmsg].
    rewrite <- (new_steps_names id (createDeploymentPlan modpackUrl) (S id) 0).
    rewrite <- Hss. apply in_map. eapply nth_error_In; eauto.
Qed.

(** * Instances *)

Lemma post_then_get_witness :
  get_deployment 8 0 (created_world failing_draws seconds_clock)
  = (Ok (mkResponse 404 (body_error "Deployment not found")),
     created_world failing_draws seconds_clock).
Proof.
  destruct (post_then_get (fresh_world failing_draws seconds_clock) 7 small_zip
              None) as (d & _ & _ & _ & H).
  - apply wf_empty_db.
  - discriminate.
  - apply (H 8%nat). discriminate.
Defined.

Lemma post_deployment_validates_witness :
  post_deployment 7 (Some EmptyString) None world_to_fail
  = (Ok (mkResponse 400 (body_error "Modpack URL is required")), world_to_fail).
Proof.
  apply (post_deployment_validates world_to_fail 7 (Some EmptyString) None).
  wf_by_computation.
Defined.

Lemma start_emissions_scoped_witness :
  filter (receives session_of_8)
         (new_emissions world_to_fail
            (handle (start_deployment session_of_7 0) world_to_fail))
  = [].
Proof.
  apply (start_emissions_scoped world_to_fail session_of_7 session_of_8 0).
  - wf_by_computation.
  - discriminate.
  - discriminate.
Defined.

Lemma start_emissions_trace_witness :
  exists r,
    find_deployment (db world_to_fail) 0 = Some r
    /\ new_emissions world_to_fail
         (handle (start_deployment session_of_7 0) world_to_fail)
       = run_emissions (with_steps (db world_to_fail) r) 7 world_to_fail.
Proof.
  eexists. split; [by_computation|].
  apply (start_emissions_trace world_to_fail session_of_7 0).
  - wf_by_computation.
  - by_computation.
  - reflexivity.
  - reflexivity.
Defined.

Lemma stored_and_announced_duration_witness :
  exists r' before message info,
    find_deployment
      (db (handle (start_deployment session_of_7 0) world_to_fail)) 0
    = Some r'
    /\ Deployment.duration r' = Some 10
    /\ new_emissions world_to_fail
         (handle (start_deployment session_of_7 0) world_to_fail)
       = (before
          ++ [(to_user_room 7, deployment_complete 0 FAILED message 11 info)])%list.
Proof.
  edestruct (stored_and_announced_duration world_to_fail session_of_7 0)
    as (r' & before & message & announced & info & H1 & H2 & _ & H4).
  - wf_by_computation.
  - by_computation.
  - reflexivity.
  - destruct H4 as (Hst & Hd & Ha); [by_computation|].
    exists r', before, message, info. splits.
    + exact H1.
    + rewrite Hd. by_computation.
    + rewrite H2, Hst, Ha. by_computation.
Defined.

Lemma run_without_failure_witness :
  deployment_status_of (db completed_world) 0 = Some COMPLETED
  /\ List.length (new_emissions world_to_succeed completed_world) = 16%nat.
Proof.
  edestruct (run_without_failure world_to_succeed session_of_7 0)
    as (_ & H2 & _ & H4).
  - wf_by_computation.
  - by_computation.
  - reflexivity.
  - by_computation.
  - split; [exact H2|]. unfold completed_world. rewrite H4. by_computation.
Defined.

Lemma start_touches_one_deployment_witness :
  find_deployment
    (db (handle (start_deployment session_of_7 0) two_deployments_world)) 8
  = find_deployment (db two_deployments_world) 8.
Proof.
  apply (start_touches_one_deployment two_deployments_world session_of_7 0).
  - wf_by_computation.
  - discriminate.
Defined.

Lemma plan_fixed_witness :
  map as_created
      (steps_of
         (db (handle_all [start_deployment session_of_7 0; DELETE_deployment 7 0]
                         world_to_fail)) 0)
  = map as_created (steps_of (db world_to_fail) 0).
Proof.
  apply (plan_fixed world_to_fail
           [start_deployment session_of_7 0; DELETE_deployment 7 0]).
  - wf_by_computation.
  - vm_compute. lia.
Defined.

Lemma deployments_persist_witness :
  let w' := handle_all [start_deployment session_of_7 0] world_to_fail in
  delete_deployment 7 0 w'
  = (Ok (mkResponse 404 (body_error "Deployment not found")), w')
  \/ delete_deployment 7 0 w' = (Ok internal_error, w').
Proof.
  apply (deployments_persist world_to_fail [start_deployment session_of_7 0]).
  - wf_by_computation.
  - intros r Hr. vm_compute in Hr. destruct Hr as [<-|[]]. reflexivity.
Defined.

Lemma client_follows_run_witness :
  DeploymentStore.isDeploying
    (SocketContext.store
       (SocketContext.receive_all session_of_7
          (new_emissions world_to_fail
             (handle (start_deployment session_of_7 0) world_to_fail))
          (client_of world_to_fail 0)))
  = false.
Proof.
  edestruct (client_follows_run world_to_fail session_of_7 0)
    with (c := client_of world_to_fail 0)
    as (r' & row' & steps' & H).
  - wf_by_computation.
  - by_computation.
  - reflexivity.
  - by_computation.
  - apply H.
Defined.

Lemma progress_after_run_witness :
  exists d,
    DeploymentStore.currentDeployment
      (SocketContext.store
         (SocketContext.receive_all session_of_7
            (new_emissions world_to_succeed completed_world)
            (client_of world_to_succeed 0)))
    = Some d
    /\ (progressPercentage d == 100)%Q.
Proof.
  edestruct (progress_after_run world_to_succeed session_of_7 0)
    with (c := client_of world_to_succeed 0)
    as (r' & d & H1 & H2 & _ & H4).
  - wf_by_computation.
  - by_computation.
  - reflexivity.
  - vm_compute. discriminate.
  - by_computation.
  - exists d. split; [exact H2|]. apply H4.
    vm_compute in H1. injection H1 as <-. reflexivity.
Defined.

Lemma step_times_and_logs_witness :
  (exists s',
     find_step (db (handle (start_deployment session_of_7 0) world_to_fail)) 4
     = Some s'
     /\ DeploymentStep.status s' = FAILED
     /\ DeploymentStep.startedAt s' = Some 8000
     /\ DeploymentStep.completedAt s' = Some 9000)
  /\ (exists s',
        find_step (db (handle (start_deployment session_of_7 0) world_to_fail)) 1
        = Some s'
        /\ DeploymentStep.logs s'
           = Some ["Successfully completed Validate URL"; "Duration: 5.5s";
                   "All checks passed ✓"]%string)
  /\ toFixed1 (actualDuration_of small_zip 0 (double_of (1 # 100)))
     = "3.0"%string.
Proof.
  splits.
  - edestruct (step_times_and_logs world_to_fail session_of_7 0)
      with (j := 3%nat) as (s' & H1 & H2 & H3 & _ & H5).
    + wf_by_computation.
    + by_computation.
    + reflexivity.
    + by_computation.
    + right. vm_compute. discriminate.
    + exists s'. splits.
      * exact H1.
      * apply H5. by_computation.
      * rewrite H2. by_computation.
      * rewrite H3. by_computation.
  - edestruct (step_times_and_logs world_to_fail session_of_7 0)
      with (j := 0%nat) as (s' & H1 & _ & _ & H4 & _).
    + wf_by_computation.
    + by_computation.
    + reflexivity.
    + by_computation.
    + right. vm_compute. discriminate.
    + exists s'. split; [exact H1|].
      destruct H4 as [_ H4]; [vm_compute; discriminate|].
      rewrite H4. by_computation.
  - by_computation.
Defined.

Lemma create_then_start_witness :
  exists r',
    find_deployment
      (db (handle (start_deployment session_of_7 0) world_to_fail)) 0
    = Some r'
    /\ Deployment.modpackName r' = "small.zip"%string
    /\ Deployment.status r' = FAILED.
Proof.
  destruct (create_then_start (fresh_world failing_draws seconds_clock)
              session_of_7 small_zip None)
    as (r' & H1 & _ & _ & H4 & _).
  - apply wf_empty_db.
  - discriminate.
  - exists r'. splits.
    + exact H1.
    + rewrite H4. by_computation.
    + vm_compute in H1. injection H1 as <-. reflexivity.
Defined.

